(** * Help Scout MCP server: search aggregation, reply formatting, safety gates

    A shallow embedding of the decision logic of the [ToolHandler] class
    (tools/index.ts): the auto-paginating conversation fetch, the three
    [searchConversations] strategies with their per-status fan-out, the
    client-side [createdBefore] filter, transcript construction and
    redaction, the outbound reply formatter and the [createReply] /
    [callTool] gates.

    Conventions.
    - JavaScript strings are modelled as [string] over the ASCII range.
    - Regular expressions are values of [regex], run by a backtracking
      matcher that follows the ECMAScript rules the patterns of this
      program rely on (leftmost match, greedy and lazy quantifiers,
      capture groups, negative lookahead, word boundaries).
    - A promise is modelled by the value it settles to ([Settled]); a
      function that may throw returns [Outcome].
    - The upstream HTTP API is a parameter: a function from a request to
      the settled response. *)

From Stdlib Require Import ZArith Ascii String List Bool Lia Permutation Sorted.
From stdpp Require Import base decidable option list sets gmap strings pretty.

Import ListNotations.
Local Open Scope string_scope.
Local Open Scope list_scope.
Local Open Scope Z_scope.

(** ** Characters and strings *)

Definition chr (n : nat) : ascii := ascii_of_nat n.
Definition dq : string := String (chr 34) EmptyString.
Definition sq : string := String (chr 39) EmptyString.
Definition nl : string := String (chr 10) EmptyString.
Definition cr : string := String (chr 13) EmptyString.
Definition tab : string := String (chr 9) EmptyString.

Definition code (a : ascii) : nat := nat_of_ascii a.

Definition is_digit (a : ascii) : bool :=
  (48 <=? code a)%nat && (code a <=? 57)%nat.
Definition is_upper (a : ascii) : bool :=
  (65 <=? code a)%nat && (code a <=? 90)%nat.
Definition is_lower (a : ascii) : bool :=
  (97 <=? code a)%nat && (code a <=? 122)%nat.
(** [\s] restricted to ASCII: tab, LF, VT, FF, CR, space. *)
Definition is_space (a : ascii) : bool :=
  ((9 <=? code a)%nat && (code a <=? 13)%nat) || (code a =? 32)%nat.
(** [\w] *)
Definition is_word (a : ascii) : bool :=
  is_digit a || is_upper a || is_lower a || (code a =? 95)%nat.

Definition to_lower (a : ascii) : ascii :=
  if is_upper a then chr (code a + 32) else a.

Definition ascii_eqb_ci (a b : ascii) : bool :=
  Ascii.eqb (to_lower a) (to_lower b).

Fixpoint join (sep : string) (l : list string) : string :=
  match l with
  | [] => EmptyString
  | [x] => x
  | x :: l' => x +:+ sep +:+ join sep l'
  end.

(** ** Regular expressions *)

Inductive regex : Type :=
| Eps
| Chr (p : ascii -> bool)
| Seq (r1 r2 : regex)
| Alt (r1 r2 : regex)
| Star (greedy : bool) (r : regex)
| Group (n : nat) (r : regex)
| NotAhead (r : regex)
| WordB
| Bol
| Eol.

Definition caps := list (nat * string).

Fixpoint cap (n : nat) (c : caps) : string :=
  match c with
  | [] => EmptyString
  | (m, s) :: c' => if (n =? m)%nat then s else cap n c'
  end.

Definition at_word_boundary (prev : option ascii) (s : string) : bool :=
  let a := match prev with Some p => is_word p | None => false end in
  let b := match s with String x _ => is_word x | EmptyString => false end in
  xorb a b.

(** The matcher, in continuation-passing style: [k] is what remains to
    be matched after [r]; backtracking is the [None] branch of every
    choice.  [prev] is the character before the current position (for
    [\b] and [^]).  An iteration of a quantifier that consumes nothing
    is rejected, as in ECMAScript, so [length s] iterations suffice.
    Captures are kept newest first; a capture made inside a lookahead is
    dropped.  (ECMAScript also clears the groups of a quantified
    subpattern at each iteration; no pattern of this program has a group
    that can be skipped in a later iteration.) *)
Fixpoint rmatch (r : regex) {R : Type} (prev : option ascii) (s : string)
    (c : caps) (k : option ascii -> string -> caps -> option R) : option R :=
  match r with
  | Eps => k prev s c
  | Chr p =>
      match s with
      | String a s' => if p a then k (Some a) s' c else None
      | EmptyString => None
      end
  | Seq r1 r2 =>
      rmatch r1 prev s c (fun prev' s' c' => rmatch r2 prev' s' c' k)
  | Alt r1 r2 =>
      match rmatch r1 prev s c k with
      | Some x => Some x
      | None => rmatch r2 prev s c k
      end
  | Star greedy r' =>
      (fix loop (n : nat) (prev : option ascii) (s : string) (c : caps)
         : option R :=
         let more :=
           match n with
           | O => None
           | S n' =>
               rmatch r' prev s c (fun prev' s' c' =>
                 if (String.length s' <? String.length s)%nat
                 then loop n' prev' s' c' else None)
           end in
         if greedy then
           match more with Some x => Some x | None => k prev s c end
         else
           match k prev s c with Some x => Some x | None => more end)
        (String.length s) prev s c
  | Group n r' =>
      rmatch r' prev s c (fun prev' s' c' =>
        k prev' s'
          ((n, substring 0 (String.length s - String.length s') s) :: c'))
  | NotAhead r' =>
      match rmatch r' prev s c (fun _ _ _ => Some tt) with
      | Some _ => None
      | None => k prev s c
      end
  | WordB => if at_word_boundary prev s then k prev s c else None
  | Bol => match prev with None => k prev s c | Some _ => None end
  | Eol => match s with EmptyString => k prev s c | _ => None end
  end.

(** Pattern constructors. *)
Fixpoint lit (s : string) : regex :=
  match s with
  | EmptyString => Eps
  | String a EmptyString => Chr (Ascii.eqb a)
  | String a s' => Seq (Chr (Ascii.eqb a)) (lit s')
  end.

(** A literal under the [i] flag. *)
Fixpoint liti (s : string) : regex :=
  match s with
  | EmptyString => Eps
  | String a EmptyString => Chr (ascii_eqb_ci a)
  | String a s' => Seq (Chr (ascii_eqb_ci a)) (liti s')
  end.

Fixpoint seqs (l : list regex) : regex :=
  match l with
  | [] => Eps
  | [r] => r
  | r :: l' => Seq r (seqs l')
  end.

Fixpoint alts (l : list regex) : regex :=
  match l with
  | [] => NotAhead Eps
  | [r] => r
  | r :: l' => Alt r (alts l')
  end.

Definition star (r : regex) : regex := Star true r.
Definition lazy_star (r : regex) : regex := Star false r.
Definition plus (r : regex) : regex := Seq r (Star true r).
Definition opt (r : regex) : regex := Alt r Eps.
Fixpoint rep (n : nat) (r : regex) : regex :=
  match n with
  | O => Eps
  | S O => r
  | S n' => Seq r (rep n' r)
  end.
(** [r{n,}] *)
Definition at_least (n : nat) (r : regex) : regex :=
  match n with
  | O => star r
  | _ => Seq (rep n r) (star r)
  end.

Definition any : regex := Chr (fun _ => true).           (* [\s\S] *)
Definition ws : regex := Chr is_space.                   (* \s *)
Definition digit : regex := Chr is_digit.                (* \d *)
Definition not_chr (x : string) : regex :=               (* [^x] *)
  Chr (fun a =>
    match x with String b _ => negb (Ascii.eqb a b) | EmptyString => true end).
Definition not_gt : regex := not_chr ">".                (* [^>] *)

(** The result of one successful match attempt at a position. *)
Record rx_hit : Type := Hit {
  hit_caps : caps;            (* $1, $2, ... *)
  hit_prev : option ascii;    (* last character consumed *)
  hit_rest : string           (* input after the match *)
}.

Definition match_here (r : regex) (prev : option ascii) (s : string)
  : option rx_hit :=
  rmatch r prev s [] (fun p s' c => Some (Hit c p s')).

Definition matched_text (s : string) (h : rx_hit) : string :=
  substring 0 (String.length s - String.length (hit_rest h)) s.

(** [String.prototype.replace] with a global pattern.  [f] receives the
    captures and the matched text.  After an empty match the scan copies
    one character and moves on, as [lastIndex] does. *)
Fixpoint replace_loop (n : nat) (r : regex) (f : caps -> string -> string)
    (prev : option ascii) (s : string) : string :=
  match n with
  | O => s
  | S n' =>
      match match_here r prev s with
      | Some h =>
          if (String.length (hit_rest h) <? String.length s)%nat then
            f (hit_caps h) (matched_text s h)
              +:+ replace_loop n' r f (hit_prev h) (hit_rest h)
          else
            match s with
            | EmptyString => f (hit_caps h) EmptyString
            | String a t =>
                f (hit_caps h) EmptyString
                  +:+ String a (replace_loop n' r f (Some a) t)
            end
      | None =>
          match s with
          | EmptyString => EmptyString
          | String a t => String a (replace_loop n' r f (Some a) t)
          end
      end
  end.

Definition replace_all (r : regex) (f : caps -> string -> string)
    (s : string) : string :=
  replace_loop (S (String.length s)) r f None s.

(** [replace] with a pattern that has no [g] flag: the leftmost match
    only. *)
Fixpoint replace_first_from (r : regex) (f : caps -> string -> string)
    (prev : option ascii) (s : string) : string :=
  match match_here r prev s with
  | Some h => f (hit_caps h) (matched_text s h) +:+ hit_rest h
  | None =>
      match s with
      | EmptyString => EmptyString
      | String a t => String a (replace_first_from r f (Some a) t)
      end
  end.

Definition replace_first (r : regex) (f : caps -> string -> string)
    (s : string) : string :=
  replace_first_from r f None s.

(** [RegExp.prototype.test] and the first match of [String.prototype.match]. *)
Fixpoint search_from (r : regex) (prev : option ascii) (s : string)
  : option (string * rx_hit) :=
  match match_here r prev s with
  | Some h => Some (s, h)
  | None =>
      match s with
      | EmptyString => None
      | String a t => search_from r (Some a) t
      end
  end.

Definition rx_test (r : regex) (s : string) : bool :=
  match search_from r None s with Some _ => true | None => false end.

Definition rx_match (r : regex) (s : string) : option caps :=
  match search_from r None s with
  | Some (_, h) => Some (hit_caps h)
  | None => None
  end.

(** Replacement templates. *)
Definition to (t : string) : caps -> string -> string := fun _ _ => t.

(** ** The reply formatter *)

Definition re_pre : regex :=
  seqs [liti "<pre"; star not_gt; lit ">";
        opt (seqs [star ws; liti "<code"; star not_gt; lit ">"]);
        Group 1 (lazy_star any);
        opt (seqs [liti "</code>"; star ws]);
        liti "</pre>"].

Definition re_bare_code : regex :=
  seqs [liti "<code";
        NotAhead (seqs [star not_gt; WordB; liti "class"; WordB]);
        Group 1 (star not_gt); lit ">"].

Definition re_p_open : regex := seqs [liti "<p"; star not_gt; lit ">"].
Definition re_p_close : regex := liti "</p>".

Definition re_br_before (names : list string) (g : nat) : regex :=
  seqs [plus (Group 1 (liti "<br>")); star ws;
        Group 2 (seqs [lit "<"; Group g (alts (map liti names));
                       star not_gt; lit ">"])].

Definition re_br_before_blockquote : regex :=
  seqs [plus (Group 1 (liti "<br>")); star ws;
        Group 2 (seqs [liti "<blockquote"; star not_gt; lit ">"])].

Definition re_after_block : regex :=
  seqs [Group 1 (seqs [liti "</";
                       Group 2 (alts (map liti ["ul"; "ol"; "blockquote"; "div"]));
                       lit ">"]);
        star ws; star (Group 3 (liti "<br>"))].

Definition re_trailing_br : regex := seqs [plus (Group 1 (liti "<br>")); Eol].

Definition formatReplyHtml (html : string) (compact : bool) : string :=
  let result := html in
  let result :=
    replace_all re_pre
      (fun c _ => "<div>" +:+ replace_all (lit nl) (to "<br>") (cap 1 c)
                   +:+ "</div>") result in
  let result :=
    replace_all re_bare_code
      (fun c _ => "<code class=" +:+ dq +:+ "inline-code" +:+ dq
                   +:+ cap 1 c +:+ ">") result in
  let result := replace_all re_p_open (to EmptyString) result in
  let result := replace_all re_p_close (to "<br><br>") result in
  let result :=
    replace_all (re_br_before ["ul"; "ol"; "div"] 3)
      (fun c _ => cap 2 c) result in
  let result :=
    if compact then
      let result :=
        replace_all re_br_before_blockquote (fun c _ => cap 2 c) result in
      replace_all re_after_block (fun c _ => cap 1 c) result
    else
      let result :=
        replace_all re_br_before_blockquote
          (fun c _ => "<br><br>" +:+ cap 2 c) result in
      replace_all re_after_block (fun c _ => cap 1 c +:+ "<br>") result in
  replace_first re_trailing_br (to EmptyString) result.


(** ** Errors, settled promises, thrown exceptions *)

(** The [code] enumeration of [ErrorSchema] (schema/types.ts). *)
Inductive ErrorCode : Type :=
| INVALID_INPUT | NOT_FOUND | UNAUTHORIZED | RATE_LIMIT | UPSTREAM_ERROR.

Definition code_name (c : ErrorCode) : string :=
  match c with
  | INVALID_INPUT => "INVALID_INPUT"
  | NOT_FOUND => "NOT_FOUND"
  | UNAUTHORIZED => "UNAUTHORIZED"
  | RATE_LIMIT => "RATE_LIMIT"
  | UPSTREAM_ERROR => "UPSTREAM_ERROR"
  end.

(** A rejection reason or thrown value: either an object of the
    [ApiError] shape ([code], [message]) or anything else (a plain
    [Error], a Zod error, ...), of which only the message is kept. *)
Inductive Reason : Type :=
| ApiError (code : ErrorCode) (message : string)
| OtherError (message : string).

(** Modelled from the spec: utils/mcp-errors.ts is not among the sources;
    [isApiError] is the type guard that recognises the [ApiError] shape of
    the error taxonomy (spec section 7, [ErrorSchema]). *)
Definition isApiError (r : Reason) : bool :=
  match r with ApiError _ _ => true | OtherError _ => false end.

Definition reason_message (r : Reason) : string :=
  match r with ApiError _ m => m | OtherError m => m end.

(** What a promise settles to; also the result of a function that may
    throw ([Fulfilled] is a normal return, [Rejected] a [throw]). *)
Inductive Settled (A : Type) : Type :=
| Fulfilled (value : A)
| Rejected (reason : Reason).
Arguments Fulfilled {A} value.
Arguments Rejected {A} reason.

(** Sequencing: [await]ing a promise, or running a statement that may
    throw, and continuing with its value. *)
Definition and_then {A B} (m : Settled A) (f : A -> Settled B) : Settled B :=
  match m with
  | Fulfilled x => f x
  | Rejected e => Rejected e
  end.

Notation "'await' x ':=' m 'in' k" := (and_then m (fun x => k))
  (at level 10, x pattern, m at level 100, k at level 200).

(** ** Dates *)

(** [new Date(s).getTime()]: the milliseconds since the epoch, or [None]
    for an Invalid Date (NaN).  The parser is a parameter of the model;
    [iso_getTime] below is one instance. *)
Class JsDate : Type := Date_getTime : string -> option Z.

(** [x < y] on numbers, false when either side is NaN. *)
Definition num_lt (x y : option Z) : bool :=
  match x, y with
  | Some a, Some b => a <? b
  | _, _ => false
  end.

(** [x - y] on numbers. *)
Definition num_sub (x y : option Z) : option Z :=
  match x, y with
  | Some a, Some b => Some (a - b)
  | _, _ => None
  end.

(** ** Array.prototype.sort *)

(** The comparison the sort performs: a NaN from the comparator counts
    as [+0]. *)
Definition SortCompare {A} (comparefn : A -> A -> option Z) (x y : A) : Z :=
  match comparefn x y with Some v => v | None => 0 end.

Fixpoint sort_insert {A} (comparefn : A -> A -> option Z) (x : A)
    (l : list A) : list A :=
  match l with
  | [] => [x]
  | y :: l' =>
      if SortCompare comparefn x y <=? 0 then x :: y :: l'
      else y :: sort_insert comparefn x l'
  end.

(** The sort is stable (ECMAScript 2019); for a comparator that is a
    consistent ordering the result is the one every stable sort gives.
    With an inconsistent comparator (NaN keys) the order is
    implementation-defined; the model then still returns a permutation. *)
Definition Array_sort {A} (comparefn : A -> A -> option Z) (l : list A)
  : list A :=
  fold_right (sort_insert comparefn) [] l.

(** [Array.prototype.slice(0, n)] for an integer [n >= 0]. *)
Definition slice0 {A} (n : Z) (l : list A) : list A := firstn (Z.to_nat n) l.

Definition len {A} (l : list A) : Z := Z.of_nat (length l).

(** ** Records of the upstream API *)

Inductive Status : Type := active | pending | closed | spam.

#[global] Instance Status_eq_dec : EqDecision Status.
Proof. solve_decision. Defined.

Definition status_name (s : Status) : string :=
  match s with
  | active => "active" | pending => "pending"
  | closed => "closed" | spam => "spam"
  end.

(** A conversation as the API returns it.  [conv_extra] stands for the
    parts [slimConversation] drops ([_links], [_embedded], source
    metadata, ...). *)
Record Conversation : Type := {
  conv_id : Z;
  conv_number : Z;
  conv_subject : string;
  conv_status : string;
  conv_preview : string;
  conv_mailboxId : Z;
  conv_createdAt : string;
  conv_closedAt : option string;
  conv_extra : string
}.

(** The projection [slimConversation] keeps (the person and tag
    projections of the source are field copies as well and are left out). *)
Record SlimConversation : Type := {
  slim_id : Z;
  slim_number : Z;
  slim_subject : string;
  slim_status : string;
  slim_preview : string;
  slim_mailboxId : Z;
  slim_createdAt : string;
  slim_closedAt : option string
}.

Definition slimConversation (conv : Conversation) : SlimConversation :=
  {| slim_id := conv_id conv;
     slim_number := conv_number conv;
     slim_subject := conv_subject conv;
     slim_status := conv_status conv;
     slim_preview := conv_preview conv;
     slim_mailboxId := conv_mailboxId conv;
     slim_createdAt := conv_createdAt conv;
     slim_closedAt := conv_closedAt conv |}.

(** An element of a [results] / [conversations] array of a tool result. *)
Inductive ConvOut : Type :=
| Verbose (c : Conversation)
| Slim (s : SlimConversation).

Definition out_id (o : ConvOut) : Z :=
  match o with Verbose c => conv_id c | Slim s => slim_id s end.
Definition out_createdAt (o : ConvOut) : string :=
  match o with Verbose c => conv_createdAt c | Slim s => slim_createdAt s end.

(** [verbose ? conversations : conversations.map(c => slimConversation(c))] *)
Definition render (verbose : bool) (conversations : list Conversation)
  : list ConvOut :=
  if verbose then map Verbose conversations
  else map (fun c => Slim (slimConversation c)) conversations.

(** A page of a paginated response: [_embedded.<items>], [page.totalElements]
    and whether [_links.next] is present. *)
Record Page (A : Type) : Type := {
  page_items : option (list A);
  page_totalElements : option Z;
  page_next : bool
}.
Arguments page_items {A} _.
Arguments page_totalElements {A} _.
Arguments page_next {A} _.

(** The query parameters of [GET /conversations]. *)
Record ConvParams : Type := {
  p_page : Z;
  p_size : Z;
  p_sortField : string;
  p_sortOrder : string;
  p_query : option string;
  p_mailbox : option string;
  p_tag : option string;
  p_status : option string
}.

Definition with_page (p : ConvParams) (n : Z) : ConvParams :=
  {| p_page := n; p_size := p_size p; p_sortField := p_sortField p;
     p_sortOrder := p_sortOrder p; p_query := p_query p;
     p_mailbox := p_mailbox p; p_tag := p_tag p; p_status := p_status p |}.

Definition with_status (p : ConvParams) (s : string) : ConvParams :=
  {| p_page := p_page p; p_size := p_size p; p_sortField := p_sortField p;
     p_sortOrder := p_sortOrder p; p_query := p_query p;
     p_mailbox := p_mailbox p; p_tag := p_tag p; p_status := Some s |}.

(** [helpScoutClient.get('/conversations', params)]. *)
Definition ConvApi : Type := ConvParams -> Settled (Page Conversation).

(** ** Auto-pagination *)

(** [x || d] for a number that may be undefined. *)
Definition num_or (x : option Z) (d : Z) : Z :=
  match x with
  | Some v => if v =? 0 then d else v
  | None => d
  end.

(** [Math.ceil(n / 25)] for an integer [n]. *)
Definition ceil_div25 (n : Z) : Z := - ((- n) / 25).

(** The [while] loop of [fetchConversationPages].  [left] counts the
    pages [currentPage .. effectiveMaxPages] that may still be fetched,
    so [left = 0] is [currentPage > effectiveMaxPages]. *)
Fixpoint fetch_pages_loop {A} (get : Z -> Settled (Page A)) (desiredCount : Z)
    (left : nat) (items : list A) (totalElements : Z) (currentPage : Z)
    (hasMore : bool) : Settled (list A * Z) :=
  match left with
  | O => Fulfilled (items, totalElements)
  | S left' =>
      if (len items <? desiredCount) && hasMore then
        match get currentPage with
        | Rejected e => Rejected e
        | Fulfilled response =>
            fetch_pages_loop get desiredCount left'
              (items ++ default [] (page_items response))
              (num_or (page_totalElements response) totalElements)
              (currentPage + 1)
              (page_next response)
        end
      else Fulfilled (items, totalElements)
  end.

Definition fetchConversationPages (api : ConvApi) (params : ConvParams)
    (desiredCount : Z) (maxPages : option Z)
  : Settled (list Conversation * Z) :=
  let effectiveMaxPages := num_or maxPages (ceil_div25 desiredCount + 1) in
  fetch_pages_loop (fun page => api (with_page params page)) desiredCount
    (Z.to_nat effectiveMaxPages) [] 0 1 true.

(** ** Truthiness *)

(** A string that may be undefined, used as a condition: undefined and
    the empty string are falsy. *)
Definition truthy (o : option string) : bool :=
  match o with
  | Some s => negb (String.eqb s EmptyString)
  | None => false
  end.

(** [a || b] on strings that may be undefined. *)
Definition str_or (a b : option string) : option string :=
  if truthy a then a else b.

(** [xs?.length] used as a condition. *)
Definition nonempty {A} (o : option (list A)) : bool :=
  match o with
  | Some (_ :: _) => true
  | _ => false
  end.

(** ** Building the query string *)

Definition backslash : string := String (chr 92) EmptyString.

Definition escapeQueryTerm (term : string) : string :=
  replace_all (lit dq) (to (backslash +:+ dq))
    (replace_all (lit backslash) (to (backslash +:+ backslash)) term).

(** [/^\d{4}-\d{2}-\d{2}(T[\d:.]+Z?)?$/] *)
Definition isoDatePattern : regex :=
  seqs [Bol; rep 4 digit; lit "-"; rep 2 digit; lit "-"; rep 2 digit;
        opt (Group 1
               (seqs [lit "T";
                      plus (Chr (fun a => is_digit a || Ascii.eqb a ":"
                                          || Ascii.eqb a "."));
                      opt (lit "Z")]));
        Eol].

(** [/\.\d{3}Z$/] *)
Definition re_millis : regex := seqs [lit "."; rep 3 digit; lit "Z"; Eol].

(** [d.replace(/\.\d{3}Z$/, 'Z')] *)
Definition normalize (d : string) : string := replace_first re_millis (to "Z") d.

Definition appendCreatedAtFilter (existingQuery createdAfter createdBefore
    : option string) : Settled (option string) :=
  if negb (truthy createdAfter) && negb (truthy createdBefore) then
    Fulfilled existingQuery
  else if truthy createdAfter
          && negb (rx_test isoDatePattern (default EmptyString createdAfter))
  then
    Rejected (OtherError
      ("Invalid createdAfter date format: " +:+ default EmptyString createdAfter
       +:+ ". Expected ISO 8601 (e.g., 2024-01-15T00:00:00Z)"))
  else if truthy createdBefore
          && negb (rx_test isoDatePattern (default EmptyString createdBefore))
  then
    Rejected (OtherError
      ("Invalid createdBefore date format: "
       +:+ default EmptyString createdBefore
       +:+ ". Expected ISO 8601 (e.g., 2024-01-15T00:00:00Z)"))
  else
    let start :=
      if truthy createdAfter then normalize (default EmptyString createdAfter)
      else "*" in
    let end_ :=
      if truthy createdBefore then normalize (default EmptyString createdBefore)
      else "*" in
    let clause := "(createdAt:[" +:+ start +:+ " TO " +:+ end_ +:+ "])" in
    if negb (truthy existingQuery) then Fulfilled (Some clause)
    else
      Fulfilled
        (Some ("(" +:+ default EmptyString existingQuery +:+ ") AND "
               +:+ clause)).

(** [TOOL_CONSTANTS.SEARCH_LOCATIONS] *)
Inductive SearchLocation : Type := BODY | SUBJECT | BOTH.

Definition location_eqb (a b : SearchLocation) : bool :=
  match a, b with
  | BODY, BODY | SUBJECT, SUBJECT | BOTH, BOTH => true
  | _, _ => false
  end.

(** [searchIn.includes(x)] *)
Definition includes (searchIn : list SearchLocation) (x : SearchLocation)
  : bool :=
  existsb (location_eqb x) searchIn.

(** The clauses pushed to [termQueries] for one term. *)
Definition termQueries (searchIn : list SearchLocation) (term : string)
  : list string :=
  let escapedTerm := escapeQueryTerm term in
  (if includes searchIn BODY || includes searchIn BOTH
   then ["body:" +:+ dq +:+ escapedTerm +:+ dq] else [])
  ++ (if includes searchIn SUBJECT || includes searchIn BOTH
      then ["subject:" +:+ dq +:+ escapedTerm +:+ dq] else []).

Definition buildSearchQuery (terms : list string)
    (searchIn : list SearchLocation) : string :=
  let queries :=
    flat_map (fun term =>
      match termQueries searchIn term with
      | [] => []
      | tq => ["(" +:+ join " OR " tq +:+ ")"]
      end) terms in
  join " OR " queries.

(** *** [Date.prototype.toISOString] *)

Definition digit_chr (n : Z) : ascii := chr (48 + Z.to_nat (n mod 10)).

Definition pad2 (n : Z) : string :=
  String (digit_chr (n / 10)) (String (digit_chr n) EmptyString).
Definition pad3 (n : Z) : string :=
  String (digit_chr (n / 100)) (pad2 n).
Definition pad4 (n : Z) : string :=
  String (digit_chr (n / 1000)) (pad3 n).

(** The proleptic Gregorian date (year, month, day) of a day number
    counted from 1970-01-01. *)
Definition civil_from_days (days : Z) : Z * Z * Z :=
  let z := days + 719468 in
  let era := z / 146097 in
  let doe := z - era * 146097 in
  let yoe := (doe - doe / 1460 + doe / 36524 - doe / 146096) / 365 in
  let doy := doe - (365 * yoe + yoe / 4 - yoe / 100) in
  let mp := (5 * doy + 2) / 153 in
  let d := doy - (153 * mp + 2) / 5 + 1 in
  let m := if mp <? 10 then mp + 3 else mp - 9 in
  let y := yoe + era * 400 + (if m <=? 2 then 1 else 0) in
  (y, m, d).

(** The date and time part [YYYY-MM-DDTHH:mm:ss] of the ISO form of a
    time value (years 0000 to 9999). *)
Definition iso_seconds (t : Z) : string :=
  let days := t / 86400000 in
  let ms := t mod 86400000 in
  let '(y, m, d) := civil_from_days days in
  pad4 y +:+ "-" +:+ pad2 m +:+ "-" +:+ pad2 d +:+ "T"
  +:+ pad2 (ms / 3600000) +:+ ":" +:+ pad2 (ms / 60000 mod 60) +:+ ":"
  +:+ pad2 (ms / 1000 mod 60).

Definition toISOString (t : Z) : string :=
  iso_seconds t +:+ "." +:+ pad3 (t mod 1000) +:+ "Z".

(** The clock: the time value of [new Date()] after
    [setDate(getDate() - days)] (local-time arithmetic, hence a parameter). *)
Class Clock : Type := daysAgo : Z -> Z.

Definition calculateTimeRange `{Clock} (timeframeDays : Z) : string :=
  replace_first re_millis (to "Z") (toISOString (daysAgo timeframeDays)).

(** ** The client-side createdBefore filter *)

Record FilterResult : Type := {
  filtered : list Conversation;
  wasFiltered : bool;
  removedCount : Z
}.

Definition applyCreatedBeforeFilter `{JsDate}
    (conversations : list Conversation) (createdBefore : string)
  : Settled FilterResult :=
  match Date_getTime createdBefore with
  | None =>
      Rejected (OtherError
        ("Invalid createdBefore date format: " +:+ createdBefore
         +:+ ". Expected ISO 8601 format (e.g., 2023-01-15T00:00:00Z)"))
  | Some beforeDate =>
      let originalCount := len conversations in
      let filtered :=
        List.filter
          (fun conv => num_lt (Date_getTime (conv_createdAt conv))
                              (Some beforeDate))
          conversations in
      let removedCount := originalCount - len filtered in
      Fulfilled {| filtered := filtered;
                   wasFiltered := 0 <? removedCount;
                   removedCount := removedCount |}
  end.

(** An entry of [pagination.errors]. *)
Record FailedStatus : Type := {
  failed_status : Status;
  failed_message : string;
  failed_code : string
}.

(** The [pagination] object of a result.  Every field the program reads
    or writes on such an object is listed; an absent field is [None] (and
    is dropped by [JSON.stringify]). *)
Record Pagination : Type := {
  returned : option Z;
  totalResults : option Z;
  totalAvailable : option Z;
  totalElements : option Z;
  errors : option (list FailedStatus);
  note : option string
}.

Definition show_num (x : option Z) : string :=
  match x with Some v => pretty v | None => "undefined" end.

Definition buildFilteredPagination (filteredCount : Z)
    (apiPage : option Pagination) (wasFiltered : bool) : option Pagination :=
  if negb wasFiltered then apiPage
  else
    let apiTotal := apiPage ≫= totalElements in
    Some {| returned := None;
            totalResults := Some filteredCount;
            totalAvailable := apiTotal;
            totalElements := None;
            errors := None;
            note := Some
              ("Results filtered client-side by createdBefore. "
               +:+ "totalResults shows filtered count ("
               +:+ pretty filteredCount
               +:+ "), totalAvailable shows pre-filter API total ("
               +:+ show_num apiTotal +:+ ").") |}.

(** ** Configuration *)

Record Config : Type := {
  defaultInboxId : option string;
  compactReplies : bool;        (* replySpacing === 'compact' *)
  allowSendReply : bool;
  allowPii : bool;
  verboseResponses : bool
}.

(** [process.env.X === 'true'] *)
Definition env_is_true (getenv : string -> option string) (x : string)
  : bool :=
  match getenv x with
  | Some v => String.eqb v "true"
  | None => false
  end.

(** The [config] object of utils/config.ts, for the fields used here. *)
Definition config_of_env (getenv : string -> option string) : Config :=
  {| defaultInboxId := getenv "HELPSCOUT_DEFAULT_INBOX_ID";
     compactReplies :=
       match getenv "HELPSCOUT_REPLY_SPACING" with
       | Some v => String.eqb v "compact"
       | None => false
       end;
     allowSendReply := env_is_true getenv "HELPSCOUT_ALLOW_SEND_REPLY";
     allowPii := negb (env_is_true getenv "REDACT_MESSAGE_CONTENT");
     verboseResponses := env_is_true getenv "HELPSCOUT_VERBOSE_RESPONSES" |}.

(** [TOOL_CONSTANTS.DEFAULT_PAGE_SIZE] *)
Definition DEFAULT_PAGE_SIZE : Z := 50.

(** ** searchConversations *)

(** The input after [SearchConversationsInputSchema.parse] (defaults
    filled in).  [in_limit] is an integer here. *)
Record SearchInput : Type := {
  in_query : option string;
  in_inboxId : option string;
  in_tag : option string;
  in_status : option Status;
  in_statuses : option (list Status);
  in_createdAfter : option string;
  in_createdBefore : option string;
  in_limit : Z;
  in_sort : string;
  in_order : string;
  in_searchTerms : option (list string);
  in_searchIn : list SearchLocation;
  in_timeframeDays : Z;
  in_contentTerms : option (list string);
  in_subjectTerms : option (list string);
  in_customerEmail : option string;
  in_emailDomain : option string;
  in_tags : option (list string);
  in_includeTranscripts : bool;
  in_transcriptMaxMessages : Z
}.

(** [input.limit || TOOL_CONSTANTS.DEFAULT_PAGE_SIZE] *)
Definition limit_or_default (input : SearchInput) : Z :=
  num_or (Some (in_limit input)) DEFAULT_PAGE_SIZE.

(** [input.statuses?.length ? input.statuses : ['active','pending','closed']] *)
Definition statuses_or_default (input : SearchInput) : list Status :=
  if nonempty (in_statuses input) then default [] (in_statuses input)
  else [active; pending; closed].

(** The comparator of the merged results: newest first. *)
Definition newest_first `{JsDate} (a b : Conversation) : option Z :=
  num_sub (Date_getTime (conv_createdAt b)) (Date_getTime (conv_createdAt a)).

(** The [seenIds] loop over the conversations of one fulfilled status. *)
Fixpoint push_unseen (seenIds : gset Z) (conversations : list Conversation)
    (batch : list Conversation) : gset Z * list Conversation :=
  match batch with
  | [] => (seenIds, conversations)
  | conv :: rest =>
      if decide (conv_id conv ∈ seenIds) then
        push_unseen seenIds conversations rest
      else
        push_unseen (seenIds ∪ {[conv_id conv]}) (conversations ++ [conv]) rest
  end.

(** *** Keyword mode *)

(** What [searchSingleStatus] resolves to. *)
Record StatusResult : Type := {
  sr_status : Status;
  sr_totalCount : Z;
  sr_conversations : list ConvOut
}.

(** The [queryParams] object of [searchSingleStatus]. *)
Definition keyword_queryParams (status : Status) (searchQuery : string)
    (queryWithDate : option string) (limitPerStatus : Z)
    (inboxId : option string) : ConvParams :=
  {| p_page := 0;   (* set by the page loop *)
     p_size := limitPerStatus;
     p_sortField := "createdAt";
     p_sortOrder := "desc";
     p_query := Some (default searchQuery (str_or queryWithDate None));
     p_mailbox := if truthy inboxId then inboxId else None;
     p_tag := None;
     p_status := Some (status_name status) |}.

Definition searchSingleStatus `{JsDate} (api : ConvApi) (status : Status)
    (searchQuery createdAfter : string) (limitPerStatus : Z)
    (inboxId createdBefore : option string) (verbose : bool)
  : Settled StatusResult :=
  await queryWithDate :=
    appendCreatedAtFilter (Some searchQuery) (Some createdAfter) None in
  let queryParams :=
    keyword_queryParams status searchQuery queryWithDate limitPerStatus
      inboxId in
  await (fetched, apiTotalElements) :=
    fetchConversationPages api queryParams limitPerStatus None in
  await (conversations, filteredByDate) :=
    (if truthy createdBefore then
       await result :=
         applyCreatedBeforeFilter fetched (default EmptyString createdBefore) in
       Fulfilled (filtered result, wasFiltered result)
     else Fulfilled (fetched, false)) in
  let conversations :=
    if limitPerStatus <? len conversations
    then slice0 limitPerStatus conversations else conversations in
  Fulfilled {| sr_status := status;
               sr_totalCount :=
                 if filteredByDate then len conversations
                 else apiTotalElements;
               sr_conversations := render verbose conversations |}.

(** The loop over [settled.entries()]: a fulfilled branch contributes
    its value, an ordinary API failure an empty entry, anything else is
    re-thrown. *)
Fixpoint collect_keyword (settled : list (Status * Settled StatusResult))
    (allResults : list StatusResult) : Settled (list StatusResult) :=
  match settled with
  | [] => Fulfilled allResults
  | (status, result) :: rest =>
      match result with
      | Fulfilled value => collect_keyword rest (allResults ++ [value])
      | Rejected error =>
          match error with
          | OtherError _ => Rejected error
          | ApiError UNAUTHORIZED _ => Rejected error
          | ApiError INVALID_INPUT _ => Rejected error
          | ApiError _ _ =>
              collect_keyword rest
                (allResults ++ [{| sr_status := status;
                                   sr_totalCount := 0;
                                   sr_conversations := [] |}])
          end
      end
  end.

(** An element of [resultsByStatus]. *)
Record StatusGroup (E : Type) : Type := {
  group_status : Status;
  group_count : Z;
  group_totalAvailable : Z;
  group_conversations : list E
}.
Arguments group_status {E} _.
Arguments group_count {E} _.
Arguments group_totalAvailable {E} _.
Arguments group_conversations {E} _.

Record KeywordResult (E : Type) : Type := {
  kw_query : string;
  kw_totalConversationsFound : Z;
  kw_totalAvailable : Z;
  kw_resultsByStatus : list (StatusGroup E)
}.
Arguments kw_query {E} _.
Arguments kw_totalConversationsFound {E} _.
Arguments kw_totalAvailable {E} _.
Arguments kw_resultsByStatus {E} _.

Definition sumZ (l : list Z) : Z := fold_left Z.add l 0.

(** Promise.allSettled over [statuses.map(f)]: every branch runs and is
    paired with the status it was started for. *)
Definition allSettled {A B} (f : A -> Settled B) (l : list A)
  : list (A * Settled B) :=
  map (fun a => (a, f a)) l.

Definition searchConversationsKeyword `{JsDate} `{Clock} (config : Config)
    (api : ConvApi) (input : SearchInput) (verbose : bool)
  : Settled (KeywordResult ConvOut) :=
  let createdAfter :=
    if truthy (in_createdAfter input)
    then default EmptyString (in_createdAfter input)
    else calculateTimeRange (in_timeframeDays input) in
  let searchQuery :=
    buildSearchQuery (default [] (in_searchTerms input)) (in_searchIn input) in
  let effectiveInboxId := str_or (in_inboxId input) (defaultInboxId config) in
  let statuses := statuses_or_default input in
  let limitPerStatus := limit_or_default input in
  let settled :=
    allSettled (fun status =>
      searchSingleStatus api status searchQuery createdAfter limitPerStatus
        effectiveInboxId (in_createdBefore input) verbose) statuses in
  await allResults := collect_keyword settled [] in
  Fulfilled
       {| kw_query := searchQuery;
          kw_totalConversationsFound :=
            sumZ (map (fun r => len (sr_conversations r)) allResults);
          kw_totalAvailable := sumZ (map sr_totalCount allResults);
          kw_resultsByStatus :=
            map (fun r =>
                   {| group_status := sr_status r;
                      group_count := len (sr_conversations r);
                      group_totalAvailable := sr_totalCount r;
                      group_conversations := sr_conversations r |})
                allResults |}.

(** *** Structured mode *)

Record StructuredResult (E : Type) : Type := {
  st_results : list E;
  st_query : option string;
  st_returned : Z;                         (* pagination.returned *)
  st_statuses : option (list Status);
  st_clientSideFiltering : bool            (* present (true) or absent *)
}.
Arguments st_results {E} _.
Arguments st_query {E} _.
Arguments st_returned {E} _.
Arguments st_statuses {E} _.
Arguments st_clientSideFiltering {E} _.

Definition field_group (field : string) (terms : option (list string))
  : list string :=
  if nonempty terms then
    ["(" +:+ join " OR "
              (map (fun term =>
                      field +:+ ":" +:+ dq +:+ escapeQueryTerm term +:+ dq)
                   (default [] terms))
     +:+ ")"]
  else [].

Definition queryParts (input : SearchInput) : list string :=
  field_group "body" (in_contentTerms input)
  ++ field_group "subject" (in_subjectTerms input)
  ++ (if truthy (in_customerEmail input) then
        ["email:" +:+ dq
         +:+ escapeQueryTerm (default EmptyString (in_customerEmail input))
         +:+ dq]
      else [])
  ++ (if truthy (in_emailDomain input) then
        let domain :=
          replace_first (lit "@") (to EmptyString)
            (default EmptyString (in_emailDomain input)) in
        ["email:" +:+ dq +:+ escapeQueryTerm domain +:+ dq]
      else [])
  ++ field_group "tag" (in_tags input).

(** The loop over the settled branches in structured mode: rejected
    branches are skipped. *)
Fixpoint merge_fulfilled (results : list (Status * Settled (list Conversation * Z)))
    (seenIds : gset Z) (conversations : list Conversation)
  : list Conversation :=
  match results with
  | [] => conversations
  | (_, Fulfilled value) :: rest =>
      let '(seen', convs') := push_unseen seenIds conversations (fst value) in
      merge_fulfilled rest seen' convs'
  | (_, Rejected _) :: rest => merge_fulfilled rest seenIds conversations
  end.

(** The [queryParams] object of structured mode, before [status] is
    added. *)
Definition structured_queryParams (effectiveLimit : Z)
    (queryString queryWithDate effectiveInboxId : option string)
  : ConvParams :=
  {| p_page := 0;
     p_size := effectiveLimit;
     p_sortField := "createdAt";
     p_sortOrder := "desc";
     p_query :=
       if truthy queryWithDate then queryWithDate
       else if truthy queryString then queryString else None;
     p_mailbox := if truthy effectiveInboxId then effectiveInboxId else None;
     p_tag := None;
     p_status := None |}.

Definition searchConversationsStructured `{JsDate} (config : Config)
    (api : ConvApi) (input : SearchInput) (verbose : bool)
  : Settled (StructuredResult ConvOut) :=
  let queryParts := queryParts input in
  let queryString :=
    match queryParts with [] => None | _ => Some (join " AND " queryParts) end in
  let effectiveLimit := limit_or_default input in
  let effectiveInboxId := str_or (in_inboxId input) (defaultInboxId config) in
  await queryWithDate :=
    appendCreatedAtFilter (if truthy queryString then queryString else None)
      (in_createdAfter input) None in
  let queryParams :=
    structured_queryParams effectiveLimit queryString queryWithDate
      effectiveInboxId in
  let statuses :=
    if nonempty (in_statuses input) then in_statuses input else None in
  await conversations :=
    match statuses with
    | Some statuses =>
        let results :=
          allSettled (fun status =>
            fetchConversationPages api
              (with_status queryParams (status_name status))
              effectiveLimit None) statuses in
        Fulfilled (Array_sort newest_first (merge_fulfilled results ∅ []))
    | None =>
        await (fetched, _) :=
          fetchConversationPages api
            (with_status queryParams
               (match in_status input with
                | Some s => status_name s
                | None => "all"
                end))
            effectiveLimit None in
        Fulfilled fetched
    end in
  await (conversations, clientSideFiltered) :=
    (if truthy (in_createdBefore input) then
       await result :=
         applyCreatedBeforeFilter conversations
           (default EmptyString (in_createdBefore input)) in
       Fulfilled (filtered result, wasFiltered result)
     else Fulfilled (conversations, false)) in
  let conversations :=
    if effectiveLimit <? len conversations
    then slice0 effectiveLimit conversations else conversations in
  Fulfilled {| st_results := render verbose conversations;
               st_query := queryString;
               st_returned := len conversations;
               st_statuses := statuses;
               st_clientSideFiltering := clientSideFiltered |}.

(** *** Listing mode *)

Record ListResult (E : Type) : Type := {
  li_results : list E;
  li_pagination : option Pagination;
  li_query : option string;
  li_statuses : list Status;
  li_clientSideFiltering : bool            (* present (true) or absent *)
}.
Arguments li_results {E} _.
Arguments li_pagination {E} _.
Arguments li_query {E} _.
Arguments li_statuses {E} _.
Arguments li_clientSideFiltering {E} _.

(** The state of the loop over [results.entries()] in listing mode. *)
Record MergeState : Type := {
  ms_seenIds : gset Z;
  ms_conversations : list Conversation;
  ms_failedStatuses : list FailedStatus;
  ms_totalAvailable : Z
}.

Definition merge_start : MergeState :=
  {| ms_seenIds := ∅; ms_conversations := [];
     ms_failedStatuses := []; ms_totalAvailable := 0 |}.

Fixpoint merge_statuses (results : list (Status * Settled (list Conversation * Z)))
    (st : MergeState) : Settled MergeState :=
  match results with
  | [] => Fulfilled st
  | (failedStatus, result) :: rest =>
      match result with
      | Fulfilled value =>
          let '(seen', convs') :=
            push_unseen (ms_seenIds st) (ms_conversations st) (fst value) in
          merge_statuses rest
            {| ms_seenIds := seen';
               ms_conversations := convs';
               ms_failedStatuses := ms_failedStatuses st;
               ms_totalAvailable := ms_totalAvailable st + snd value |}
      | Rejected reason =>
          let errorMessage := reason_message reason in
          let errorCode :=
            match reason with
            | ApiError c _ => code_name c
            | OtherError _ => "UNKNOWN"
            end in
          if negb (isApiError reason) then Rejected reason
          else if String.eqb errorCode "UNAUTHORIZED"
                  || String.eqb errorCode "INVALID_INPUT"
          then Rejected reason
          else
            merge_statuses rest
              {| ms_seenIds := ms_seenIds st;
                 ms_conversations := ms_conversations st;
                 ms_failedStatuses :=
                   ms_failedStatuses st
                   ++ [{| failed_status := failedStatus;
                          failed_message := errorMessage;
                          failed_code := errorCode |}];
                 ms_totalAvailable := ms_totalAvailable st |}
      end
  end.

(** [statuses.filter(s => !failedStatuses.some(f => f.status === s))] *)
Definition without_failed (statuses : list Status)
    (failedStatuses : list FailedStatus) : list Status :=
  List.filter
    (fun s => negb (existsb (fun f => bool_decide (failed_status f = s))
                            failedStatuses))
    statuses.

(** The last part of [searchConversationsList]: the client-side
    createdBefore filter and the construction of the result. *)
Definition list_createdBefore `{JsDate} (input : SearchInput) (verbose : bool)
    (conversations : list Conversation) (searchedStatuses : list Status)
    (pagination : Pagination) : Settled (ListResult ConvOut) :=
  let originalPagination := pagination in
  await (conversations, clientSideFiltered, pagination) :=
    (if truthy (in_createdBefore input) then
       await filterResult :=
         applyCreatedBeforeFilter conversations
           (default EmptyString (in_createdBefore input)) in
       let conversations := filtered filterResult in
       let clientSideFiltered := wasFiltered filterResult in
       if clientSideFiltered then
         match in_status input with
         | Some _ =>
             Fulfilled
               (conversations, clientSideFiltered,
                buildFilteredPagination (len conversations)
                  (Some originalPagination) true)
         | None =>
             let merged := originalPagination in
             Fulfilled
               (conversations, clientSideFiltered,
                Some {| returned := None;
                        totalResults := Some (len conversations);
                        totalAvailable := totalAvailable merged;
                        totalElements := None;
                        errors := errors merged;
                        note := Some
                          ("Client-side createdBefore filter applied to "
                           +:+ "merged results. "
                           +:+ default EmptyString
                                 (str_or (note merged) None)) |})
         end
       else Fulfilled (conversations, clientSideFiltered, Some pagination)
     else Fulfilled (conversations, false, Some pagination)) in
  Fulfilled
    {| li_results := render verbose conversations;
       li_pagination := pagination;
       li_query := if truthy (in_query input) then in_query input else None;
       li_statuses := searchedStatuses;
       li_clientSideFiltering := clientSideFiltered |}.

(** The [baseParams] object of listing mode. *)
Definition list_baseParams (input : SearchInput)
    (queryWithDate effectiveInboxId : option string) : ConvParams :=
  {| p_page := 1;
     p_size := in_limit input;
     p_sortField := in_sort input;
     p_sortOrder := in_order input;
     p_query :=
       if truthy queryWithDate then queryWithDate
       else if truthy (in_query input) then in_query input else None;
     p_mailbox := if truthy effectiveInboxId then effectiveInboxId else None;
     p_tag := if truthy (in_tag input) then in_tag input else None;
     p_status := None |}.

Definition searchConversationsList `{JsDate} (config : Config)
    (api : ConvApi) (input : SearchInput) (verbose : bool)
  : Settled (ListResult ConvOut) :=
  let effectiveInboxId := str_or (in_inboxId input) (defaultInboxId config) in
  await queryWithDate :=
    appendCreatedAtFilter
      (if truthy (in_query input) then in_query input else None)
      (in_createdAfter input) None in
  let baseParams := list_baseParams input queryWithDate effectiveInboxId in
  let effectiveLimit := limit_or_default input in
  await (conversations, searchedStatuses, pagination) :=
    match in_status input, in_statuses input with
    | Some status, None =>
        (* single status: auto-paginate *)
        await (fetched, totalElements) :=
          fetchConversationPages api
            (with_status baseParams (status_name status)) effectiveLimit None in
        let conversations := slice0 effectiveLimit fetched in
        Fulfilled
          (conversations, [status],
           {| returned := Some (len conversations);
              totalResults := None;
              totalAvailable := Some totalElements;
              totalElements := None;
              errors := None;
              note := None |})
    | _, _ =>
        (* several statuses: auto-paginate each one *)
        let statuses := statuses_or_default input in
        let results :=
          allSettled (fun status =>
            fetchConversationPages api
              (with_status baseParams (status_name status))
              effectiveLimit None) statuses in
        await st := merge_statuses results merge_start in
        let failedStatuses := ms_failedStatuses st in
        let searchedStatuses :=
          match failedStatuses with
          | [] => statuses
          | _ => without_failed statuses failedStatuses
          end in
        let conversations :=
          Array_sort newest_first (ms_conversations st) in
        let conversations :=
          if effectiveLimit <? len conversations
          then slice0 effectiveLimit conversations else conversations in
        Fulfilled
          (conversations, searchedStatuses,
           {| returned := Some (len conversations);
              totalResults := None;
              totalAvailable := Some (ms_totalAvailable st);
              totalElements := None;
              errors :=
                match failedStatuses with
                | [] => None
                | _ => Some failedStatuses
                end;
              note := None |})
    end in
  list_createdBefore input verbose conversations searchedStatuses pagination.

(** ** Threads and transcripts *)

Record Person : Type := {
  person_id : Z;
  person_type : option string;
  person_first : option string;
  person_firstName : option string;
  person_last : option string;
  person_lastName : option string;
  person_email : option string
}.

(** A thread as the API returns it ([type] and [state] are read
    untyped by the program, so any string may occur). *)
Record Thread : Type := {
  thread_id : Z;
  thread_type : string;
  thread_state : option string;
  thread_status : option string;
  thread_body : option string;
  thread_createdAt : string;
  thread_customer : option Person;
  thread_createdBy : option Person;
  thread_attachments : option nat      (* attachments?.length *)
}.

(** [GET /conversations/{id}/threads] with [page] and [size]. *)
Definition ThreadApi : Type := string -> Z -> Z -> Settled (Page Thread).

Definition fetchThreadPages (api : ThreadApi) (conversationId : string)
    (desiredCount : Z) : Settled (list Thread * Z) :=
  let maxPages := ceil_div25 desiredCount + 1 in
  fetch_pages_loop (fun page => api conversationId page desiredCount)
    desiredCount (Z.to_nat maxPages) [] 0 1 true.

(** *** String helpers *)

Fixpoint trim_start (s : string) : string :=
  match s with
  | String a s' => if is_space a then trim_start s' else s
  | EmptyString => EmptyString
  end.

Fixpoint trim_end (s : string) : string :=
  match s with
  | String a s' =>
      match trim_end s' with
      | EmptyString => if is_space a then EmptyString else String a EmptyString
      | t => String a t
      end
  | EmptyString => EmptyString
  end.

Definition trim (s : string) : string := trim_end (trim_start s).

(** [s.split('\n')] *)
Fixpoint split_lines (s : string) : list string :=
  match s with
  | EmptyString => [EmptyString]
  | String a s' =>
      if Ascii.eqb a (chr 10) then EmptyString :: split_lines s'
      else
        match split_lines s' with
        | l :: ls => String a l :: ls
        | [] => [String a EmptyString]
        end
  end.

(** All matches of a global pattern, as the [exec] loop visits them. *)
Fixpoint exec_loop (n : nat) (r : regex) (prev : option ascii) (s : string)
  : list caps :=
  match n with
  | O => []
  | S n' =>
      match match_here r prev s with
      | Some h =>
          if (String.length (hit_rest h) <? String.length s)%nat then
            hit_caps h :: exec_loop n' r (hit_prev h) (hit_rest h)
          else
            match s with
            | EmptyString => [hit_caps h]
            | String a t => hit_caps h :: exec_loop n' r (Some a) t
            end
      | None =>
          match s with
          | EmptyString => []
          | String a t => exec_loop n' r (Some a) t
          end
      end
  end.

Definition exec_all (r : regex) (s : string) : list caps :=
  exec_loop (S (String.length s)) r None s.

(** *** Beacon forms *)

Definition re_beacon : regex :=
  lit ("bgcolor=" +:+ dq +:+ "#EAEAEA" +:+ dq).

Definition re_ticket_link : regex :=
  seqs [liti "<a"; plus ws; liti ("href=" +:+ dq);
        Group 1 (plus (not_chr dq)); lit dq; star not_gt; lit ">";
        liti "View Full Ticket</a>"].

Definition re_hidden_span : regex :=
  seqs [liti ("<span style=" +:+ dq +:+ "display: none" +:+ dq +:+ ">");
        Group 1 (lazy_star any); liti "</span>"].

Definition re_answer : regex :=
  seqs [liti "<tr"; plus ws; liti ("bgcolor=" +:+ dq +:+ "#FFFFFF" +:+ dq);
        star not_gt; lit ">"; lazy_star any; liti "<td"; lazy_star any;
        liti "<font"; star not_gt; lit ">"; Group 1 (lazy_star any);
        liti "</font>"; lazy_star any; liti "</tr>"].

Definition source_suffix (sourceUrl : string) : string :=
  "<br>" +:+ nl +:+ "<br>" +:+ nl +:+ "Source: " +:+ sourceUrl.

Definition is_empty (s : string) : bool := String.eqb s EmptyString.

Definition cleanBeaconForm (html : string) : string :=
  if negb (rx_test re_beacon html) then html
  else
    let sourceUrl :=
      match rx_match re_ticket_link html with
      | Some c => replace_all (liti "&amp;") (to "&") (cap 1 c)
      | None => EmptyString
      end in
    let hidden :=
      match rx_match re_hidden_span html with
      | Some c => if is_empty (trim (cap 1 c)) then None else Some (cap 1 c)
      | None => None
      end in
    match hidden with
    | Some cleaned =>
        if is_empty sourceUrl then cleaned
        else cleaned +:+ source_suffix sourceUrl
    | None =>
        let answers :=
          List.filter
            (fun text => negb (is_empty text) && negb (String.eqb text "&nbsp;"))
            (map (fun c => trim (cap 1 c)) (exec_all re_answer html)) in
        let message := List.last answers EmptyString in
        let message :=
          if is_empty sourceUrl then message
          else message +:+ source_suffix sourceUrl in
        if is_empty message then html else message
    end.

(** *** stripHtml *)

Definition stripHtml (html : string) : string :=
  let s := replace_all (seqs [liti "<br"; star ws; opt (lit "/"); lit ">"])
             (to nl) html in
  let s := replace_all (liti "</p>") (to nl) s in
  let s := replace_all (liti "</div>") (to nl) s in
  let s := replace_all (seqs [lit "<"; plus not_gt; lit ">"])
             (to EmptyString) s in
  let s := replace_all (liti "&nbsp;") (to " ") s in
  let s := replace_all (liti "&amp;") (to "&") s in
  let s := replace_all (liti "&lt;") (to "<") s in
  let s := replace_all (liti "&gt;") (to ">") s in
  let s := replace_all (liti "&quot;") (to dq) s in
  let s := replace_all (liti "&#39;") (to sq) s in
  let s := replace_all (lit (cr +:+ nl)) (to nl) s in
  let s := replace_all (lit cr) (to nl) s in
  let s := replace_all (lit tab) (to " ") s in
  let s := replace_all (at_least 2 (lit " ")) (to " ") s in
  let s := replace_all (at_least 3 (lit nl)) (to (nl +:+ nl)) s in
  trim (join nl (map trim (split_lines s))).

(** *** buildTranscript *)

Record Message : Type := {
  msg_role : string;
  msg_from : string;
  msg_date : string;
  msg_body : string;
  msg_attachments : option nat
}.

Definition REDACTED : string :=
  "[Content hidden - set REDACT_MESSAGE_CONTENT=false to view]".

(** The predicate of the [filter] call: customer and staff messages that
    are not drafts. *)
Definition is_dialogue (t : Thread) : bool :=
  if negb (String.eqb (thread_type t) "customer")
     && negb (String.eqb (thread_type t) "message") then false
  else if bool_decide (thread_state t = Some "draft") then false
  else true.

Definition oldest_first `{JsDate} (a b : Thread) : option Z :=
  num_sub (Date_getTime (thread_createdAt a))
          (Date_getTime (thread_createdAt b)).

Definition person_name (person : Person) : string :=
  trim (default EmptyString
          (str_or (person_first person) (str_or (person_firstName person) None))
        +:+ " "
        +:+ default EmptyString
              (str_or (person_last person) (str_or (person_lastName person) None))).

(** The body of one transcript message. *)
Definition transcript_body (config : Config) (t : Thread) : string :=
  let rawBody := default EmptyString (str_or (thread_body t) None) in
  if allowPii config then stripHtml (cleanBeaconForm rawBody) else REDACTED.

Definition to_message (config : Config) (t : Thread) : Message :=
  let isCustomer := String.eqb (thread_type t) "customer" in
  let person := if isCustomer then thread_customer t else thread_createdBy t in
  let name :=
    match person with
    | Some person => person_name person
    | None => if isCustomer then "Customer" else "Staff"
    end in
  {| msg_role := if isCustomer then "customer" else "staff";
     msg_from := name;
     msg_date := thread_createdAt t;
     msg_body := transcript_body config t;
     msg_attachments :=
       match thread_attachments t with
       | Some (S n) => Some (S n)
       | _ => None
       end |}.

Definition buildTranscript `{JsDate} (config : Config) (threads : list Thread)
    (maxMessages : Z) : list Message :=
  let dialogueThreads := List.filter is_dialogue threads in
  let dialogueThreads := Array_sort oldest_first dialogueThreads in
  let limited := slice0 maxMessages dialogueThreads in
  map (to_message config) limited.

(** *** Transcript enrichment *)

(** A conversation of a search result after enrichment: the fields of
    the conversation plus [transcript] (null on failure) and, on
    failure, [transcriptError]. *)
Record Entry : Type := {
  entry_conv : ConvOut;
  entry_transcript : option (list Message);
  entry_transcriptError : option string
}.

(** One branch of the [Promise.allSettled] of [attachTranscripts]. *)
Definition transcript_branch `{JsDate} (config : Config) (api : ThreadApi)
    (maxMessages : Z) (conv : ConvOut) : Settled Entry :=
  let id := pretty (out_id conv) in
  await (threads, _) := fetchThreadPages api id maxMessages in
  let transcript := buildTranscript config threads maxMessages in
  Fulfilled {| entry_conv := conv;
               entry_transcript := Some transcript;
               entry_transcriptError := None |}.

Definition attachTranscripts `{JsDate} (config : Config) (api : ThreadApi)
    (conversations : list ConvOut) (maxMessages : Z) : list Entry :=
  let results := allSettled (transcript_branch config api maxMessages)
                   conversations in
  map (fun '(conv, result) =>
         match result with
         | Fulfilled value => value
         | Rejected _ =>
             {| entry_conv := conv;
                entry_transcript := None;
                entry_transcriptError := Some "Failed to fetch" |}
         end) results.

(** The payload of a [searchConversations] result. *)
Inductive SearchResult (E : Type) : Type :=
| KeywordOut (r : KeywordResult E)
| StructuredOut (r : StructuredResult E)
| ListOut (r : ListResult E).
Arguments KeywordOut {E} r.
Arguments StructuredOut {E} r.
Arguments ListOut {E} r.

Definition enrichWithTranscripts `{JsDate} (config : Config) (api : ThreadApi)
    (result : SearchResult ConvOut) (maxMessages : Z) : SearchResult Entry :=
  match result with
  | KeywordOut r =>
      KeywordOut
        {| kw_query := kw_query r;
           kw_totalConversationsFound := kw_totalConversationsFound r;
           kw_totalAvailable := kw_totalAvailable r;
           kw_resultsByStatus :=
             map (fun statusGroup =>
                    {| group_status := group_status statusGroup;
                       group_count := group_count statusGroup;
                       group_totalAvailable := group_totalAvailable statusGroup;
                       group_conversations :=
                         attachTranscripts config api
                           (group_conversations statusGroup) maxMessages |})
                 (kw_resultsByStatus r) |}
  | StructuredOut r =>
      StructuredOut
        {| st_results := attachTranscripts config api (st_results r) maxMessages;
           st_query := st_query r;
           st_returned := st_returned r;
           st_statuses := st_statuses r;
           st_clientSideFiltering := st_clientSideFiltering r |}
  | ListOut r =>
      ListOut
        {| li_results := attachTranscripts config api (li_results r) maxMessages;
           li_pagination := li_pagination r;
           li_query := li_query r;
           li_statuses := li_statuses r;
           li_clientSideFiltering := li_clientSideFiltering r |}
  end.

(** What [searchConversations] returns: the plain result, or the
    enriched one with [includeTranscripts: true] and
    [transcriptMaxMessages]. *)
Inductive SearchOutput : Type :=
| Plain (r : SearchResult ConvOut)
| Enriched (r : SearchResult Entry) (transcriptMaxMessages : Z).

Definition with_limit (input : SearchInput) (n : Z) : SearchInput :=
  {| in_query := in_query input; in_inboxId := in_inboxId input;
     in_tag := in_tag input; in_status := in_status input;
     in_statuses := in_statuses input;
     in_createdAfter := in_createdAfter input;
     in_createdBefore := in_createdBefore input;
     in_limit := n;
     in_sort := in_sort input; in_order := in_order input;
     in_searchTerms := in_searchTerms input;
     in_searchIn := in_searchIn input;
     in_timeframeDays := in_timeframeDays input;
     in_contentTerms := in_contentTerms input;
     in_subjectTerms := in_subjectTerms input;
     in_customerEmail := in_customerEmail input;
     in_emailDomain := in_emailDomain input;
     in_tags := in_tags input;
     in_includeTranscripts := in_includeTranscripts input;
     in_transcriptMaxMessages := in_transcriptMaxMessages input |}.

(** [args_limit] is the [limit] of the raw arguments (before the schema
    default); [verbose] is [isVerbose(args)]. *)
Definition searchConversations `{JsDate} `{Clock} (config : Config)
    (api : ConvApi) (threads : ThreadApi) (input : SearchInput)
    (args_limit : option Z) (verbose : bool) : Settled SearchOutput :=
  let input :=
    if in_includeTranscripts input && (num_or args_limit 0 =? 0)
    then with_limit input 10 else input in
  await result :=
    if nonempty (in_searchTerms input) then
      await r := searchConversationsKeyword config api input verbose in
      Fulfilled (KeywordOut r)
    else if nonempty (in_contentTerms input)
            || nonempty (in_subjectTerms input)
            || truthy (in_customerEmail input)
            || truthy (in_emailDomain input)
            || nonempty (in_tags input) then
      await r := searchConversationsStructured config api input verbose in
      Fulfilled (StructuredOut r)
    else
      await r := searchConversationsList config api input verbose in
      Fulfilled (ListOut r) in
  if in_includeTranscripts input then
    Fulfilled
      (Enriched (enrichWithTranscripts config threads result
                   (in_transcriptMaxMessages input))
                (in_transcriptMaxMessages input))
  else Fulfilled (Plain result).

(** ** getThreads and getConversationSummary *)

Record SlimPerson : Type := {
  sp_id : Z;
  sp_type : option string;
  sp_first : option string;
  sp_last : option string;
  sp_email : option string
}.

Definition slim_person (with_type : bool) (p : Person) : SlimPerson :=
  {| sp_id := person_id p;
     sp_type := if with_type then person_type p else None;
     sp_first := str_or (person_first p) (person_firstName p);
     sp_last := str_or (person_last p) (person_lastName p);
     sp_email := person_email p |}.

Record SlimThread : Type := {
  sth_id : Z;
  sth_type : string;
  sth_status : option string;
  sth_body : option string;
  sth_createdBy : option SlimPerson;
  sth_customer : option SlimPerson;
  sth_createdAt : string;
  sth_attachments : option nat
}.

Definition with_body (t : Thread) (body : option string) : Thread :=
  {| thread_id := thread_id t; thread_type := thread_type t;
     thread_state := thread_state t; thread_status := thread_status t;
     thread_body := body; thread_createdAt := thread_createdAt t;
     thread_customer := thread_customer t;
     thread_createdBy := thread_createdBy t;
     thread_attachments := thread_attachments t |}.

Inductive ThreadsResult : Type :=
| TranscriptFormat (conversationId : string) (messages : list Message)
    (totalMessages totalThreads : Z)
| VerboseThreads (conversationId : string) (threads : list Thread)
    (returned total : Z)
| SlimThreads (conversationId : string) (threads : list SlimThread)
    (returned total : Z).

(** [transcript] is [input.format === 'transcript']. *)
Definition getThreads `{JsDate} (config : Config) (api : ThreadApi)
    (conversationId : string) (transcript : bool) (limit : Z) (verbose : bool)
  : Settled ThreadsResult :=
  await (allThreads, totalElements) :=
    fetchThreadPages api conversationId limit in
  let threads := slice0 limit allThreads in
  if transcript then
    let transcript := buildTranscript config threads (len threads) in
    Fulfilled (TranscriptFormat conversationId transcript (len transcript)
                 totalElements)
  else if verbose then
    let redactedThreads :=
      if allowPii config then threads
      else map (fun t => with_body t (Some REDACTED)) threads in
    Fulfilled (VerboseThreads conversationId redactedThreads (len threads)
                 totalElements)
  else
    let processedThreads :=
      map (fun thread =>
             {| sth_id := thread_id thread;
                sth_type := thread_type thread;
                sth_status := thread_status thread;
                sth_body :=
                  if allowPii config then thread_body thread
                  else Some REDACTED;
                sth_createdBy :=
                  option_map (slim_person true) (thread_createdBy thread);
                sth_customer :=
                  option_map (slim_person false) (thread_customer thread);
                sth_createdAt := thread_createdAt thread;
                sth_attachments :=
                  match thread_attachments thread with
                  | Some (S n) => Some (S n)
                  | _ => None
                  end |}) threads in
    Fulfilled (SlimThreads conversationId processedThreads (len threads)
                 totalElements).

(** [GET /conversations/{id}] *)
Definition ConvGet : Type := string -> Settled Conversation.

Record SummaryMessage : Type := {
  sm_id : Z;
  sm_body : option string;
  sm_createdAt : string;
  sm_person : option Person       (* customer, resp. createdBy *)
}.

Inductive SummaryResult : Type :=
| VerboseSummary (conversation : Conversation) (threads : list Thread)
| Summary (conversation : SlimConversation)
    (firstCustomerMessage latestStaffReply : option SummaryMessage).

Definition newest_thread_first `{JsDate} (a b : Thread) : option Z :=
  num_sub (Date_getTime (thread_createdAt b))
          (Date_getTime (thread_createdAt a)).

Definition getConversationSummary `{JsDate} (config : Config)
    (get : ConvGet) (api : ThreadApi) (conversationId : string)
    (verbose : bool) : Settled SummaryResult :=
  await conversation := get conversationId in
  await (threads, _) := fetchThreadPages api conversationId 200 in
  if verbose then Fulfilled (VerboseSummary conversation threads)
  else
    let customerThreads :=
      List.filter (fun t => String.eqb (thread_type t) "customer") threads in
    let staffThreads :=
      List.filter (fun t => String.eqb (thread_type t) "message"
                            && bool_decide (is_Some (thread_createdBy t)))
                  threads in
    let firstCustomerMessage :=
      head (Array_sort oldest_first customerThreads) in
    let latestStaffReply :=
      head (Array_sort newest_thread_first staffThreads) in
    let redact (t : Thread) : option string :=
      if allowPii config then thread_body t else Some REDACTED in
    Fulfilled
      (Summary (slimConversation conversation)
         (option_map (fun t =>
            {| sm_id := thread_id t; sm_body := redact t;
               sm_createdAt := thread_createdAt t;
               sm_person := thread_customer t |}) firstCustomerMessage)
         (option_map (fun t =>
            {| sm_id := thread_id t; sm_body := redact t;
               sm_createdAt := thread_createdAt t;
               sm_person := thread_createdBy t |}) latestStaffReply)).

(** ** createReply *)

(** The [customer] union of [CreateReplyInputSchema]. *)
Inductive ReplyCustomer : Type :=
| CustomerId (id : Z)
| CustomerEmail (email : string) (firstName lastName : option string).

(** The input after [CreateReplyInputSchema.parse]. *)
Record CreateReplyInput : Type := {
  reply_conversationId : string;
  reply_text : string;
  reply_customer : ReplyCustomer;
  reply_draft : bool;
  reply_user : option Z;
  reply_assignTo : option Z;
  reply_status : option string;
  reply_cc : option (list string);
  reply_bcc : option (list string)
}.

(** The JSON body of [POST /conversations/{id}/reply]. *)
Record ReplyBody : Type := {
  body_text : string;
  body_customer : ReplyCustomer;
  body_draft : bool;
  body_user : option Z;
  body_assignTo : option Z;
  body_status : option string;
  body_cc : option (list string);
  body_bcc : option (list string)
}.

(** A request handed to the HTTP client. *)
Record NetRequest : Type := {
  req_path : string;
  req_body : ReplyBody
}.

(** [helpScoutClient.postWithResponse]: the [resource-id] header of the
    response, or a rejection. *)
Definition PostApi : Type := string -> ReplyBody -> Settled (option string).

Inductive ReplyResult : Type :=
| ReplyRefused (error message suggestion : string)
| ReplyCreated (conversationId : string) (threadId : option string)
    (draft : bool) (message : string).

(** The result, together with the requests issued to the network, in
    order. *)
Definition createReply (config : Config) (post : PostApi)
    (input : CreateReplyInput) : list NetRequest * Settled ReplyResult :=
  let isDraft := reply_draft input in
  if negb isDraft && negb (allowSendReply config) then
    ([], Fulfilled
      (ReplyRefused "Published replies are disabled"
         ("Sending non-draft replies requires HELPSCOUT_ALLOW_SEND_REPLY=true "
          +:+ "in the environment. This is a safety measure to prevent "
          +:+ "accidental sends. Draft replies are always allowed.")
         ("Either set draft=true (default) to create a draft, or set the "
          +:+ "HELPSCOUT_ALLOW_SEND_REPLY=true environment variable to "
          +:+ "enable sending.")))
  else
    let text := formatReplyHtml (reply_text input) (compactReplies config) in
    let requestBody :=
      {| body_text := text;
         body_customer := reply_customer input;
         body_draft := isDraft;
         body_user := reply_user input;
         body_assignTo := reply_assignTo input;
         body_status := reply_status input;
         body_cc := reply_cc input;
         body_bcc := reply_bcc input |} in
    let path := "/conversations/" +:+ reply_conversationId input +:+ "/reply" in
    ([{| req_path := path; req_body := requestBody |}],
     await resourceId := post path requestBody in
     let threadId := str_or resourceId None in
     Fulfilled
       (ReplyCreated (reply_conversationId input) threadId isDraft
          (if isDraft
           then "Draft reply created successfully. It can be reviewed and "
                +:+ "sent from Help Scout."
           else "Reply sent successfully."))).

(** ** The dispatcher *)

(** JSON values (tool arguments and result payloads). *)
#[local] Unset Elimination Schemes.
Inductive Json : Type :=
| JNull
| JBool (b : bool)
| JNum (n : Z)
| JStr (s : string)
| JArr (l : list Json)
| JObj (fields : list (string * Json)).
#[local] Set Elimination Schemes.

Fixpoint field (k : string) (fields : list (string * Json)) : option Json :=
  match fields with
  | [] => None
  | (k', v) :: rest => if String.eqb k k' then Some v else field k rest
  end.

Record ToolRequest : Type := {
  tool_name : string;
  tool_arguments : option Json
}.

Record ToolCallContext : Type := {
  ctx_toolName : string;
  ctx_arguments : Json;
  ctx_userQuery : option string;
  ctx_previousCalls : list string
}.

Record ValidationResult : Type := {
  isValid : bool;
  val_errors : list string;
  val_suggestions : list string;
  requiredPrerequisites : option (list string)
}.

(** The text content of a tool result, as the JSON value it serialises,
    and the [isError] flag. *)
Record ToolResult : Type := {
  content : Json;
  isError : bool
}.

(** The state of a [ToolHandler]. *)
Record HandlerState : Type := {
  callHistory : list string;
  currentUserQuery : option string
}.

Definition strs (l : list string) : Json := JArr (map JStr l).

(** The result returned when validation fails. *)
Definition validation_failed (validation : ValidationResult) : ToolResult :=
  let errorDetails :=
    JObj ([("errors", strs (val_errors validation));
           ("suggestions", strs (val_suggestions validation))]
          ++ match requiredPrerequisites validation with
             | Some l => [("requiredPrerequisites", strs l)]
             | None => []
             end) in
  {| content :=
       JObj [("error", JStr "API Constraint Validation Failed");
             ("details", errorDetails);
             ("helpScoutAPIRequirements",
              JObj [("message",
                     JStr "This call violates Help Scout API constraints");
                    ("requiredActions",
                     strs (default [] (requiredPrerequisites validation)));
                    ("suggestions", strs (val_suggestions validation))])];
     isError := false |}.

Section Dispatcher.

(** The collaborators of [callTool] that live outside this module:
    the constraint validator, the guidance generator, the error
    formatter, and the tool implementations behind the [try] block
    (each returns the requests it issued and its result). *)
Variable validateToolCall : ToolCallContext -> ValidationResult.
Variable generateToolGuidance :
  string -> Json -> ToolCallContext -> list string.
Variable createMcpToolError : Reason -> string -> ToolResult.
Variable runTool : ToolRequest -> list NetRequest * Settled ToolResult.

Definition callTool (st : HandlerState) (request : ToolRequest)
  : list NetRequest * ToolResult * HandlerState :=
  let validationContext :=
    {| ctx_toolName := tool_name request;
       ctx_arguments := default (JObj []) (tool_arguments request);
       ctx_userQuery := currentUserQuery st;
       ctx_previousCalls := callHistory st |} in
  let validation := validateToolCall validationContext in
  if negb (isValid validation) then
    ([], validation_failed validation, st)
  else
    let '(requests, outcome) := runTool request in
    match outcome with
    | Fulfilled result =>
        let st' :=
          {| callHistory := callHistory st ++ [tool_name request];
             currentUserQuery := currentUserQuery st |} in
        let guidance :=
          generateToolGuidance (tool_name request) (content result)
            validationContext in
        match guidance, content result with
        | [], _ => (requests, result, st')
        | _, JObj fields =>
            (requests,
             {| content := JObj (fields ++ [("apiGuidance", strs guidance)]);
                isError := isError result |},
             st')
        | _, JArr _ =>
            (* the property set on an array is dropped by JSON.stringify *)
            (requests, result, st')
        | _, _ =>
            (* setting a property on a primitive throws in strict mode *)
            (requests,
             createMcpToolError
               (OtherError "Cannot create property 'apiGuidance'")
               (tool_name request),
             st')
        end
    | Rejected error =>
        (requests, createMcpToolError error (tool_name request), st)
    end.

End Dispatcher.

(** Modelled from the spec: utils/api-constraints.ts is not among the
    sources.  The rule table of the constraint validator, restricted to
    the rules that the specification and the tests of this module name
    for conversation tools: a [conversationId] must match [^\d+$] (error
    "Invalid conversation ID format"), and [text] and [customer] are
    required for a reply.  The texts of the suggestions are not given
    there; the model carries none. *)
Definition re_numeric_id : regex := seqs [Bol; plus digit; Eol].

Definition id_checked_tools : list string :=
  ["getConversationSummary"; "createReply"].

Definition required (name : string) (args : list (string * Json))
  : list string :=
  match field name args with
  | Some _ => []
  | None => [name +:+ " is required"]
  end.

Definition spec_validateToolCall (ctx : ToolCallContext) : ValidationResult :=
  let args := match ctx_arguments ctx with JObj f => f | _ => [] end in
  let id_errors : list string :=
    if existsb (String.eqb (ctx_toolName ctx)) id_checked_tools then
      match field "conversationId" args with
      | Some (JStr id) =>
          if rx_test re_numeric_id id then []
          else ["Invalid conversation ID format"]
      | _ => []
      end
    else [] in
  let reply_errors : list string :=
    if String.eqb (ctx_toolName ctx) "createReply"
    then (required "text" args ++ required "customer" args)%list
    else [] in
  let errors := (id_errors ++ reply_errors)%list in
  {| isValid := match errors with [] => true | _ => false end;
     val_errors := errors;
     val_suggestions := [];
     requiredPrerequisites := None |}.

(** ** A date parser for the ISO forms the API uses *)

(** The value of a string of decimal digits. *)
Fixpoint digits_value (acc : Z) (s : string) : Z :=
  match s with
  | EmptyString => acc
  | String a s' => digits_value (10 * acc + Z.of_nat (code a) - 48) s'
  end.

Definition days_from_civil (y m d : Z) : Z :=
  let y' := if m <=? 2 then y - 1 else y in
  let era := y' / 400 in
  let yoe := y' - era * 400 in
  let doy := (153 * (if 2 <? m then m - 3 else m + 9) + 2) / 5 + d - 1 in
  let doe := yoe * 365 + yoe / 4 - yoe / 100 + doy in
  era * 146097 + doe - 719468.

(** [YYYY-MM-DD], optionally followed by [THH:mm:ss], an optional
    [.sss], and [Z]. *)
Definition re_iso_date : regex :=
  seqs [Bol; Group 1 (rep 4 digit); lit "-"; Group 2 (rep 2 digit); lit "-";
        Group 3 (rep 2 digit);
        opt (seqs [lit "T"; Group 4 (rep 2 digit); lit ":";
                   Group 5 (rep 2 digit); lit ":"; Group 6 (rep 2 digit);
                   opt (seqs [lit "."; Group 7 (rep 3 digit)]); lit "Z"]);
        Eol].

(** The time value of a date in one of these forms (UTC), [None] for
    any other string. *)
Definition iso_getTime : JsDate := fun s =>
  match rx_match re_iso_date s with
  | None => None
  | Some c =>
      let num n := digits_value 0 (cap n c) in
      if (1 <=? num 2%nat) && (num 2%nat <=? 12) && (1 <=? num 3%nat)
         && (num 3%nat <=? 31) && (num 4%nat <=? 23) && (num 5%nat <=? 59)
         && (num 6%nat <=? 59)
      then
        Some (days_from_civil (num 1%nat) (num 2%nat) (num 3%nat) * 86400000
              + num 4%nat * 3600000 + num 5%nat * 60000 + num 6%nat * 1000
              + num 7%nat)
      else None
  end.

(** A clock for the examples: 2024-03-01T12:00:00.250Z. *)
Definition example_clock : Clock := fun days => 1709294400250 - days * 86400000.

(** Occurrences of [needle] in [s] (overlapping ones included). *)
Fixpoint count_sub (needle s : string) : nat :=
  match s with
  | EmptyString => if is_empty needle then 1%nat else 0%nat
  | String _ s' =>
      ((if String.prefix needle s then 1 else 0) + count_sub needle s')%nat
  end.

(** ** Observations and examples used in the statements *)

Definition example_reply : CreateReplyInput :=
  {| reply_conversationId := "12345";
     reply_text := "<p>Sent reply</p>";
     reply_customer := CustomerId 789;
     reply_draft := false;
     reply_user := None; reply_assignTo := None; reply_status := None;
     reply_cc := None; reply_bcc := None |}.

(** The [details.errors] array of a tool result. *)
Definition result_errors (r : ToolResult) : list Json :=
  match content r with
  | JObj top =>
      match field "details" top with
      | Some (JObj details) =>
          match field "errors" details with
          | Some (JArr l) => l
          | _ => []
          end
      | _ => []
      end
  | _ => []
  end.

(** The [details.suggestions] array and the
    [helpScoutAPIRequirements.requiredActions] array of a tool result. *)
Definition result_suggestions (r : ToolResult) : list Json :=
  match content r with
  | JObj top =>
      match field "details" top with
      | Some (JObj details) =>
          match field "suggestions" details with
          | Some (JArr l) => l
          | _ => []
          end
      | _ => []
      end
  | _ => []
  end.

Definition result_requiredActions (r : ToolResult) : list Json :=
  match content r with
  | JObj top =>
      match field "helpScoutAPIRequirements" top with
      | Some (JObj requirements) =>
          match field "requiredActions" requirements with
          | Some (JArr l) => l
          | _ => []
          end
      | _ => []
      end
  | _ => []
  end.

Definition context_of (st : HandlerState) (request : ToolRequest)
  : ToolCallContext :=
  {| ctx_toolName := tool_name request;
     ctx_arguments := default (JObj []) (tool_arguments request);
     ctx_userQuery := currentUserQuery st;
     ctx_previousCalls := callHistory st |}.

Definition reply_request (conversationId : string) (text customer : Json)
  : ToolRequest :=
  {| tool_name := "createReply";
     tool_arguments :=
       Some (JObj [("conversationId", JStr conversationId);
                   ("text", text); ("customer", customer)]) |}.

(** A fake upstream that honours [_links.next]: it ignores [size],
    serves the records of the requested status in pages of [pageSize]
    and links to a next page exactly when records remain. *)
Definition serve_page {A} (pageSize : nat) (all : list A) (page : Z) : Page A :=
  let start := (Z.to_nat (page - 1) * pageSize)%nat in
  {| page_items := Some (firstn pageSize (skipn start all));
     page_totalElements := Some (len all);
     page_next := Z.of_nat (start + pageSize) <? len all |}.

Definition paged_upstream (pageSize : nat)
    (db : option string -> list Conversation) : ConvApi :=
  fun q => Fulfilled (serve_page pageSize (db (p_status q)) (p_page q)).

Definition example_conv (i : Z) (createdAt : string) : Conversation :=
  {| conv_id := i; conv_number := i; conv_subject := "subject";
     conv_status := "active"; conv_preview := "preview";
     conv_mailboxId := 1; conv_createdAt := createdAt;
     conv_closedAt := None; conv_extra := EmptyString |}.

Definition example_input : SearchInput :=
  {| in_query := None; in_inboxId := None; in_tag := None;
     in_status := None; in_statuses := None;
     in_createdAfter := None; in_createdBefore := None;
     in_limit := 50; in_sort := "createdAt"; in_order := "desc";
     in_searchTerms := None; in_searchIn := [BOTH]; in_timeframeDays := 60;
     in_contentTerms := None; in_subjectTerms := None;
     in_customerEmail := None; in_emailDomain := None; in_tags := None;
     in_includeTranscripts := false; in_transcriptMaxMessages := 10 |}.

Definition with_status_filter (input : SearchInput) (status : option Status)
    (statuses : option (list Status)) : SearchInput :=
  {| in_query := in_query input; in_inboxId := in_inboxId input;
     in_tag := in_tag input; in_status := status; in_statuses := statuses;
     in_createdAfter := in_createdAfter input;
     in_createdBefore := in_createdBefore input;
     in_limit := in_limit input;
     in_sort := in_sort input; in_order := in_order input;
     in_searchTerms := in_searchTerms input;
     in_searchIn := in_searchIn input;
     in_timeframeDays := in_timeframeDays input;
     in_contentTerms := in_contentTerms input;
     in_subjectTerms := in_subjectTerms input;
     in_customerEmail := in_customerEmail input;
     in_emailDomain := in_emailDomain input;
     in_tags := in_tags input;
     in_includeTranscripts := in_includeTranscripts input;
     in_transcriptMaxMessages := in_transcriptMaxMessages input |}.

(** Sixty conversations 1..60, all active. *)
Definition sixty_active (status : option string) : list Conversation :=
  if bool_decide (status = Some "active")
  then map (fun i => example_conv (Z.of_nat i) "2024-01-01T00:00:00Z")
           (seq 1 60)
  else [].

(** ** Vocabulary of the statements about the per-status joins *)

(** An error that aborts the whole call when a branch fails with it:
    anything that is not an API error, and the API errors
    [UNAUTHORIZED] and [INVALID_INPUT]. *)
Definition fatal (e : Reason) : bool :=
  match e with
  | OtherError _ => true
  | ApiError UNAUTHORIZED _ => true
  | ApiError INVALID_INPUT _ => true
  | ApiError _ _ => false
  end.

(** The first fatal rejection among settled branches, in branch order. *)
Fixpoint first_fatal {K A} (results : list (K * Settled A)) : option Reason :=
  match results with
  | [] => None
  | (_, Rejected e) :: rest => if fatal e then Some e else first_fatal rest
  | (_, Fulfilled _) :: rest => first_fatal rest
  end.

(** The values of the fulfilled branches, in branch order. *)
Fixpoint fulfilled_values {K A} (results : list (K * Settled A)) : list A :=
  match results with
  | [] => []
  | (_, Fulfilled v) :: rest => v :: fulfilled_values rest
  | (_, Rejected _) :: rest => fulfilled_values rest
  end.

(** The records of the fulfilled branches, concatenated in branch order. *)
Definition fulfilled_records {K}
    (results : list (K * Settled (list Conversation * Z)))
  : list Conversation :=
  flat_map fst (fulfilled_values results).

Definition failure_entry (status : Status) (e : Reason) : FailedStatus :=
  {| failed_status := status;
     failed_message := reason_message e;
     failed_code :=
       match e with ApiError c _ => code_name c | OtherError _ => "UNKNOWN" end |}.

(** The failure entries of the rejected branches, in branch order. *)
Fixpoint failures {A} (results : list (Status * Settled A))
  : list FailedStatus :=
  match results with
  | [] => []
  | (s, Rejected e) :: rest => failure_entry s e :: failures rest
  | (_, Fulfilled _) :: rest => failures rest
  end.

(** The first record of every id, in order: what the [seenIds] loop
    keeps of a sequence of records. *)
Definition dedup_by_id (l : list Conversation) : list Conversation :=
  snd (push_unseen ∅ [] l).

(** [a] was created no earlier than [b] (both dates parse). *)
Definition not_older `{JsDate} (a b : string) : Prop :=
  exists ta tb,
    Date_getTime a = Some ta /\ Date_getTime b = Some tb /\ tb <= ta.

(** The dates of all these records parse. *)
Definition all_dated `{JsDate} (l : list Conversation) : Prop :=
  List.Forall (fun c => is_Some (Date_getTime (conv_createdAt c))) l.

(** The time value of a date string (0 when it does not parse). *)
Definition time_of `{JsDate} (s : string) : Z := default 0 (Date_getTime s).

(** [createdAt] is strictly before the bound (both dates parse). *)
Definition created_before `{JsDate} (bound createdAt : string) : Prop :=
  exists t tb,
    Date_getTime createdAt = Some t /\ Date_getTime bound = Some tb /\ t < tb.

(** A comparator that orders by an integer key, and the order it
    produces. *)
Definition key_cmp {A} (key : A -> Z) (a b : A) : option Z :=
  Some (key a - key b).
Definition key_le {A} (key : A -> Z) (a b : A) : Prop := key a <= key b.

(** The records of a listing or structured result before [createdBefore]
    filtering: the records of the fulfilled branches, de-duplicated in
    branch order, newest first, cut at the limit. *)
Definition merged_newest_first `{JsDate} (limit : Z)
    (results : list (Status * Settled (list Conversation * Z)))
  : list Conversation :=
  firstn (Z.to_nat limit)
    (Array_sort newest_first (dedup_by_id (fulfilled_records results))).

(** The fetch of one status in listing mode, given the query that
    [appendCreatedAtFilter] produced, and all of them settled. *)
Definition list_fetch (config : Config) (api : ConvApi)
    (input : SearchInput) (queryWithDate : option string) (status : Status)
  : Settled (list Conversation * Z) :=
  fetchConversationPages api
    (with_status
       (list_baseParams input queryWithDate
          (str_or (in_inboxId input) (defaultInboxId config)))
       (status_name status))
    (limit_or_default input) None.

Definition list_fetches (config : Config) (api : ConvApi)
    (input : SearchInput) (queryWithDate : option string)
  : list (Status * Settled (list Conversation * Z)) :=
  allSettled (list_fetch config api input queryWithDate)
    (statuses_or_default input).

(** The query handed to [appendCreatedAtFilter] in listing mode. *)
Definition list_query (input : SearchInput) : option string :=
  if truthy (in_query input) then in_query input else None.

(** The branch of one status in keyword mode, and all of them settled. *)
Definition keyword_branch `{JsDate} `{Clock} (config : Config)
    (api : ConvApi) (input : SearchInput) (verbose : bool) (status : Status)
  : Settled StatusResult :=
  searchSingleStatus api status
    (buildSearchQuery (default [] (in_searchTerms input)) (in_searchIn input))
    (if truthy (in_createdAfter input)
     then default EmptyString (in_createdAfter input)
     else calculateTimeRange (in_timeframeDays input))
    (limit_or_default input)
    (str_or (in_inboxId input) (defaultInboxId config))
    (in_createdBefore input) verbose.

Definition keyword_branches `{JsDate} `{Clock} (config : Config)
    (api : ConvApi) (input : SearchInput) (verbose : bool)
  : list (Status * Settled StatusResult) :=
  allSettled (keyword_branch config api input verbose)
    (statuses_or_default input).

(** What a settled branch of keyword mode contributes to [allResults]
    when it is not fatal. *)
Definition keyword_entry (b : Status * Settled StatusResult) : StatusResult :=
  match b with
  | (_, Fulfilled value) => value
  | (status, Rejected _) =>
      {| sr_status := status; sr_totalCount := 0; sr_conversations := [] |}
  end.

Definition group_of (r : StatusResult) : StatusGroup ConvOut :=
  {| group_status := sr_status r;
     group_count := len (sr_conversations r);
     group_totalAvailable := sr_totalCount r;
     group_conversations := sr_conversations r |}.

(** All conversation ids of a keyword result, group after group. *)
Definition keyword_ids {E} (id : E -> Z) (r : KeywordResult E) : list Z :=
  flat_map (fun g => map id (group_conversations g)) (kw_resultsByStatus r).

(** One element of a rendered result. *)
Definition render_one (verbose : bool) (c : Conversation) : ConvOut :=
  if verbose then Verbose c else Slim (slimConversation c).

(** The entry [pagination.errors] holds for a failed status. *)
Definition api_failure (status : Status) (code : ErrorCode) (message : string)
  : FailedStatus :=
  {| failed_status := status;
     failed_message := message;
     failed_code := code_name code |}.

(** The group keyword mode reports for a status whose branch failed. *)
Definition empty_group (status : Status) : StatusGroup ConvOut :=
  {| group_status := status; group_count := 0; group_totalAvailable := 0;
     group_conversations := [] |}.

(** An upstream for the examples: [active] holds conversation 1,
    [pending] holds conversations 1 and 2, and every request for another
    status fails with a server error. *)
Definition one_page (l : list Conversation) : Settled (Page Conversation) :=
  Fulfilled {| page_items := Some l;
               page_totalElements := Some (len l);
               page_next := false |}.

Definition flaky_api : ConvApi := fun q =>
  if bool_decide (p_status q = Some "active") then
    one_page [example_conv 1 "2024-02-01T00:00:00Z"]
  else if bool_decide (p_status q = Some "pending") then
    one_page [example_conv 1 "2024-02-01T00:00:00Z";
              example_conv 2 "2024-03-01T00:00:00Z"]
  else Rejected (ApiError UPSTREAM_ERROR "Help Scout API server error").

(** The same upstream, except that the other statuses are empty instead
    of failing. *)
Definition quiet_api : ConvApi := fun q =>
  if bool_decide (p_status q = Some "active") then
    one_page [example_conv 1 "2024-02-01T00:00:00Z"]
  else if bool_decide (p_status q = Some "pending") then
    one_page [example_conv 1 "2024-02-01T00:00:00Z";
              example_conv 2 "2024-03-01T00:00:00Z"]
  else one_page [].

Definition with_searchTerms (input : SearchInput) (terms : list string)
  : SearchInput :=
  {| in_query := in_query input; in_inboxId := in_inboxId input;
     in_tag := in_tag input; in_status := in_status input;
     in_statuses := in_statuses input;
     in_createdAfter := in_createdAfter input;
     in_createdBefore := in_createdBefore input;
     in_limit := in_limit input;
     in_sort := in_sort input; in_order := in_order input;
     in_searchTerms := Some terms;
     in_searchIn := in_searchIn input;
     in_timeframeDays := in_timeframeDays input;
     in_contentTerms := in_contentTerms input;
     in_subjectTerms := in_subjectTerms input;
     in_customerEmail := in_customerEmail input;
     in_emailDomain := in_emailDomain input;
     in_tags := in_tags input;
     in_includeTranscripts := in_includeTranscripts input;
     in_transcriptMaxMessages := in_transcriptMaxMessages input |}.

Definition with_dates (input : SearchInput)
    (createdAfter createdBefore : option string) : SearchInput :=
  {| in_query := in_query input; in_inboxId := in_inboxId input;
     in_tag := in_tag input; in_status := in_status input;
     in_statuses := in_statuses input;
     in_createdAfter := createdAfter;
     in_createdBefore := createdBefore;
     in_limit := in_limit input;
     in_sort := in_sort input; in_order := in_order input;
     in_searchTerms := in_searchTerms input;
     in_searchIn := in_searchIn input;
     in_timeframeDays := in_timeframeDays input;
     in_contentTerms := in_contentTerms input;
     in_subjectTerms := in_subjectTerms input;
     in_customerEmail := in_customerEmail input;
     in_emailDomain := in_emailDomain input;
     in_tags := in_tags input;
     in_includeTranscripts := in_includeTranscripts input;
     in_transcriptMaxMessages := in_transcriptMaxMessages input |}.

Definition default_config : Config := config_of_env (fun _ => None).

(** The placeholder [attachTranscripts] returns for a conversation whose
    transcript fetch failed. *)
Definition transcript_placeholder (conv : ConvOut) : Entry :=
  {| entry_conv := conv;
     entry_transcript := None;
     entry_transcriptError := Some "Failed to fetch" |}.

(** An upstream whose [closed] requests fail with an error that is not
    an API error, the other statuses being empty. *)
Definition broken_api : ConvApi := fun q =>
  if bool_decide (p_status q = Some "closed")
  then Rejected (OtherError "socket hang up")
  else one_page [].

(** A thread endpoint that rejects every request as unauthorized. *)
Definition unauthorized_threads : ThreadApi := fun _ _ _ =>
  Rejected (ApiError UNAUTHORIZED "Invalid or expired token").

Definition with_transcripts (input : SearchInput) : SearchInput :=
  {| in_query := in_query input; in_inboxId := in_inboxId input;
     in_tag := in_tag input; in_status := in_status input;
     in_statuses := in_statuses input;
     in_createdAfter := in_createdAfter input;
     in_createdBefore := in_createdBefore input;
     in_limit := in_limit input;
     in_sort := in_sort input; in_order := in_order input;
     in_searchTerms := in_searchTerms input;
     in_searchIn := in_searchIn input;
     in_timeframeDays := in_timeframeDays input;
     in_contentTerms := in_contentTerms input;
     in_subjectTerms := in_subjectTerms input;
     in_customerEmail := in_customerEmail input;
     in_emailDomain := in_emailDomain input;
     in_tags := in_tags input;
     in_includeTranscripts := true;
     in_transcriptMaxMessages := in_transcriptMaxMessages input |}.

(** The [transcriptError] fields of the entries of a listing result. *)
Definition transcript_errors (o : SearchOutput) : list (option string) :=
  match o with
  | Enriched (ListOut r) _ => map entry_transcriptError (li_results r)
  | _ => []
  end.

(** The test the createdBefore filter applies to one record. *)
Definition is_before `{JsDate} (bound : string) (conv : Conversation) : bool :=
  match Date_getTime bound with
  | Some beforeDate =>
      num_lt (Date_getTime (conv_createdAt conv)) (Some beforeDate)
  | None => false
  end.


Definition mid_february : string := "2024-02-15T00:00:00Z".


(** The dates of these threads parse. *)
Definition threads_dated `{JsDate} (l : list Thread) : Prop :=
  List.Forall (fun t => is_Some (Date_getTime (thread_createdAt t))) l.

Definition example_thread (i : Z) (type : string) (state : option string)
    (body createdAt : string) : Thread :=
  {| thread_id := i; thread_type := type; thread_state := state;
     thread_status := Some "active"; thread_body := Some body;
     thread_createdAt := createdAt; thread_customer := None;
     thread_createdBy := None; thread_attachments := None |}.


(** The message bodies a [getThreads] result carries. *)
Definition threads_bodies (r : ThreadsResult) : list (option string) :=
  match r with
  | TranscriptFormat _ messages _ _ => map (fun m => Some (msg_body m)) messages
  | VerboseThreads _ threads _ _ => map thread_body threads
  | SlimThreads _ threads _ _ => map sth_body threads
  end.

(** The message bodies a [getConversationSummary] result carries. *)
Definition summary_bodies (r : SummaryResult) : list (option string) :=
  match r with
  | VerboseSummary _ threads => map thread_body threads
  | Summary _ first latest =>
      match first with Some m => [sm_body m] | None => [] end
      ++ match latest with Some m => [sm_body m] | None => [] end
  end.

(** The configuration when [REDACT_MESSAGE_CONTENT=true]. *)
Definition redacting_config : Config :=
  config_of_env (fun x =>
    if String.eqb x "REDACT_MESSAGE_CONTENT" then Some "true" else None).

(** A thread endpoint that serves one customer message with the given
    body. *)
Definition one_message_threads (body : string) : ThreadApi := fun _ _ _ =>
  Fulfilled
    {| page_items :=
         Some [example_thread 1 "customer" (Some "published") body
                 "2024-02-01T10:00:00Z"];
       page_totalElements := Some 1;
       page_next := false |}.

(** [s] holds no character [.]. *)
Fixpoint no_dot (s : string) : bool :=
  match s with
  | EmptyString => true
  | String a s' => negb (Ascii.eqb a ".") && no_dot s'
  end.

(** [/^\d{4}-\d{2}-\d{2}T\d{2}:\d{2}:\d{2}Z$/]: an ISO-8601 instant with
    whole seconds. *)
Definition re_whole_second : regex :=
  seqs [Bol; rep 4 digit; lit "-"; rep 2 digit; lit "-"; rep 2 digit; lit "T";
        rep 2 digit; lit ":"; rep 2 digit; lit ":"; rep 2 digit; lit "Z"; Eol].

Definition is_whole_second (s : string) : bool := rx_test re_whole_second s.

(** The group of clauses of one term, and the query of all terms. *)
Definition term_group (searchIn : list SearchLocation) (term : string)
  : string :=
  "(" +:+ join " OR " (termQueries searchIn term) +:+ ")".

Definition terms_query (searchIn : list SearchLocation) (terms : list string)
  : string :=
  join " OR " (map (term_group searchIn) terms).

(** The query sent upstream in keyword mode, for a range start. *)
Definition ranged_query (searchQuery start : string) : string :=
  "(" +:+ searchQuery +:+ ") AND (createdAt:[" +:+ start +:+ " TO *])".

(** The start of the createdAt range in a query (the text between
    [createdAt:[] and [ TO ]). *)
Definition range_start (query : string) : option string :=
  match rx_match (seqs [lit "createdAt:["; Group 1 (lazy_star any); lit " TO "])
                 query with
  | Some c => Some (cap 1 c)
  | None => None
  end.

(** An upstream that rejects every request as malformed and echoes the
    query it received in the error message. *)
Definition echo_api : ConvApi := fun q =>
  Rejected (ApiError INVALID_INPUT (default EmptyString (p_query q))).

(** The range start of the query that [echo_api] reports. *)
Definition echoed_start {A} (r : Settled A) : option string :=
  match r with
  | Rejected (ApiError INVALID_INPUT query) => range_start query
  | _ => None
  end.

(** The shape [YYYY-MM-DDTHH:mm:ss] over fourteen digits. *)
Definition iso_shape (y1 y2 y3 y4 m1 m2 d1 d2 h1 h2 n1 n2 s1 s2 : ascii)
  : string :=
  String y1 (String y2 (String y3 (String y4 (String "-"
  (String m1 (String m2 (String "-" (String d1 (String d2 (String "T"
  (String h1 (String h2 (String ":" (String n1 (String n2 (String ":"
  (String s1 (String s2 EmptyString)))))))))))))))))).

(** Splits a [forallb is_digit] hypothesis into one fact per character. *)
Ltac digits H :=
  cbn [forallb] in H;
  repeat (apply andb_true_iff in H;
          let H' := fresh "Hd" in destruct H as [H' H]).


(** ** Vocabulary of the statements about escaping *)

(** The string obtained by replacing every character [a] of [s] by
    [f a]. *)
Fixpoint expand (f : ascii -> string) (s : string) : string :=
  match s with
  | EmptyString => EmptyString
  | String a s' => f a +:+ expand f s'
  end.

(** What [escapeQueryTerm] makes of one character. *)
Definition escape_char (a : ascii) : string :=
  if Ascii.eqb a (chr 92) then backslash +:+ backslash
  else if Ascii.eqb a (chr 34) then backslash +:+ dq
  else String a EmptyString.

(** The text of a quoted phrase of the query syntax: a backslash is
    followed by the character it protects (a backslash or a double
    quote), and a double quote never stands unprotected. *)
Fixpoint well_escaped (s : string) : bool :=
  match s with
  | EmptyString => true
  | String a s' =>
      if Ascii.eqb a (chr 92) then
        match s' with
        | String b s'' =>
            (Ascii.eqb b (chr 92) || Ascii.eqb b (chr 34)) && well_escaped s''
        | EmptyString => false
        end
      else negb (Ascii.eqb a (chr 34)) && well_escaped s'
  end.

(** Reading such a text: a backslash is dropped and the character after
    it is taken as it stands. *)
Fixpoint unescape (s : string) : string :=
  match s with
  | EmptyString => EmptyString
  | String a s' =>
      if Ascii.eqb a (chr 92) then
        match s' with
        | String b s'' => String b (unescape s'')
        | EmptyString => EmptyString
        end
      else String a (unescape s')
  end.

(** ** Vocabulary of the statements about patterns *)

(** Every character of [s] satisfies [P]. *)
Fixpoint all_chars (P : ascii -> bool) (s : string) : bool :=
  match s with
  | EmptyString => true
  | String a s' => P a && all_chars P s'
  end.

(** Every character class of [r] that can consume input lies within [P]. *)
Fixpoint chars_in (P : ascii -> bool) (r : regex) : Prop :=
  match r with
  | Chr p => forall a, p a = true -> P a = true
  | Seq r1 r2 => chars_in P r1 /\ chars_in P r2
  | Alt r1 r2 => chars_in P r1 /\ chars_in P r2
  | Star _ r' => chars_in P r'
  | Group _ r' => chars_in P r'
  | _ => True
  end.

(** Every way through [r] ends with [$]. *)
Fixpoint ends_at_eol (r : regex) : Prop :=
  match r with
  | Eol => True
  | Seq _ r2 => ends_at_eol r2
  | Alt r1 r2 => ends_at_eol r1 /\ ends_at_eol r2
  | Group _ r' => ends_at_eol r'
  | _ => False
  end.

(** The characters of a date that passes [isoDatePattern]. *)
Definition date_char (a : ascii) : bool :=
  is_digit a || Ascii.eqb a "-" || Ascii.eqb a "T" || Ascii.eqb a ":"
  || Ascii.eqb a "." || Ascii.eqb a "Z".

(** The message of the error thrown for a malformed [createdAfter]. *)
Definition invalid_createdAfter (d : string) : Reason :=
  OtherError ("Invalid createdAfter date format: " +:+ d
              +:+ ". Expected ISO 8601 (e.g., 2024-01-15T00:00:00Z)").

(** ** Vocabulary of the statements about the page loop *)

(** What one request contributes: the items of the page, whether it was
    served, whether it carries a [next] link. *)
Definition items_of {A} (r : Settled (Page A)) : list A :=
  match r with
  | Fulfilled p => default [] (page_items p)
  | Rejected _ => []
  end.

Definition served {A} (r : Settled (Page A)) : bool :=
  match r with Fulfilled _ => true | Rejected _ => false end.

Definition has_next {A} (r : Settled (Page A)) : bool :=
  match r with Fulfilled p => page_next p | Rejected _ => false end.

(** The items of pages [1 .. k], in order. *)
Definition gathered {A} (get : Z -> Settled (Page A)) (k : nat) : list A :=
  flat_map (fun i => items_of (get (Z.of_nat i))) (seq 1 k).

(** The total the loop holds after pages [1 .. k]: the [totalElements]
    of the last page that reported one (other than 0). *)
Definition reported_total {A} (get : Z -> Settled (Page A)) (k : nat) : Z :=
  fold_left
    (fun total i =>
       match get (Z.of_nat i) with
       | Fulfilled p => num_or (page_totalElements p) total
       | Rejected _ => total
       end)
    (seq 1 k) 0.

(** The loop, allowed [cap] pages and asked for [desired] items, went
    through pages [1 .. k]: each was served, each but the last carried a
    [next] link, and before each of them fewer than [desired] items had
    been gathered. *)
Definition fetched_through {A} (get : Z -> Settled (Page A)) (desired : Z)
    (cap k : nat) : Prop :=
  (k <= cap)%nat
  /\ (forall i, (1 <= i <= k)%nat -> served (get (Z.of_nat i)) = true)
  /\ (forall i, (1 <= i < k)%nat -> has_next (get (Z.of_nat i)) = true)
  /\ (forall i, (i < k)%nat -> len (gathered get i) < desired).

(** The page limit of [fetchConversationPages] and of [fetchThreadPages]. *)
Definition page_cap (maxPages : option Z) (desiredCount : Z) : nat :=
  Z.to_nat (num_or maxPages (ceil_div25 desiredCount + 1)).

(** The requests of the two loops, by page number. *)
Definition conversation_pages (api : ConvApi) (params : ConvParams)
  : Z -> Settled (Page Conversation) :=
  fun page => api (with_page params page).

Definition thread_pages (api : ThreadApi) (conversationId : string)
    (desiredCount : Z) : Z -> Settled (Page Thread) :=
  fun page => api conversationId page desiredCount.

(** ** Vocabulary of the statements about result sizes *)

(** The conversation lists of a search result: one for each status
    group in keyword mode, the [results] array in the other modes. *)
Definition listed {E} (r : SearchResult E) : list (list E) :=
  match r with
  | KeywordOut r => map group_conversations (kw_resultsByStatus r)
  | StructuredOut r => [st_results r]
  | ListOut r => [li_results r]
  end.

(** The count a result reports for each of these lists: [count] of the
    group, [pagination.returned], and in listing mode
    [pagination.totalResults] once the client-side filter has replaced
    the pagination object. *)
Definition reported {E} (r : SearchResult E) : list (option Z) :=
  match r with
  | KeywordOut r => map (fun g => Some (group_count g)) (kw_resultsByStatus r)
  | StructuredOut r => [Some (st_returned r)]
  | ListOut r =>
      [li_pagination r ≫= fun pg =>
         match totalResults pg with
         | Some n => Some n
         | None => returned pg
         end]
  end.

(** [totalConversationsFound], in keyword mode. *)
Definition reported_sum {E} (r : SearchResult E) : option Z :=
  match r with
  | KeywordOut r => Some (kw_totalConversationsFound r)
  | _ => None
  end.

Definition output_sizes (o : SearchOutput) : list Z :=
  match o with
  | Plain r => map len (listed r)
  | Enriched r _ => map len (listed r)
  end.

Definition output_counts (o : SearchOutput) : list (option Z) :=
  match o with
  | Plain r => reported r
  | Enriched r _ => reported r
  end.

Definition output_sum (o : SearchOutput) : option Z :=
  match o with
  | Plain r => reported_sum r
  | Enriched r _ => reported_sum r
  end.

(** The limit in force: 10 when transcripts are requested and the
    arguments carry no [limit], the [limit] of the input otherwise. *)
Definition effective_limit (input : SearchInput) (args_limit : option Z) : Z :=
  if in_includeTranscripts input && (num_or args_limit 0 =? 0)
  then 10 else in_limit input.

(** ** Vocabulary of the statements about structured mode *)

(** The query built from the field-specific terms, and the query handed
    to [appendCreatedAtFilter]. *)
Definition structured_queryString (input : SearchInput) : option string :=
  match queryParts input with
  | [] => None
  | _ => Some (join " AND " (queryParts input))
  end.

Definition structured_query (input : SearchInput) : option string :=
  if truthy (structured_queryString input) then structured_queryString input
  else None.

(** The fetch of one status in structured mode, given the query that
    [appendCreatedAtFilter] produced, and all of them settled. *)
Definition structured_fetch (config : Config) (api : ConvApi)
    (input : SearchInput) (queryWithDate : option string) (status : Status)
  : Settled (list Conversation * Z) :=
  fetchConversationPages api
    (with_status
       (structured_queryParams (limit_or_default input)
          (structured_queryString input) queryWithDate
          (str_or (in_inboxId input) (defaultInboxId config)))
       (status_name status))
    (limit_or_default input) None.

Definition structured_fetches (config : Config) (api : ConvApi)
    (input : SearchInput) (queryWithDate : option string)
  : list (Status * Settled (list Conversation * Z)) :=
  allSettled (structured_fetch config api input queryWithDate)
    (default [] (in_statuses input)).

(** An upstream that rejects every request as unauthorized. *)
Definition unauthorized_api : ConvApi := fun _ =>
  Rejected (ApiError UNAUTHORIZED "Invalid token").

Definition with_contentTerms (input : SearchInput) (terms : list string)
  : SearchInput :=
  {| in_query := in_query input; in_inboxId := in_inboxId input;
     in_tag := in_tag input; in_status := in_status input;
     in_statuses := in_statuses input;
     in_createdAfter := in_createdAfter input;
     in_createdBefore := in_createdBefore input;
     in_limit := in_limit input;
     in_sort := in_sort input; in_order := in_order input;
     in_searchTerms := in_searchTerms input;
     in_searchIn := in_searchIn input;
     in_timeframeDays := in_timeframeDays input;
     in_contentTerms := Some terms;
     in_subjectTerms := in_subjectTerms input;
     in_customerEmail := in_customerEmail input;
     in_emailDomain := in_emailDomain input;
     in_tags := in_tags input;
     in_includeTranscripts := in_includeTranscripts input;
     in_transcriptMaxMessages := in_transcriptMaxMessages input |}.

(** ** Vocabulary of the statements about summaries *)


(** The threads [getConversationSummary] chooses from. *)
Definition is_customer_thread (t : Thread) : bool :=
  String.eqb (thread_type t) "customer".

Definition is_staff_thread (t : Thread) : bool :=
  String.eqb (thread_type t) "message"
  && bool_decide (is_Some (thread_createdBy t)).

(** [m] is the summary entry of thread [t]. *)
Definition summarises (person : Thread -> option Person) (config : Config)
    (m : SummaryMessage) (t : Thread) : Prop :=
  sm_id m = thread_id t
  /\ sm_createdAt m = thread_createdAt t
  /\ sm_person m = person t
  /\ sm_body m = (if allowPii config then thread_body t else Some REDACTED).

(** A thread endpoint that serves the given threads on one page. *)
Definition threads_on_one_page (l : list Thread) : ThreadApi := fun _ _ _ =>
  Fulfilled {| page_items := Some l;
               page_totalElements := Some (len l);
               page_next := false |}.

(** A customer message, a sent reply, and a later reply still in draft. *)
Definition threads_with_draft : list Thread :=
  [ example_thread 1 "customer" (Some "published") "Where is my order?"
      "2024-02-01T10:00:00Z";
    {| thread_id := 2; thread_type := "message";
       thread_state := Some "published"; thread_status := None;
       thread_body := Some "It shipped today.";
       thread_createdAt := "2024-02-01T11:00:00Z";
       thread_customer := None;
       thread_createdBy :=
         Some {| person_id := 7; person_type := Some "user";
                 person_first := Some "Sam"; person_firstName := None;
                 person_last := None; person_lastName := None;
                 person_email := None |};
       thread_attachments := None |};
    {| thread_id := 3; thread_type := "message";
       thread_state := Some "draft"; thread_status := None;
       thread_body := Some "Unsent follow-up";
       thread_createdAt := "2024-02-01T12:00:00Z";
       thread_customer := None;
       thread_createdBy :=
         Some {| person_id := 7; person_type := Some "user";
                 person_first := Some "Sam"; person_firstName := None;
                 person_last := None; person_lastName := None;
                 person_email := None |};
       thread_attachments := None |} ].

(** ** Vocabulary of the statements about the call history *)

(** Whether the tool behind a request returned normally. *)
Definition tool_returned {A} (outcome : list NetRequest * Settled A) : bool :=
  match snd outcome with Fulfilled _ => true | Rejected _ => false end.

(** ** Tools that write *)

(** An operation of a JSONPatch document. *)
Inductive PatchOp : Type :=
| PatchReplace (path : string) (value : Json)
| PatchRemove (path : string).

(** What a tool does to the outside, in order: the requests handed to
    the HTTP client ([fresh] is the option [{ ttl: 0 }] of a GET) and
    the invalidation of cached responses. *)
Inductive Effect : Type :=
| HttpGet (path : string) (params : list (string * string)) (fresh : bool)
| HttpPost (path : string) (body : Json)
| HttpPatch (path : string) (ops : list PatchOp)
| HttpPut (path : string) (body : Json)
| HttpDelete (path : string)
| CacheClear (prefix : string).

(** The HTTP client, by method.  [postWithResponse] gives the
    [resource-id] header of the response.  Within one call of a tool no
    request is issued twice, so a function of the request stands for
    any upstream. *)
Record Http : Type := {
  http_get : string -> list (string * string) -> Settled Conversation;
  http_postWithResponse : string -> Json -> Settled (option string);
  http_patch : string -> list PatchOp -> Settled unit;
  http_put : string -> Json -> Settled unit
}.

(** A computation that leaves a trace of effects and settles. *)
Definition Traced (A : Type) : Type := list Effect * Settled A.

Definition settle {A} (x : A) : Traced A := ([], Fulfilled x).

Definition emit (e : Effect) : Traced unit := ([e], Fulfilled tt).

Definition call {A} (e : Effect) (response : Settled A) : Traced A :=
  ([e], response).

Definition then_ {A B} (m : Traced A) (f : A -> Traced B) : Traced B :=
  match m with
  | (log, Fulfilled x) => let (log', r) := f x in (log ++ log', r)
  | (log, Rejected e) => (log, Rejected e)
  end.

Notation "'perform' x ':=' m 'in' k" := (then_ m (fun x => k))
  (at level 10, x pattern, m at level 100, k at level 200).

(** [try { m } catch { handler }] *)
Definition catch {A} (m : Traced A) (handler : Reason -> Traced A)
  : Traced A :=
  match m with
  | (log, Rejected e) => let (log', r) := handler e in (log ++ log', r)
  | (log, Fulfilled x) => (log, Fulfilled x)
  end.

(** *** updateConversation *)

(** The input after [UpdateConversationInputSchema.parse], with the
    fields the function reads ([assignTo] may be absent, null, or a user
    id). *)
Record UpdateConversationInput : Type := {
  upd_conversationId : string;
  upd_subject : option string;
  upd_status : option string;
  upd_assignTo : option (option Z);
  upd_tags : option (list string);
  upd_customFields : option Json
}.

Record UpdateConversationResult : Type := {
  upr_conversationId : string;
  upr_conversation : ConvOut;
  upr_updated : list string;
  upr_message : string
}.

Definition updateConversation (http : Http) (input : UpdateConversationInput)
    (verbose : bool) : Traced UpdateConversationResult :=
  let updatedFields : list string := [] in
  let convId := upd_conversationId input in
  let patchOps : list PatchOp := [] in
  let '(patchOps, updatedFields) :=
    match upd_subject input with
    | Some subject =>
        (patchOps ++ [PatchReplace "/subject" (JStr subject)],
         updatedFields ++ ["subject"])
    | None => (patchOps, updatedFields)
    end in
  let '(patchOps, updatedFields) :=
    match upd_status input with
    | Some status =>
        (patchOps ++ [PatchReplace "/status" (JStr status)],
         updatedFields ++ ["status"])
    | None => (patchOps, updatedFields)
    end in
  let '(patchOps, updatedFields) :=
    match upd_assignTo input with
    | Some None =>
        (patchOps ++ [PatchRemove "/assignTo"], updatedFields ++ ["assignTo"])
    | Some (Some assignTo) =>
        (patchOps ++ [PatchReplace "/assignTo" (JNum assignTo)],
         updatedFields ++ ["assignTo"])
    | None => (patchOps, updatedFields)
    end in
  perform _ :=
    (match patchOps with
     | [] => settle tt
     | _ =>
         call (HttpPatch ("/conversations/" +:+ convId) patchOps)
           (http_patch http ("/conversations/" +:+ convId) patchOps)
     end) in
  perform updatedFields :=
    (match upd_tags input with
     | Some tags =>
         let body := JObj [("tags", strs tags)] in
         perform _ :=
           call (HttpPut (("/conversations/" +:+ convId) +:+ "/tags") body)
             (http_put http (("/conversations/" +:+ convId) +:+ "/tags") body) in
         settle (updatedFields ++ ["tags"])
     | None => settle updatedFields
     end) in
  perform updatedFields :=
    (match upd_customFields input with
     | Some customFields =>
         let body := JObj [("fields", customFields)] in
         perform _ :=
           call (HttpPut (("/conversations/" +:+ convId) +:+ "/fields") body)
             (http_put http (("/conversations/" +:+ convId) +:+ "/fields") body) in
         settle (updatedFields ++ ["customFields"])
     | None => settle updatedFields
     end) in
  perform _ := emit (CacheClear "GET:/conversations") in
  perform fetched :=
    call (HttpGet ("/conversations/" +:+ convId) [] true)
      (http_get http ("/conversations/" +:+ convId) []) in
  let conversation := render_one verbose fetched in
  settle {| upr_conversationId := convId;
          upr_conversation := conversation;
          upr_updated := updatedFields;
          upr_message :=
            "Conversation updated: " +:+ join ", " updatedFields +:+ "." |}.

(** *** createConversation *)

(** A thread of the input: its [text] and its other properties. *)
Record NewThread : Type := {
  nt_text : string;
  nt_rest : list (string * Json)
}.

(** The input after [CreateConversationInputSchema.parse], with the
    fields the function reads; those it only passes on are kept as JSON
    values. *)
Record CreateConversationInput : Type := {
  cc_subject : Json;
  cc_type : Json;
  cc_mailboxId : Json;
  cc_customer : Json;
  cc_status : Json;
  cc_threads : list NewThread;
  cc_assignTo : option Json;
  cc_tags : option Json;
  cc_imported : option Json;
  cc_autoReply : option Json;
  cc_user : option Json;
  cc_createdAt : option Json
}.

(** [{ ...thread, text: formatReplyHtml(thread.text, compact) }] *)
Definition formatted_thread (compact : bool) (thread : NewThread) : Json :=
  JObj (("text", JStr (formatReplyHtml (nt_text thread) compact))
        :: nt_rest thread).

(** [if (x !== undefined) requestBody.name = x] *)
Definition optional_field (name : string) (x : option Json)
  : list (string * Json) :=
  match x with Some v => [(name, v)] | None => [] end.

Definition create_requestBody (config : Config) (input : CreateConversationInput)
  : Json :=
  let compact := compactReplies config in
  JObj ([("subject", cc_subject input);
         ("type", cc_type input);
         ("mailboxId", cc_mailboxId input);
         ("customer", cc_customer input);
         ("status", cc_status input);
         ("threads", JArr (map (formatted_thread compact) (cc_threads input)))]
        ++ optional_field "assignTo" (cc_assignTo input)
        ++ optional_field "tags" (cc_tags input)
        ++ optional_field "imported" (cc_imported input)
        ++ optional_field "autoReply" (cc_autoReply input)
        ++ optional_field "user" (cc_user input)
        ++ optional_field "createdAt" (cc_createdAt input)).

(** The payload of the result ([success] is [true] and [message] is
    fixed). *)
Record CreateConversationResult : Type := {
  ccr_conversationId : option string;
  ccr_conversation : option ConvOut
}.

Definition createConversation (config : Config) (http : Http)
    (input : CreateConversationInput) (verbose : bool)
  : Traced CreateConversationResult :=
  let requestBody := create_requestBody config input in
  perform resourceId :=
    call (HttpPost "/conversations" requestBody)
      (http_postWithResponse http "/conversations" requestBody) in
  let conversationId := str_or resourceId None in
  perform _ := emit (CacheClear "GET:/conversations") in
  perform conversation :=
    (match conversationId with
     | Some id =>
         catch
           (perform fetched :=
              call (HttpGet ("/conversations/" +:+ id) [] true)
                (http_get http ("/conversations/" +:+ id) []) in
            settle (Some (render_one verbose fetched)))
           (fun _ => settle None)
     | None => settle None
     end) in
  settle {| ccr_conversationId := conversationId;
          ccr_conversation := conversation |}.

(** *** getConversation *)

Definition getConversation (http : Http) (conversationId : string)
    (embed : option (list string)) (verbose : bool) : Traced ConvOut :=
  let params :=
    if nonempty embed then [("embed", join "," (default [] embed))] else [] in
  perform conversation :=
    call (HttpGet ("/conversations/" +:+ conversationId) params true)
      (http_get http ("/conversations/" +:+ conversationId) params) in
  settle (render_one verbose conversation).

(** ** Vocabulary of the statements about the tools that write *)

(** The reason with which the client rejects a request, if it does. *)
Definition rejection (http : Http) (e : Effect) : option Reason :=
  let reason {A} (r : Settled A) : option Reason :=
    match r with Rejected e => Some e | Fulfilled _ => None end in
  match e with
  | HttpGet path params _ => reason (http_get http path params)
  | HttpPost path body => reason (http_postWithResponse http path body)
  | HttpPatch path ops => reason (http_patch http path ops)
  | HttpPut path body => reason (http_put http path body)
  | HttpDelete _ => None
  | CacheClear _ => None
  end.

(** The JSONPatch document for the fields of the input that are given. *)
Definition update_patch (input : UpdateConversationInput) : list PatchOp :=
  match upd_subject input with
  | Some v => [PatchReplace "/subject" (JStr v)]
  | None => []
  end
  ++ match upd_status input with
     | Some v => [PatchReplace "/status" (JStr v)]
     | None => []
     end
  ++ match upd_assignTo input with
     | Some (Some v) => [PatchReplace "/assignTo" (JNum v)]
     | Some None => [PatchRemove "/assignTo"]
     | None => []
     end.

(** What a run of [updateConversation] does when nothing fails: one
    PATCH when the document is not empty, one PUT for the tags and one
    for the custom fields when they are given, then the cache is
    invalidated and the conversation is fetched afresh. *)
Definition update_effects (input : UpdateConversationInput) : list Effect :=
  let base := "/conversations/" +:+ upd_conversationId input in
  match update_patch input with
  | [] => []
  | ops => [HttpPatch base ops]
  end
  ++ match upd_tags input with
     | Some tags => [HttpPut (base +:+ "/tags") (JObj [("tags", strs tags)])]
     | None => []
     end
  ++ match upd_customFields input with
     | Some fields => [HttpPut (base +:+ "/fields") (JObj [("fields", fields)])]
     | None => []
     end
  ++ [CacheClear "GET:/conversations"; HttpGet base [] true].

(** The names of the fields of the input that are given, in the order
    of the result. *)
Definition given_fields (input : UpdateConversationInput) : list string :=
  match upd_subject input with Some _ => ["subject"] | None => [] end
  ++ match upd_status input with Some _ => ["status"] | None => [] end
  ++ match upd_assignTo input with Some _ => ["assignTo"] | None => [] end
  ++ match upd_tags input with Some _ => ["tags"] | None => [] end
  ++ match upd_customFields input with
     | Some _ => ["customFields"]
     | None => []
     end.

(** A client that accepts every write and serves one conversation. *)
Definition obliging_http : Http :=
  {| http_get := fun _ _ => Fulfilled (example_conv 1 "2024-02-01T09:59:00Z");
     http_postWithResponse := fun _ _ => Fulfilled (Some "1");
     http_patch := fun _ _ => Fulfilled tt;
     http_put := fun _ _ => Fulfilled tt |}.

(** The same client with a tag endpoint that fails. *)
Definition failing_tags_http : Http :=
  {| http_get := http_get obliging_http;
     http_postWithResponse := http_postWithResponse obliging_http;
     http_patch := http_patch obliging_http;
     http_put := fun path _ =>
       if String.eqb path "/conversations/1/tags"
       then Rejected (ApiError UPSTREAM_ERROR "Bad gateway")
       else Fulfilled tt |}.

Definition example_update : UpdateConversationInput :=
  {| upd_conversationId := "1";
     upd_subject := Some "Order 1234";
     upd_status := None;
     upd_assignTo := Some None;
     upd_tags := Some ["vip"];
     upd_customFields := Some (JArr []) |}.

(** The texts of the threads in a request body of [createConversation]. *)
Definition posted_texts (body : Json) : list Json :=
  match body with
  | JObj fields =>
      match field "threads" fields with
      | Some (JArr threads) =>
          map (fun t => match t with
                        | JObj f => default JNull (field "text" f)
                        | _ => JNull
                        end) threads
      | _ => []
      end
  | _ => []
  end.

(** ** structuredConversationFilter *)

(** The query parameters of [GET /conversations] that only this tool
    sets; the upstream is indexed by them. *)
Record FilterExtras : Type := {
  fx_assigned_to : option Z;
  fx_folder : option Z;
  fx_number : option Z;
  fx_modifiedSince : option string
}.

(** The input after [StructuredConversationFilterInputSchema.parse]. *)
Record FilterInput : Type := {
  sf_assignedTo : option Z;
  sf_folderId : option Z;
  sf_customerIds : option (list Z);
  sf_conversationNumber : option Z;
  sf_status : string;
  sf_inboxId : option string;
  sf_tag : option string;
  sf_createdAfter : option string;
  sf_createdBefore : option string;
  sf_modifiedSince : option string;
  sf_sortBy : string;
  sf_sortOrder : string;
  sf_limit : Z
}.

Record FilterOutput : Type := {
  fo_results : list ConvOut;
  fo_returned : Z;                         (* pagination.returned *)
  fo_total : Z;                            (* pagination.total *)
  fo_clientSideFiltering : bool            (* present (true) or absent *)
}.

(** The [query] parameter before the date filter. *)
Definition filter_query (input : FilterInput) : option string :=
  if nonempty (sf_customerIds input) then
    Some ("(" +:+ join " OR "
                    (map (fun id => "customerIds:" +:+ pretty id)
                         (default [] (sf_customerIds input)))
          +:+ ")")
  else None.

Definition filter_extras (input : FilterInput) : FilterExtras :=
  {| fx_assigned_to := sf_assignedTo input;
     fx_folder := sf_folderId input;
     fx_number := sf_conversationNumber input;
     fx_modifiedSince :=
       if truthy (sf_modifiedSince input) then sf_modifiedSince input
       else None |}.

Definition filter_queryParams (config : Config) (input : FilterInput)
    (queryWithDate : option string) : ConvParams :=
  let effectiveInboxId := str_or (sf_inboxId input) (defaultInboxId config) in
  {| p_page := 1;
     p_size := sf_limit input;
     p_sortField := sf_sortBy input;
     p_sortOrder := sf_sortOrder input;
     p_query :=
       if truthy queryWithDate then queryWithDate else filter_query input;
     p_mailbox := if truthy effectiveInboxId then effectiveInboxId else None;
     p_tag := if truthy (sf_tag input) then sf_tag input else None;
     p_status :=
       Some (default "all" (str_or (Some (sf_status input)) None)) |}.

Definition structuredConversationFilter `{JsDate} (config : Config)
    (api : FilterExtras -> ConvApi) (input : FilterInput) (verbose : bool)
  : Settled FilterOutput :=
  await queryWithDate :=
    appendCreatedAtFilter (filter_query input) (sf_createdAfter input) None in
  let queryParams := filter_queryParams config input queryWithDate in
  await (fetched, totalElements) :=
    fetchConversationPages (api (filter_extras input)) queryParams
      (sf_limit input) None in
  let conversations := fetched in
  await (conversations, clientSideFiltered) :=
    (if truthy (sf_createdBefore input) then
       await result :=
         applyCreatedBeforeFilter conversations
           (default EmptyString (sf_createdBefore input)) in
       Fulfilled (filtered result, wasFiltered result)
     else Fulfilled (conversations, false)) in
  let conversations :=
    if sf_limit input <? len conversations
    then slice0 (sf_limit input) conversations else conversations in
  Fulfilled {| fo_results := render verbose conversations;
               fo_returned := len conversations;
               fo_total := totalElements;
               fo_clientSideFiltering := clientSideFiltered |}.

(** The fetch of this tool, given the query that [appendCreatedAtFilter]
    produced. *)
Definition filter_fetch (config : Config) (api : FilterExtras -> ConvApi)
    (input : FilterInput) (queryWithDate : option string)
  : Settled (list Conversation * Z) :=
  fetchConversationPages (api (filter_extras input))
    (filter_queryParams config input queryWithDate) (sf_limit input) None.

Definition example_filter : FilterInput :=
  {| sf_assignedTo := Some (-1); sf_folderId := None;
     sf_customerIds := Some [7; 8]; sf_conversationNumber := None;
     sf_status := "all"; sf_inboxId := None; sf_tag := None;
     sf_createdAfter := None;
     sf_createdBefore := Some "2024-01-01T00:00:00Z";
     sf_modifiedSince := None;
     sf_sortBy := "createdAt"; sf_sortOrder := "desc"; sf_limit := 50 |}.

(** ** The deletion tools of the Docs handler *)

(** The fields of the [config] object that the Docs tools read. *)
Record DocsConfig : Type := {
  allowDocsDelete : bool;
  disableDocs : bool
}.

Definition docs_config_of_env (getenv : string -> option string)
  : DocsConfig :=
  {| allowDocsDelete := env_is_true getenv "HELPSCOUT_ALLOW_DOCS_DELETE";
     disableDocs := env_is_true getenv "HELPSCOUT_DISABLE_DOCS" |}.

(** [helpScoutDocsClient.delete] *)
Definition DocsDelete : Type := string -> Settled unit.

(** The payload of a deletion result: the refusal, the confirmation, or
    the failure report ([idKey] is the name under which the id is
    echoed). *)
Inductive DeleteResult : Type :=
| DeletionDisabled (error message : string)
| Deleted (message idKey id : string)
| DeleteFailed (error message idKey id : string).

(** [error instanceof Error ? error.message : String(error)] in a
    [catch] clause: an [Error] gives its message; an object of the
    [ApiError] shape is a plain object, which [String] prints as
    [[object Object]]. *)
Definition caught_message (error : Reason) : string :=
  match error with
  | OtherError message => message
  | ApiError _ _ => "[object Object]"
  end.

(** The six deletion tools are one function up to their texts, their
    endpoint and the name of their id parameter. *)
Definition docs_delete_tool (Noun noun failedNoun pathPrefix idKey : string)
    (config : DocsConfig) (delete : DocsDelete) (args : Json)
  : Traced DeleteResult :=
  match match args with JObj f => field idKey f | _ => None end with
  | Some (JStr id) =>
      if negb (allowDocsDelete config) then
        settle
          (DeletionDisabled (Noun +:+ " deletion is disabled")
             ("Set HELPSCOUT_ALLOW_DOCS_DELETE=true to enable " +:+ noun
              +:+ " deletion"))
      else
        catch
          (perform _ :=
             call (HttpDelete (pathPrefix +:+ id)) (delete (pathPrefix +:+ id)) in
           settle (Deleted (Noun +:+ " deleted successfully") idKey id))
          (fun error =>
             settle (DeleteFailed ("Failed to delete " +:+ failedNoun)
                       (caught_message error) idKey id))
  | _ => ([], Rejected (OtherError "ZodError"))
  end.

Definition deleteDocsArticle :=
  docs_delete_tool "Article" "article" "article" "/articles/" "articleId".
Definition deleteDocsCategory :=
  docs_delete_tool "Category" "category" "category" "/categories/" "categoryId".
Definition deleteDocsCollection :=
  docs_delete_tool "Collection" "collection" "collection" "/collections/"
    "collectionId".
Definition deleteDocsArticleDraft :=
  docs_delete_tool "Draft" "draft" "article draft" "/articles/drafts/" "draftId".
Definition deleteDocsRedirect :=
  docs_delete_tool "Redirect" "redirect" "redirect" "/redirects/" "redirectId".
Definition deleteDocsSite :=
  docs_delete_tool "Site" "site" "site" "/sites/" "siteId".

(** The deletion tools with their endpoint and id parameter. *)
Definition docs_delete_tools
  : list (string * string
          * (DocsConfig -> DocsDelete -> Json -> Traced DeleteResult)) :=
  [ ("/articles/", "articleId", deleteDocsArticle);
    ("/categories/", "categoryId", deleteDocsCategory);
    ("/collections/", "collectionId", deleteDocsCollection);
    ("/articles/drafts/", "draftId", deleteDocsArticleDraft);
    ("/redirects/", "redirectId", deleteDocsRedirect);
    ("/sites/", "siteId", deleteDocsSite) ].

(** The id argument of a deletion tool, when it is a string. *)
Definition id_argument (idKey : string) (args : Json) : option string :=
  match args with
  | JObj f => match field idKey f with Some (JStr id) => Some id | _ => None end
  | _ => None
  end.

Definition is_refusal (r : Settled DeleteResult) : bool :=
  match r with Fulfilled (DeletionDisabled _ _) => true | _ => false end.

(** ** Validation of the configuration *)

(** The credentials and the base URL of the [config] object of
    utils/config.ts. *)
Record Credentials : Type := {
  cred_clientId : string;
  cred_clientSecret : string;
  cred_baseUrl : string
}.

Definition credentials_of_env (getenv : string -> option string)
  : Credentials :=
  {| cred_clientId :=
       default EmptyString
         (str_or (getenv "HELPSCOUT_APP_ID")
            (str_or (getenv "HELPSCOUT_CLIENT_ID") None));
     cred_clientSecret :=
       default EmptyString
         (str_or (getenv "HELPSCOUT_APP_SECRET")
            (str_or (getenv "HELPSCOUT_CLIENT_SECRET") None));
     cred_baseUrl :=
       default "https://api.helpscout.net/v2/"
         (str_or (getenv "HELPSCOUT_BASE_URL") None) |}.

(** The three errors [validateConfig] throws, by what they tell (the
    texts are instructions for the operator). *)
Inductive ConfigError : Type :=
| PersonalAccessToken          (* "Personal Access Tokens are no longer supported" *)
| OAuth2Required               (* "OAuth2 authentication required" *)
| InsecureBaseUrl (url : string).  (* "HELPSCOUT_BASE_URL must use HTTPS" *)

(** [None] when [validateConfig] returns, the error when it throws. *)
Definition validateConfig (getenv : string -> option string)
  : option ConfigError :=
  let config := credentials_of_env getenv in
  if match getenv "HELPSCOUT_API_KEY" with
     | Some key => String.prefix "Bearer " key
     | None => false
     end
  then Some PersonalAccessToken
  else
    let hasOAuth2 :=
      negb (is_empty (cred_clientId config))
      && negb (is_empty (cred_clientSecret config)) in
    if negb hasOAuth2 then Some OAuth2Required
    else if negb (is_empty (cred_baseUrl config))
            && negb (String.prefix "https://" (cred_baseUrl config))
    then Some (InsecureBaseUrl (cred_baseUrl config))
    else None.

(** The variable is set to a non-empty value. *)
Definition env_set (getenv : string -> option string) (x : string) : Prop :=
  exists v, getenv x = Some v /\ v <> EmptyString.

Definition oauth_env (x : string) : option string :=
  if String.eqb x "HELPSCOUT_CLIENT_ID" then Some "app"
  else if String.eqb x "HELPSCOUT_APP_SECRET" then Some "secret"
  else if String.eqb x "HELPSCOUT_BASE_URL" then Some EmptyString
  else None.

(** ** Vocabulary of the statements about the reply formatter *)

(** A piece of the markup that replies are usually written in: a run of
    text without tags, a line break, the start or the end of a
    paragraph. *)
Inductive Piece : Type :=
| Text (s : string)
| Br
| POpen
| PClose.

(** The text of a piece holds no [<]. *)
Definition plain_piece (p : Piece) : Prop :=
  match p with
  | Text s => all_chars (fun a => negb (Ascii.eqb a "<")) s = true
  | _ => True
  end.

(** A piece as it is written, and as the formatter leaves it. *)
Definition written (p : Piece) : string :=
  match p with
  | Text s => s
  | Br => "<br>"
  | POpen => "<p>"
  | PClose => "</p>"
  end.

Definition formatted (p : Piece) : string :=
  match p with
  | Text s => s
  | Br => "<br>"
  | POpen => EmptyString
  | PClose => "<br><br>"
  end.

Fixpoint concat_strings (l : list string) : string :=
  match l with
  | [] => EmptyString
  | s :: l' => s +:+ concat_strings l'
  end.

(** [s] starts with [<br>], in any case of the letters. *)
Definition starts_with_br (s : string) : bool :=
  match s with
  | String a (String b (String c (String d _))) =>
      ascii_eqb_ci "<" a && ascii_eqb_ci "b" b && ascii_eqb_ci "r" c
      && ascii_eqb_ci ">" d
  | _ => false
  end.

(** [s] is a (possibly empty) sequence of [<br>]. *)
Fixpoint brs_only (s : string) : bool :=
  match s with
  | EmptyString => true
  | String _ t =>
      starts_with_br s
      && match t with
         | String _ (String _ (String _ u)) => brs_only u
         | _ => false
         end
  end.

(** [s] ends with [<br>]. *)
Fixpoint ends_with_br (s : string) : bool :=
  match s with
  | EmptyString => false
  | String _ t =>
      (starts_with_br s && (String.length s =? 4)%nat) || ends_with_br t
  end.

(** [s] without the run of [<br>] it ends with: [s] is cut at the first
    position from which only [<br>] follow. *)
Fixpoint strip_trailing_brs (s : string) : string :=
  match s with
  | EmptyString => EmptyString
  | String a t => if brs_only s then EmptyString
                  else String a (strip_trailing_brs t)
  end.

(** The only tag in [s] is [<br>]. *)
Fixpoint br_only (s : string) : bool :=
  match s with
  | EmptyString => true
  | String a t =>
      (if Ascii.eqb a "<" then String.prefix "br>" t else true) && br_only t
  end.

(** [z] is what remains of [s] after some prefix. *)
Definition suffix_of (z s : string) : Prop := exists pre, s = pre +:+ z.

(** The markup of a list of pieces, as written and as formatted. *)
Definition markup (l : list Piece) : string := concat_strings (map written l).

Definition formatted_markup (l : list Piece) : string :=
  concat_strings (map formatted l).

(** A piece that is a tag. *)
Definition is_tag (p : Piece) : bool :=
  match p with Text _ => false | _ => true end.

(** What the pass that removes [<p>] leaves of a piece, and of a list
    of pieces. *)
Definition without_p_open (p : Piece) : string :=
  match p with POpen => EmptyString | _ => written p end.

Definition drop_p_open (l : list Piece) : list Piece :=
  List.filter (fun p => match p with POpen => false | _ => true end) l.

(** ** Vocabulary of the statements about stripHtml *)

Definition starts_with_space (s : string) : bool :=
  match s with
  | String a _ => Ascii.eqb " " a
  | EmptyString => false
  end.

(** No space of [s] is followed by a space. *)
Fixpoint single_spaced (s : string) : bool :=
  match s with
  | EmptyString => true
  | String a t =>
      negb (Ascii.eqb " " a && starts_with_space t) && single_spaced t
  end.

(** Neither a tab nor a carriage return. *)
Definition no_tab_or_cr (a : ascii) : bool :=
  negb (Ascii.eqb (chr 9) a) && negb (Ascii.eqb (chr 13) a).

(** ** Vocabulary of the statements about what a search delivers *)

(** The records the upstream holds under these statuses, status after
    status. *)
Definition available (db : option string -> list Conversation)
    (statuses : list Status) : list Conversation :=
  flat_map (fun status => db (Some (status_name status))) statuses.

(** The statuses a listing search fetches. *)
Definition list_statuses (input : SearchInput) : list Status :=
  match in_status input, in_statuses input with
  | Some status, None => [status]
  | _, _ => statuses_or_default input
  end.

(** The records that a structured search can reach: those of the
    statuses of [statuses], or else those of [status], or else those
    listed under [all]. *)
Definition structured_available (db : option string -> list Conversation)
    (input : SearchInput) : list Conversation :=
  if nonempty (in_statuses input)
  then available db (default [] (in_statuses input))
  else db (Some (match in_status input with
                 | Some s => status_name s
                 | None => "all"
                 end)).

(** An upstream with one conversation under each of [active], [pending]
    and [closed]. *)
Definition one_per_status (status : option string) : list Conversation :=
  if bool_decide (status = Some "active")
  then [example_conv 1 "2024-03-01T00:00:00Z"]
  else if bool_decide (status = Some "pending")
  then [example_conv 2 "2024-02-01T00:00:00Z"]
  else if bool_decide (status = Some "closed")
  then [example_conv 3 "2024-01-01T00:00:00Z"]
  else [].

(** * Properties *)

(** ** The reply formatter on a list between two paragraphs *)

(** C4.  In relaxed mode, formatting [<p>A</p><ul><li>x</li></ul><p>B</p>]
    leaves no [<br>] immediately before [<ul>] and exactly one [<br>]
    immediately after [</ul>]; formatting the result again returns it
    unchanged, so no further [<br>] is added. *)
Theorem formatReplyHtml_list_block_stable :
  let out := formatReplyHtml "<p>A</p><ul><li>x</li></ul><p>B</p>" false in
  out = "A<ul><li>x</li></ul><br>B"
  /\ count_sub "<br><ul>" out = 0%nat
  /\ count_sub "</ul><br>" out = 1%nat
  /\ count_sub "</ul><br><br>" out = 0%nat
  /\ formatReplyHtml out false = out
  /\ count_sub "<br>" (formatReplyHtml out false) = count_sub "<br>" out.
Proof. vm_compute. repeat split; reflexivity. Qed.

(** ** The draft gate of createReply *)

Lemma createReply_refused config post input :
  reply_draft input = false ->
  allowSendReply config = false ->
  exists message suggestion,
    createReply config post input
    = ([], Fulfilled (ReplyRefused "Published replies are disabled"
                        message suggestion)).
Proof.
  intros Hd Ha. unfold createReply. rewrite Hd, Ha. simpl. eauto.
Qed.

Lemma createReply_sent config post input :
  reply_draft input = false ->
  allowSendReply config = true ->
  exists body,
    fst (createReply config post input)
    = [{| req_path :=
            "/conversations/" +:+ reply_conversationId input +:+ "/reply";
          req_body := body |}]
    /\ body_draft body = false
    /\ body_text body = formatReplyHtml (reply_text input) (compactReplies config)
    /\ body_customer body = reply_customer input.
Proof.
  intros Hd Ha. unfold createReply. rewrite Hd, Ha. simpl.
  eexists. split; [reflexivity|]. simpl. auto.
Qed.

(** C5.  A [createReply] call with [draft: false]: when
    [HELPSCOUT_ALLOW_SEND_REPLY] is not set (or set to anything but
    [true]), the call is refused with the error "Published replies are
    disabled" and no request is issued; when it is set to [true],
    exactly one request reaches the network layer, the POST to the reply
    endpoint of the conversation, with [draft: false] in its body. *)
Theorem createReply_draft_gate getenv post input :
  reply_draft input = false ->
  let config := config_of_env getenv in
  (getenv "HELPSCOUT_ALLOW_SEND_REPLY" <> Some "true" ->
   exists message suggestion,
     createReply config post input
     = ([], Fulfilled (ReplyRefused "Published replies are disabled"
                         message suggestion)))
  /\ (getenv "HELPSCOUT_ALLOW_SEND_REPLY" = Some "true" ->
      exists body,
        fst (createReply config post input)
        = [{| req_path :=
                "/conversations/" +:+ reply_conversationId input +:+ "/reply";
              req_body := body |}]
        /\ body_draft body = false).
Proof.
  intros Hd config. split; intros Henv.
  - apply createReply_refused; [exact Hd|].
    unfold config, config_of_env, env_is_true. simpl.
    destruct (getenv "HELPSCOUT_ALLOW_SEND_REPLY") as [v|]; [|reflexivity].
    destruct (String.eqb_spec v "true"); [subst; contradiction|reflexivity].
  - destruct (createReply_sent config post input Hd) as (body & H1 & H2 & _).
    + unfold config, config_of_env, env_is_true. simpl. rewrite Henv.
      reflexivity.
    + exists body. auto.
Qed.

Lemma createReply_draft_gate_witness :
  reply_draft example_reply = false
  /\ exists body,
       fst (createReply
              (config_of_env (fun x =>
                 if String.eqb x "HELPSCOUT_ALLOW_SEND_REPLY"
                 then Some "true" else None))
              (fun _ _ => Fulfilled (Some "88888")) example_reply)
       = [{| req_path := "/conversations/12345/reply"; req_body := body |}]
       /\ body_draft body = false.
Proof.
  split; [reflexivity|].
  apply (createReply_draft_gate
           (fun x => if String.eqb x "HELPSCOUT_ALLOW_SEND_REPLY"
                     then Some "true" else None)
           (fun _ _ => Fulfilled (Some "88888")) example_reply);
    reflexivity.
Defined.

(** ** The validation gate of the dispatcher *)

(** C6.  When the arguments of a tool call fail constraint validation,
    the dispatcher issues no network request, leaves the call history
    unchanged and returns (rather than throws) an ordinary tool result
    that carries the errors, the suggestions and the prerequisite tool
    names of the validation; for a [createReply] call with the
    conversation id ["abc"] the errors include
    "Invalid conversation ID format". *)
Theorem callTool_validation_gate
    validateToolCall generateToolGuidance createMcpToolError runTool st request :
  isValid (validateToolCall (context_of st request)) = false ->
  let validation := validateToolCall (context_of st request) in
  callTool validateToolCall generateToolGuidance createMcpToolError runTool
    st request
  = ([], validation_failed validation, st)
  /\ isError (validation_failed validation) = false
  /\ result_errors (validation_failed validation)
     = map JStr (val_errors validation)
  /\ result_suggestions (validation_failed validation)
     = map JStr (val_suggestions validation)
  /\ result_requiredActions (validation_failed validation)
     = map JStr (default [] (requiredPrerequisites validation))
  /\ (forall text customer,
        exists result,
          callTool spec_validateToolCall generateToolGuidance
            createMcpToolError runTool st (reply_request "abc" text customer)
          = ([], result, st)
          /\ isError result = false
          /\ In (JStr "Invalid conversation ID format") (result_errors result)).
Proof.
  intros Hv validation. repeat split.
  - unfold callTool. fold (context_of st request). rewrite Hv. reflexivity.
  - intros text customer. eexists. split; [|split].
    + unfold callTool. reflexivity.
    + reflexivity.
    + vm_compute. left. reflexivity.
Qed.

Lemma callTool_validation_gate_witness :
  let st := {| callHistory := []; currentUserQuery := None |} in
  let request := reply_request "abc" (JStr "<p>Test</p>")
                   (JObj [("id", JNum 1)]) in
  let runTool := fun _ : ToolRequest =>
    ([] : list NetRequest, Rejected (OtherError "not reached")
          : Settled ToolResult) in
  isValid (spec_validateToolCall (context_of st request)) = false
  /\ fst (fst (callTool spec_validateToolCall (fun _ _ _ => [])
                 (fun e _ => {| content := JNull; isError := true |})
                 runTool st request)) = [].
Proof.
  intros st request runTool. split; [reflexivity|].
  destruct (callTool_validation_gate spec_validateToolCall (fun _ _ _ => [])
              (fun e _ => {| content := JNull; isError := true |})
              runTool st request) as (H & _); [reflexivity|].
  rewrite H. reflexivity.
Defined.
(** ** Auto-pagination against a paging upstream *)

Lemma firstn_succ_page {A} (P k : nat) (all : list A) :
  (firstn (k * P) all ++ firstn P (skipn (k * P) all))%list
  = firstn ((k + 1) * P) all.
Proof.
  rewrite <- (firstn_skipn (k * P) (firstn ((k + 1) * P) all)).
  rewrite firstn_firstn, skipn_firstn_comm.
  f_equal; f_equal; lia.
Qed.

Lemma fetch_pages_loop_paged {A} (P : nat) (all : list A) (N : Z) :
  forall (left k : nat) (hasMore : bool),
    (hasMore = false -> (length all <= k * P)%nat) ->
    (hasMore = true -> k = 0%nat \/ (k * P < length all)%nat) ->
    N <= Z.of_nat ((k + left) * P) ->
    exists k' : nat,
      fetch_pages_loop (fun page => Fulfilled (serve_page P all page)) N left
        (firstn (k * P) all) (if (k =? 0)%nat then 0 else len all)
        (Z.of_nat k + 1) hasMore
      = Fulfilled (firstn (k' * P) all, if (k' =? 0)%nat then 0 else len all)
      /\ firstn (Z.to_nat N) (firstn (k' * P) all) = firstn (Z.to_nat N) all
      /\ (k <= k')%nat
      /\ ((k < k')%nat ->
          Z.of_nat ((k' - 1) * P) < N
          /\ (k' = 1%nat \/ ((k' - 1) * P < length all)%nat)).
Proof.
  induction left as [|left IH]; intros k hasMore Hf Ht HN.
  - exists k. simpl. split; [reflexivity|]. split; [|split; [lia|lia]].
    rewrite firstn_firstn. f_equal. lia.
  - simpl.
    destruct (len (firstn (k * P) all) <? N) eqn:Hlen; simpl.
    + destruct hasMore; simpl.
      * (* fetch page k+1 *)
        replace (Z.to_nat (Z.of_nat k + 1 - 1)) with k by lia.
        rewrite firstn_succ_page.
        assert (Hk : (Z.of_nat k + 1 + 1) = Z.of_nat (k + 1) + 1) by lia.
        rewrite Hk.
        assert (Htot : num_or (Some (len all)) (if (k =? 0)%nat then 0 else len all)
                       = if (k + 1 =? 0)%nat then 0 else len all).
        { replace (k + 1 =? 0)%nat with false by (symmetry; apply Nat.eqb_neq; lia).
          unfold num_or. destruct (len all =? 0) eqn:E.
          - apply Z.eqb_eq in E. destruct (k =? 0)%nat; lia.
          - reflexivity. }
        unfold num_or in Htot. rewrite Htot.
        destruct (IH (k + 1)%nat (Z.of_nat (k * P + P) <? len all))
          as (k' & Heq & Hfirst & Hle & Hneed).
        { intros H. apply Z.ltb_ge in H. unfold len in H. lia. }
        { intros H. apply Z.ltb_lt in H. unfold len in H. right. lia. }
        { replace ((k + 1 + left) * P)%nat with ((k + S left) * P)%nat by lia.
          exact HN. }
        exists k'. split; [exact Heq|]. split; [exact Hfirst|]. split; [lia|].
        intros _. destruct (Nat.eq_dec k' (k + 1)%nat) as [->|Hne].
        -- replace (k + 1 - 1)%nat with k by lia.
           apply Z.ltb_lt in Hlen. unfold len in Hlen.
           rewrite length_firstn in Hlen.
           destruct (Ht eq_refl) as [->|Hlt].
           ++ simpl in *. split; [lia|]. left. reflexivity.
           ++ split; [lia|]. right. exact Hlt.
        -- apply Hneed. lia.
      * exists k. split; [reflexivity|]. split; [|split; [lia|lia]].
        specialize (Hf eq_refl).
        rewrite (firstn_all2 all) by lia. reflexivity.
    + exists k. split; [reflexivity|]. split; [|split; [lia|lia]].
      apply Z.ltb_ge in Hlen. unfold len in Hlen.
      rewrite length_firstn in Hlen.
      rewrite firstn_firstn. f_equal. lia.
Qed.

Lemma enough_pages (P : nat) (N : Z) :
  (23 <= P)%nat -> 1 <= N <= 200 ->
  N <= Z.of_nat ((0 + Z.to_nat (num_or None (ceil_div25 N + 1))) * P).
Proof.
  intros HP HN. unfold num_or, ceil_div25.
  pose proof (Z.div_mod (- N) 25 ltac:(lia)) as Hdm.
  pose proof (Z.mod_pos_bound (- N) 25 ltac:(lia)) as Hb.
  set (q := - N / 25) in *.
  assert (Hq : -8 <= q <= -1) by lia.
  rewrite Nat.add_0_l, Nat2Z.inj_mul, Z2Nat.id by lia.
  nia.
Qed.

Lemma fetchConversationPages_paged (P : nat) db params (N : Z) :
  (23 <= P)%nat -> 1 <= N <= 200 ->
  let all := db (p_status params) in
  exists pages : nat,
    fetchConversationPages (paged_upstream P db) params N None
    = Fulfilled (firstn (pages * P) all, len all)
    /\ firstn (Z.to_nat N) (firstn (pages * P) all) = firstn (Z.to_nat N) all
    /\ ((0 < pages)%nat ->
        Z.of_nat ((pages - 1) * P) < N
        /\ (pages = 1%nat \/ ((pages - 1) * P < length all)%nat)).
Proof.
  intros HP HN all.
  destruct (fetch_pages_loop_paged P all N
              (Z.to_nat (num_or None (ceil_div25 N + 1))) 0 true)
    as (pages & Heq & Hfirst & _ & Hneed).
  - discriminate.
  - auto.
  - apply enough_pages; assumption.
  - exists pages. split; [|split; [exact Hfirst|exact Hneed]].
    unfold fetchConversationPages.
    change (fun page => paged_upstream P db (with_page params page))
      with (fun page => Fulfilled (serve_page P all page)).
    etransitivity; [exact Heq|]. f_equal. f_equal.
    destruct pages; [|reflexivity].
    simpl in Hfirst. destruct all; [reflexivity|].
    destruct (Z.to_nat N) eqn:E; [lia|discriminate].
Qed.

Lemma render_ids verbose l : map out_id (render verbose l) = map conv_id l.
Proof.
  unfold render. destruct verbose; rewrite map_map; reflexivity.
Qed.

Lemma render_length verbose l : length (render verbose l) = length l.
Proof. unfold render. destruct verbose; apply length_map. Qed.

Lemma NoDup_map_firstn {A B} (f : A -> B) (n : nat) (l : list A) :
  NoDup (map f l) -> NoDup (map f (firstn n l)).
Proof.
  intros H. rewrite <- (firstn_skipn n l), map_app in H.
  apply NoDup_app in H. tauto.
Qed.

Lemma limit_or_default_id input :
  1 <= in_limit input -> limit_or_default input = in_limit input.
Proof.
  intros H. unfold limit_or_default, num_or.
  destruct (in_limit input =? 0) eqn:E; [apply Z.eqb_eq in E; lia|reflexivity].
Qed.

Lemma slice_or_keep {A} (n : Z) (l : list A) :
  (if n <? len l then slice0 n l else l) = firstn (Z.to_nat n) l.
Proof.
  unfold slice0, len. destruct (n <? Z.of_nat (length l)) eqn:E; [reflexivity|].
  apply Z.ltb_ge in E. rewrite firstn_all2 by lia. reflexivity.
Qed.

Lemma appendCreatedAtFilter_none q :
  appendCreatedAtFilter q None None = Fulfilled q.
Proof. reflexivity. Qed.

Lemma appendCreatedAtFilter_after_ok q createdAfter :
  rx_test isoDatePattern createdAfter = true ->
  exists q', appendCreatedAtFilter q (Some createdAfter) None = Fulfilled q'.
Proof.
  intros H. unfold appendCreatedAtFilter. simpl default. rewrite H. simpl.
  destruct (negb (String.eqb createdAfter EmptyString)); simpl; [|eauto].
  destruct (negb (truthy q)); eauto.
Qed.

Lemma list_single_status_paged `{JsDate} (P : nat) db config input verbose status :
  (23 <= P)%nat -> 1 <= in_limit input <= 200 ->
  in_status input = Some status -> in_statuses input = None ->
  in_createdAfter input = None -> in_createdBefore input = None ->
  let all := db (Some (status_name status)) in
  exists r,
    searchConversationsList config (paged_upstream P db) input verbose
    = Fulfilled r
    /\ li_results r = render verbose (firstn (Z.to_nat (in_limit input)) all)
    /\ li_pagination r
       = Some {| returned := Some (Z.min (in_limit input) (len all));
                 totalResults := None;
                 totalAvailable := Some (len all);
                 totalElements := None; errors := None; note := None |}.
Proof.
  intros HP HN Hs Hss Ha Hb all.
  unfold searchConversationsList, list_createdBefore.
  rewrite Ha, Hs, Hss, Hb, appendCreatedAtFilter_none.
  rewrite limit_or_default_id by lia. cbn [and_then].
  match goal with
  | |- context [fetchConversationPages _ ?q _ _] =>
      destruct (fetchConversationPages_paged P db q (in_limit input) HP HN)
        as (pages & Heq & Hfirst & _)
  end.
  cbn [with_status p_status] in Heq, Hfirst. fold all in Heq, Hfirst.
  rewrite Heq. cbn [and_then truthy]. unfold slice0. rewrite Hfirst.
  eexists. split; [reflexivity|]. cbn [li_results li_pagination].
  split; [reflexivity|].
  unfold len. rewrite length_firstn. repeat f_equal. lia.
Qed.

Lemma keyword_single_status_paged `{JsDate} (P : nat) db status searchQuery
    createdAfter (N : Z) inboxId verbose :
  (23 <= P)%nat -> 1 <= N <= 200 ->
  rx_test isoDatePattern createdAfter = true ->
  let all := db (Some (status_name status)) in
  searchSingleStatus (paged_upstream P db) status searchQuery createdAfter N
    inboxId None verbose
  = Fulfilled {| sr_status := status;
                 sr_totalCount := len all;
                 sr_conversations := render verbose (firstn (Z.to_nat N) all) |}.
Proof.
  intros HP HN Hiso all. unfold searchSingleStatus.
  destruct (appendCreatedAtFilter_after_ok (Some searchQuery) createdAfter Hiso)
    as (q' & ->).
  cbn [and_then].
  match goal with
  | |- context [fetchConversationPages _ ?q _ _] =>
      destruct (fetchConversationPages_paged P db q N HP HN)
        as (pages & Heq & Hfirst & _)
  end.
  cbn [p_status] in Heq, Hfirst. fold all in Heq, Hfirst.
  rewrite Heq. cbn [and_then truthy]. rewrite slice_or_keep, Hfirst.
  reflexivity.
Qed.

(** ** Sorting *)

Lemma sort_insert_perm {A} (cmp : A -> A -> option Z) x l :
  Permutation (sort_insert cmp x l) (x :: l).
Proof.
  induction l as [|y l IH]; simpl; [reflexivity|].
  destruct (SortCompare cmp x y <=? 0); [reflexivity|].
  rewrite IH. apply perm_swap.
Qed.

Lemma Array_sort_perm {A} (cmp : A -> A -> option Z) l :
  Permutation (Array_sort cmp l) l.
Proof.
  induction l as [|x l IH]; simpl; [reflexivity|].
  rewrite sort_insert_perm. constructor. exact IH.
Qed.

Lemma sort_insert_ext {A} (cmp1 cmp2 : A -> A -> option Z) x l :
  (forall b, In b l -> cmp1 x b = cmp2 x b) ->
  sort_insert cmp1 x l = sort_insert cmp2 x l.
Proof.
  induction l as [|y l IH]; intros H; simpl; [reflexivity|].
  unfold SortCompare. rewrite (H y) by (left; reflexivity).
  destruct (match cmp2 x y with Some v => v | None => 0 end <=? 0);
    [reflexivity|].
  f_equal. apply IH. intros b Hb. apply H. right. exact Hb.
Qed.

Lemma Array_sort_ext {A} (cmp1 cmp2 : A -> A -> option Z) l :
  (forall a b, In a l -> In b l -> cmp1 a b = cmp2 a b) ->
  Array_sort cmp1 l = Array_sort cmp2 l.
Proof.
  induction l as [|x l IH]; intros H; simpl; [reflexivity|].
  rewrite IH by (intros a b Ha Hb; apply H; right; assumption).
  apply sort_insert_ext. intros b Hb. apply H; [left; reflexivity|].
  right. eapply Permutation_in; [apply Array_sort_perm|exact Hb].
Qed.

Lemma sort_insert_HdRel {A} (key : A -> Z) x y l :
  key_le key y x -> HdRel (key_le key) y l ->
  HdRel (key_le key) y (sort_insert (key_cmp key) x l).
Proof.
  intros Hyx Hy. destruct l as [|z l]; simpl; [constructor; exact Hyx|].
  destruct (SortCompare (key_cmp key) x z <=? 0); constructor; [exact Hyx|].
  inversion Hy; assumption.
Qed.

Lemma sort_insert_sorted {A} (key : A -> Z) x l :
  Sorted (key_le key) l -> Sorted (key_le key) (sort_insert (key_cmp key) x l).
Proof.
  induction l as [|y l IH]; intros Hs; simpl.
  - repeat constructor.
  - destruct (SortCompare (key_cmp key) x y <=? 0) eqn:E.
    + constructor; [exact Hs|]. constructor.
      apply Z.leb_le in E. unfold SortCompare, key_cmp in E.
      unfold key_le. lia.
    + inversion Hs as [|? ? Hs' Hhd]; subst.
      constructor; [apply IH; exact Hs'|].
      apply sort_insert_HdRel; [|exact Hhd].
      apply Z.leb_gt in E. unfold SortCompare, key_cmp in E.
      unfold key_le. lia.
Qed.

Lemma Array_sort_sorted {A} (key : A -> Z) l :
  StronglySorted (key_le key) (Array_sort (key_cmp key) l).
Proof.
  apply Sorted_StronglySorted.
  - intros a b c. unfold key_le. lia.
  - induction l as [|x l IH]; simpl; [constructor|].
    apply sort_insert_sorted. exact IH.
Qed.

Lemma StronglySorted_firstn {A} (R : A -> A -> Prop) n l :
  StronglySorted R l -> StronglySorted R (firstn n l).
Proof.
  revert n. induction l as [|x l IH]; intros n Hs; destruct n; simpl;
    try constructor.
  - apply IH. inversion Hs; assumption.
  - inversion Hs as [|? ? _ Hall]; subst.
    rewrite List.Forall_forall in *. intros y Hy. apply Hall.
    rewrite <- (firstn_skipn n l). apply in_or_app. left. exact Hy.
Qed.

Lemma StronglySorted_filter {A} (R : A -> A -> Prop) f l :
  StronglySorted R l -> StronglySorted R (List.filter f l).
Proof.
  induction l as [|x l IH]; intros Hs; simpl; [constructor|].
  inversion Hs as [|? ? Hs' Hall]; subst.
  destruct (f x); [|apply IH; exact Hs'].
  constructor; [apply IH; exact Hs'|].
  rewrite List.Forall_forall in *. intros y Hy.
  apply List.filter_In in Hy. apply Hall. tauto.
Qed.

Lemma StronglySorted_map {A B} (R : A -> A -> Prop) (R' : B -> B -> Prop)
    (f : A -> B) l :
  (forall a b, R a b -> R' (f a) (f b)) ->
  StronglySorted R l -> StronglySorted R' (map f l).
Proof.
  intros HR. induction 1 as [|x l Hs IH Hall]; simpl; constructor.
  - exact IH.
  - rewrite List.Forall_forall in *. intros y Hy.
    apply List.in_map_iff in Hy. destruct Hy as (a & <- & Ha). auto.
Qed.

Lemma StronglySorted_weaken_in {A} (R R' : A -> A -> Prop) l :
  (forall a b, In a l -> In b l -> R a b -> R' a b) ->
  StronglySorted R l -> StronglySorted R' l.
Proof.
  intros HR Hs. induction Hs as [|x l Hs IH Hall]; constructor.
  - apply IH. intros a b Ha Hb. apply HR; right; assumption.
  - rewrite List.Forall_forall in *. intros y Hy.
    apply HR; [left; reflexivity|right; exact Hy|]. auto.
Qed.

Lemma sumZ_acc l a : fold_left Z.add l a = a + sumZ l.
Proof.
  unfold sumZ. revert a. induction l as [|x l IH]; intros a; simpl; [lia|].
  rewrite IH, (IH (0 + x)). lia.
Qed.

Lemma sumZ_cons x l : sumZ (x :: l) = x + sumZ l.
Proof. unfold sumZ at 1. simpl. rewrite sumZ_acc. lia. Qed.

Lemma sumZ_app l1 l2 : sumZ (l1 ++ l2) = sumZ l1 + sumZ l2.
Proof.
  induction l1 as [|x l1 IH]; simpl; [reflexivity|].
  rewrite !sumZ_cons, IH. lia.
Qed.

(** ** The seenIds loop *)

Lemma push_unseen_app seen convs l1 l2 :
  push_unseen seen convs (l1 ++ l2)
  = push_unseen (push_unseen seen convs l1).1 (push_unseen seen convs l1).2 l2.
Proof.
  revert seen convs. induction l1 as [|c l1 IH]; intros seen convs; simpl;
    [reflexivity|].
  destruct (decide (conv_id c ∈ seen)); apply IH.
Qed.

Lemma push_unseen_spec batch : forall seen convs,
  (forall x, x ∈ seen <-> x ∈ map conv_id convs) ->
  NoDup (map conv_id convs) ->
  let r := push_unseen seen convs batch in
  (forall x, x ∈ r.1 <-> x ∈ map conv_id r.2)
  /\ NoDup (map conv_id r.2)
  /\ (exists added,
        r.2 = convs ++ added
        /\ (forall c, c ∈ added -> c ∈ batch)
        /\ (length added <= length batch)%nat)
  /\ (forall c, c ∈ batch -> conv_id c ∈ map conv_id r.2).
Proof.
  induction batch as [|c batch IH]; intros seen convs Hseen Hnd; simpl.
  - split; [exact Hseen|]. split; [exact Hnd|]. split.
    + exists []. rewrite app_nil_r. split; [reflexivity|].
      split; [intros c Hc; inversion Hc|simpl; lia].
    + intros c Hc. inversion Hc.
  - destruct (decide (conv_id c ∈ seen)) as [Hin|Hnin].
    + destruct (IH seen convs Hseen Hnd) as (H1 & H2 & (added & Ha & Hb & Hc) & H4).
      split; [exact H1|]. split; [exact H2|]. split.
      * exists added. split; [exact Ha|]. split; [|lia].
        intros c' Hc'. right. auto.
      * intros c' Hc'. apply elem_of_cons in Hc'. destruct Hc' as [->|Hc'].
        -- rewrite Ha, map_app. apply elem_of_app. left.
           apply Hseen. exact Hin.
        -- auto.
    + destruct (IH (seen ∪ {[conv_id c]}) (convs ++ [c]))
        as (H1 & H2 & (added & Ha & Hb & Hc) & H4).
      * intros x. rewrite map_app, elem_of_app, elem_of_union, Hseen. simpl.
        rewrite elem_of_singleton, list_elem_of_singleton. reflexivity.
      * rewrite map_app. apply NoDup_app. split; [exact Hnd|]. split.
        -- intros x Hx Hx'. simpl in Hx'. apply list_elem_of_singleton in Hx'.
           subst x. apply Hnin. apply Hseen. exact Hx.
        -- simpl. apply NoDup_singleton.
      * split; [exact H1|]. split; [exact H2|]. split.
        -- exists (c :: added). rewrite Ha, <- app_assoc. split; [reflexivity|].
           split; [|simpl; lia].
           intros c' Hc'. apply elem_of_cons in Hc'. destruct Hc' as [->|Hc'].
           ++ left.
           ++ right. auto.
        -- intros c' Hc'. apply elem_of_cons in Hc'. destruct Hc' as [->|Hc'].
           ++ rewrite Ha, map_app, map_app. apply elem_of_app. left.
              apply elem_of_app. right. simpl. left.
           ++ auto.
Qed.

Lemma dedup_by_id_spec l :
  NoDup (map conv_id (dedup_by_id l))
  /\ (forall c, c ∈ dedup_by_id l -> c ∈ l)
  /\ (forall c, c ∈ l -> conv_id c ∈ map conv_id (dedup_by_id l))
  /\ (length (dedup_by_id l) <= length l)%nat.
Proof.
  destruct (push_unseen_spec l ∅ []) as (_ & H2 & (added & Ha & Hb & Hc) & H4).
  - intros x. simpl. split; intros Hx.
    + apply not_elem_of_empty in Hx. contradiction.
    + inversion Hx.
  - simpl. constructor.
  - unfold dedup_by_id. split; [exact H2|]. split; [|split; [exact H4|]].
    + intros c. rewrite Ha. simpl. auto.
    + rewrite Ha. simpl. exact Hc.
Qed.

(** ** The join of listing mode *)

Lemma merge_statuses_spec results : forall st,
  merge_statuses results st
  = match first_fatal results with
    | Some e => Rejected e
    | None =>
        let r := push_unseen (ms_seenIds st) (ms_conversations st)
                   (fulfilled_records results) in
        Fulfilled
          {| ms_seenIds := r.1;
             ms_conversations := r.2;
             ms_failedStatuses := ms_failedStatuses st ++ failures results;
             ms_totalAvailable :=
               ms_totalAvailable st
               + sumZ (map snd (fulfilled_values results)) |}
    end.
Proof.
  induction results as [|[s [v|e]] results IH]; intros st.
  - simpl. destruct st; simpl. rewrite app_nil_r. unfold sumZ. simpl.
    rewrite Z.add_0_r. reflexivity.
  - simpl.
    destruct (push_unseen (ms_seenIds st) (ms_conversations st) v.1)
      as [seen' convs'] eqn:E.
    rewrite IH. destruct (first_fatal results); [reflexivity|].
    cbn [ms_seenIds ms_conversations ms_failedStatuses ms_totalAvailable].
    unfold fulfilled_records. simpl. rewrite push_unseen_app.
    fold (fulfilled_records results). rewrite E. simpl.
    rewrite sumZ_cons, Z.add_assoc. reflexivity.
  - cbn [merge_statuses first_fatal fulfilled_values failures].
    destruct e as [c m|m]; [|reflexivity].
    destruct c; try reflexivity; simpl;
      rewrite IH; destruct (first_fatal results); try reflexivity;
      cbn [ms_seenIds ms_conversations ms_failedStatuses ms_totalAvailable];
      rewrite <- app_assoc; reflexivity.
Qed.

(** ** Merged results: order, identity, membership *)

Lemma newest_first_by_key `{JsDate} l :
  all_dated l ->
  Array_sort newest_first l
  = Array_sort (key_cmp (fun c => - time_of (conv_createdAt c))) l.
Proof.
  intros Hd. apply Array_sort_ext. intros a b Ha Hb.
  unfold all_dated in Hd. rewrite List.Forall_forall in Hd.
  destruct (Hd a Ha) as [ta Hta]. destruct (Hd b Hb) as [tb Htb].
  unfold newest_first, key_cmp, time_of. rewrite Hta, Htb. simpl.
  f_equal. lia.
Qed.

Lemma newest_first_sorted `{JsDate} l :
  all_dated l ->
  StronglySorted (fun a b => not_older (conv_createdAt a) (conv_createdAt b))
    (Array_sort newest_first l).
Proof.
  intros Hd. rewrite newest_first_by_key by exact Hd.
  eapply StronglySorted_weaken_in; [|apply Array_sort_sorted].
  intros a b Ha Hb Hle.
  assert (Hin : forall c,
             In c (Array_sort (key_cmp (fun c => - time_of (conv_createdAt c))) l)
             -> In c l).
  { intros c. apply Permutation_in. apply Array_sort_perm. }
  unfold all_dated in Hd. rewrite List.Forall_forall in Hd.
  destruct (Hd a (Hin a Ha)) as [ta Hta].
  destruct (Hd b (Hin b Hb)) as [tb Htb].
  exists ta, tb. split; [exact Hta|]. split; [exact Htb|].
  unfold key_le, time_of in Hle. rewrite Hta, Htb in Hle. simpl in Hle. lia.
Qed.

Lemma all_dated_sub `{JsDate} l l' :
  (forall c, In c l' -> In c l) -> all_dated l -> all_dated l'.
Proof.
  unfold all_dated. rewrite !List.Forall_forall. auto.
Qed.

Lemma In_dedup l c : In c (dedup_by_id l) -> In c l.
Proof.
  intros Hc. apply list_elem_of_In. apply dedup_by_id_spec.
  apply list_elem_of_In. exact Hc.
Qed.

Lemma merged_newest_first_spec `{JsDate} limit results :
  let kept := merged_newest_first limit results in
  NoDup (map conv_id kept)
  /\ (forall c, In c kept -> In c (fulfilled_records results))
  /\ (forall c, In c (fulfilled_records results) ->
        In (conv_id c) (map conv_id kept) \/ limit <= len kept)
  /\ (len kept <= limit \/ limit < 0)
  /\ (length kept <= length (fulfilled_records results))%nat
  /\ (all_dated (fulfilled_records results) ->
      StronglySorted
        (fun a b => not_older (conv_createdAt a) (conv_createdAt b)) kept).
Proof.
  intros kept. unfold kept, merged_newest_first.
  set (records := fulfilled_records results).
  set (sorted := Array_sort newest_first (dedup_by_id records)).
  destruct (dedup_by_id_spec records) as (Hnd & Hfrom & Hall & Hlen).
  assert (Hperm : Permutation sorted (dedup_by_id records))
    by apply Array_sort_perm.
  split; [|split; [|split; [|split; [|split]]]].
  - apply NoDup_map_firstn.
    rewrite (Permutation_map conv_id Hperm). exact Hnd.
  - intros c Hc. apply In_dedup. eapply Permutation_in; [exact Hperm|].
    rewrite <- (firstn_skipn (Z.to_nat limit) sorted).
    apply in_or_app. left. exact Hc.
  - intros c Hc.
    destruct (Z_lt_le_dec (len (firstn (Z.to_nat limit) sorted)) limit)
      as [Hlt|Hge]; [left|right; exact Hge].
    unfold len in Hlt. rewrite length_firstn in Hlt.
    rewrite firstn_all2 by lia.
    apply list_elem_of_In in Hc. apply Hall in Hc.
    apply list_elem_of_In in Hc.
    eapply Permutation_in; [|exact Hc].
    symmetry. apply Permutation_map. exact Hperm.
  - unfold len. rewrite length_firstn. lia.
  - rewrite length_firstn.
    pose proof (Permutation_length Hperm). lia.
  - intros Hd. apply StronglySorted_firstn. apply newest_first_sorted.
    eapply all_dated_sub; [|exact Hd]. apply In_dedup.
Qed.

(** ** Listing mode over several statuses *)

Lemma multi_branch input :
  (in_status input = None \/ in_statuses input <> None) ->
  forall A (x : Status -> A) (y : A),
    match in_status input, in_statuses input with
    | Some status, None => x status
    | _, _ => y
    end = y.
Proof.
  intros [H|H] A x y.
  - rewrite H. reflexivity.
  - destruct (in_status input); [|reflexivity].
    destruct (in_statuses input); [reflexivity|contradiction].
Qed.

Lemma searchConversationsList_multi `{JsDate} config api input verbose
    queryWithDate :
  (in_status input = None \/ in_statuses input <> None) ->
  appendCreatedAtFilter (list_query input) (in_createdAfter input) None
  = Fulfilled queryWithDate ->
  let statuses := statuses_or_default input in
  let limit := limit_or_default input in
  let results := list_fetches config api input queryWithDate in
  searchConversationsList config api input verbose
  = match first_fatal results with
    | Some e => Rejected e
    | None =>
        let kept := merged_newest_first limit results in
        list_createdBefore input verbose kept
          (match failures results with
           | [] => statuses
           | failed => without_failed statuses failed
           end)
          {| returned := Some (len kept);
             totalResults := None;
             totalAvailable := Some (sumZ (map snd (fulfilled_values results)));
             totalElements := None;
             errors := match failures results with
                       | [] => None
                       | failed => Some failed
                       end;
             note := None |}
    end.
Proof.
  intros Hmulti Ha statuses limit results.
  unfold searchConversationsList. fold (list_query input).
  rewrite Ha. cbn [and_then].
  rewrite multi_branch by exact Hmulti.
  fold (list_fetch config api input queryWithDate).
  fold (list_fetches config api input queryWithDate). fold results.
  rewrite merge_statuses_spec.
  destruct (first_fatal results); [reflexivity|].
  cbn [and_then ms_conversations ms_failedStatuses ms_totalAvailable
       ms_seenIds merge_start app].
  fold (dedup_by_id (fulfilled_records results)).
  rewrite slice_or_keep. fold limit.
  fold (merged_newest_first limit results).
  rewrite Z.add_0_l.
  destruct (failures results); reflexivity.
Qed.

Lemma list_createdBefore_none `{JsDate} input verbose convs statuses pg :
  in_createdBefore input = None ->
  list_createdBefore input verbose convs statuses pg
  = Fulfilled {| li_results := render verbose convs;
                 li_pagination := Some pg;
                 li_query := list_query input;
                 li_statuses := statuses;
                 li_clientSideFiltering := false |}.
Proof. intros Hb. unfold list_createdBefore. rewrite Hb. reflexivity. Qed.

(** ** Joins with a single failing branch *)

Lemma allSettled_all_fulfilled {B} (fetch : Status -> Settled B) statuses :
  (forall s, In s statuses -> exists v, fetch s = Fulfilled v) ->
  failures (allSettled fetch statuses) = []
  /\ first_fatal (allSettled fetch statuses) = None.
Proof.
  induction statuses as [|s statuses IH]; intros Hall; simpl; [auto|].
  destruct (Hall s) as [v Hv]; [left; reflexivity|]. rewrite Hv.
  apply IH. intros s' Hs'. apply Hall. right. exact Hs'.
Qed.

Lemma allSettled_one_failure {B} (fetch : Status -> Settled B) statuses f e :
  NoDup statuses -> In f statuses ->
  fetch f = Rejected e ->
  (forall s, In s statuses -> s <> f -> exists v, fetch s = Fulfilled v) ->
  failures (allSettled fetch statuses) = [failure_entry f e]
  /\ first_fatal (allSettled fetch statuses)
     = (if fatal e then Some e else None).
Proof.
  induction statuses as [|s statuses IH]; intros Hnd Hin Hf Hothers;
    [inversion Hin|].
  apply NoDup_cons in Hnd. destruct Hnd as [Hnotin Hnd].
  destruct (decide (s = f)) as [->|Hne].
  - simpl. rewrite Hf.
    destruct (allSettled_all_fulfilled fetch statuses) as [Hfail Hfat].
    { intros s Hs. apply Hothers; [right; exact Hs|].
      intros ->. apply Hnotin. apply list_elem_of_In. exact Hs. }
    rewrite Hfail, Hfat. split; [reflexivity|]. destruct (fatal e); reflexivity.
  - destruct Hin as [Heq|Hin]; [contradiction|].
    destruct (Hothers s) as [v Hv]; [left; reflexivity|exact Hne|].
    simpl. rewrite Hv. apply IH; auto.
    intros s' Hs'. apply Hothers. right. exact Hs'.
Qed.

Lemma In_allSettled {A B} (f : A -> Settled B) l a r :
  In (a, r) (allSettled f l) <-> In a l /\ r = f a.
Proof.
  unfold allSettled. rewrite List.in_map_iff. split.
  - intros (x & Heq & Hx). inversion Heq; subst. auto.
  - intros [Ha ->]. exists a. auto.
Qed.

Lemma one_failure_results {B} (fetch : Status -> Settled B) statuses f e :
  let results := allSettled fetch statuses in
  NoDup statuses ->
  In (f, Rejected e) results ->
  (forall s r, In (s, r) results -> s <> f -> exists v, r = Fulfilled v) ->
  failures results = [failure_entry f e]
  /\ first_fatal results = (if fatal e then Some e else None).
Proof.
  intros results Hnd Hfail Hothers.
  apply In_allSettled in Hfail. destruct Hfail as [Hin Hf].
  apply allSettled_one_failure; auto.
  intros s Hs Hne. apply (Hothers s (fetch s)); [|exact Hne].
  apply In_allSettled. auto.
Qed.

Lemma without_failed_one statuses f e :
  without_failed statuses [failure_entry f e]
  = List.filter (fun s => negb (bool_decide (s = f))) statuses.
Proof.
  unfold without_failed. apply List.filter_ext. intros s. simpl.
  rewrite orb_false_r. f_equal. apply bool_decide_ext. split; auto.
Qed.

Lemma In_fulfilled_records {K} (results : list (K * Settled (list Conversation * Z))) c :
  In c (fulfilled_records results)
  <-> exists k l t, In (k, Fulfilled (l, t)) results /\ In c l.
Proof.
  unfold fulfilled_records.
  induction results as [|[k [[l t]|e]] results IH]; simpl.
  - split; [contradiction|]. intros (k & l & t & [] & _).
  - rewrite List.in_app_iff, IH. split.
    + intros [Hc|(k' & l' & t' & Hin & Hc)]; [exists k, l, t|exists k', l', t'];
        auto.
    + intros (k' & l' & t' & [Heq|Hin] & Hc).
      * inversion Heq; subst. left. exact Hc.
      * right. exists k', l', t'. auto.
  - rewrite IH. split.
    + intros (k' & l' & t' & Hin & Hc). exists k', l', t'. auto.
    + intros (k' & l' & t' & [Heq|Hin] & Hc); [discriminate|].
      exists k', l', t'. auto.
Qed.

(** ** The join of keyword mode *)

Lemma collect_keyword_spec results : forall acc,
  collect_keyword results acc
  = match first_fatal results with
    | Some e => Rejected e
    | None => Fulfilled (acc ++ map keyword_entry results)
    end.
Proof.
  induction results as [|[s [v|e]] results IH]; intros acc.
  - simpl. rewrite app_nil_r. reflexivity.
  - simpl. rewrite IH. destruct (first_fatal results); [reflexivity|].
    rewrite <- app_assoc. reflexivity.
  - cbn [collect_keyword first_fatal map keyword_entry].
    destruct e as [c m|m]; [|reflexivity].
    destruct c; try reflexivity; simpl;
      rewrite IH; destruct (first_fatal results); try reflexivity;
      rewrite <- app_assoc; reflexivity.
Qed.

Lemma searchConversationsKeyword_spec `{JsDate} `{Clock} config api input
    verbose :
  let branches := keyword_branches config api input verbose in
  searchConversationsKeyword config api input verbose
  = match first_fatal branches with
    | Some e => Rejected e
    | None =>
        let allResults := map keyword_entry branches in
        Fulfilled
          {| kw_query :=
               buildSearchQuery (default [] (in_searchTerms input))
                 (in_searchIn input);
             kw_totalConversationsFound :=
               sumZ (map (fun r => len (sr_conversations r)) allResults);
             kw_totalAvailable := sumZ (map sr_totalCount allResults);
             kw_resultsByStatus := map group_of allResults |}
    end.
Proof.
  intros branches. unfold searchConversationsKeyword.
  fold (keyword_branch config api input verbose).
  fold (keyword_branches config api input verbose). fold branches.
  rewrite collect_keyword_spec.
  destruct (first_fatal branches); reflexivity.
Qed.

Lemma render_map verbose l : render verbose l = map (render_one verbose) l.
Proof. unfold render, render_one. destruct verbose; reflexivity. Qed.

Lemma render_one_id verbose c : out_id (render_one verbose c) = conv_id c.
Proof. destruct verbose; reflexivity. Qed.

Lemma render_one_createdAt verbose c :
  out_createdAt (render_one verbose c) = conv_createdAt c.
Proof. destruct verbose; reflexivity. Qed.

Lemma render_sorted `{JsDate} verbose l :
  StronglySorted (fun a b => not_older (conv_createdAt a) (conv_createdAt b)) l ->
  StronglySorted (fun a b => not_older (out_createdAt a) (out_createdAt b))
    (render verbose l).
Proof.
  rewrite render_map. apply StronglySorted_map. intros a b.
  rewrite !render_one_createdAt. auto.
Qed.

(** ** Multi-status merge *)

Lemma list_multi_one_failure `{JsDate} config api input verbose failedStatus
    code message queryWithDate :
  let statuses := statuses_or_default input in
  let results := list_fetches config api input queryWithDate in
  NoDup statuses ->
  code <> UNAUTHORIZED -> code <> INVALID_INPUT ->
  in_createdBefore input = None ->
  (in_status input = None \/ in_statuses input <> None) ->
  appendCreatedAtFilter (list_query input) (in_createdAfter input) None
  = Fulfilled queryWithDate ->
  In (failedStatus, Rejected (ApiError code message)) results ->
  (forall s r, In (s, r) results -> s <> failedStatus ->
               exists v, r = Fulfilled v) ->
  exists r pg,
    searchConversationsList config api input verbose = Fulfilled r
    /\ li_pagination r = Some pg
    /\ errors pg = Some [api_failure failedStatus code message]
    /\ li_statuses r
       = List.filter (fun s => negb (bool_decide (s = failedStatus))) statuses
    /\ NoDup (map out_id (li_results r))
    /\ (forall o, In o (li_results r) ->
          exists c, o = render_one verbose c
                    /\ In c (fulfilled_records results))
    /\ (forall c, In c (fulfilled_records results) ->
          In (conv_id c) (map out_id (li_results r))
          \/ limit_or_default input <= len (li_results r))
    /\ (all_dated (fulfilled_records results) ->
        StronglySorted
          (fun a b => not_older (out_createdAt a) (out_createdAt b))
          (li_results r)).
Proof.
  intros statuses results Hnd Hc1 Hc2 Hb Hmulti Hq Hfail Hothers.
  destruct (one_failure_results (list_fetch config api input queryWithDate)
              statuses failedStatus (ApiError code message) Hnd Hfail Hothers)
    as [Hfails Hfatal].
  change (allSettled _ _) with results in Hfails, Hfatal.
  assert (Hnf : fatal (ApiError code message) = false)
    by (destruct code; try reflexivity; contradiction).
  rewrite Hnf in Hfatal.
  rewrite (searchConversationsList_multi config api input verbose queryWithDate
             Hmulti Hq).
  fold results. rewrite Hfatal, Hfails. cbn zeta.
  rewrite list_createdBefore_none by exact Hb.
  destruct (merged_newest_first_spec (limit_or_default input) results)
    as (Hnodup & Hfrom & Hall & _ & _ & Hsorted).
  eexists. eexists. split; [reflexivity|].
  cbn [li_pagination li_statuses li_results errors].
  split; [reflexivity|]. split; [reflexivity|].
  split; [apply without_failed_one|].
  split; [rewrite render_ids; exact Hnodup|]. split; [|split].
  - intros o Ho. rewrite render_map in Ho. apply List.in_map_iff in Ho.
    destruct Ho as (c & <- & Hc). exists c. auto.
  - intros c Hc. rewrite render_ids. unfold len. rewrite render_length.
    apply Hall. exact Hc.
  - intros Hd. apply render_sorted. apply Hsorted. exact Hd.
Qed.

Lemma keyword_one_failure `{JsDate} `{Clock} config api input verbose
    failedStatus code message :
  let branches := keyword_branches config api input verbose in
  NoDup (statuses_or_default input) ->
  code <> UNAUTHORIZED -> code <> INVALID_INPUT ->
  In (failedStatus, Rejected (ApiError code message)) branches ->
  (forall s r, In (s, r) branches -> s <> failedStatus ->
               exists v, r = Fulfilled v) ->
  exists r,
    searchConversationsKeyword config api input verbose = Fulfilled r
    /\ kw_resultsByStatus r = map (fun b => group_of (keyword_entry b)) branches
    /\ In (empty_group failedStatus) (kw_resultsByStatus r)
    /\ (forall s v, In (s, Fulfilled v) branches ->
                    In (group_of v) (kw_resultsByStatus r)).
Proof.
  intros branches Hnd Hc1 Hc2 Hfail Hothers.
  pose proof Hfail as Hfail'.
  destruct (one_failure_results (keyword_branch config api input verbose)
              (statuses_or_default input) failedStatus (ApiError code message)
              Hnd Hfail Hothers) as [_ Hfatal].
  change (allSettled _ _) with branches in Hfatal.
  assert (Hnf : fatal (ApiError code message) = false)
    by (destruct code; try reflexivity; contradiction).
  rewrite Hnf in Hfatal.
  rewrite searchConversationsKeyword_spec. fold branches. rewrite Hfatal.
  eexists. split; [reflexivity|]. cbn [kw_resultsByStatus].
  rewrite map_map. split; [reflexivity|]. split.
  - apply List.in_map_iff. exists (failedStatus, Rejected (ApiError code message)).
    split; [reflexivity|exact Hfail'].
  - intros s v Hv. apply List.in_map_iff. exists (s, Fulfilled v).
    split; [reflexivity|exact Hv].
Qed.

(** C1, as amended.  In listing mode, when one status fetch of a
    multi-status search (without createdBefore) fails with an API error
    other than UNAUTHORIZED and INVALID_INPUT and the others succeed, the
    result names the failed status in [pagination.errors] and leaves it
    out of [statuses]; it has no duplicate conversation id, consists of
    records of the succeeding statuses only, holds the id of every such
    record unless it was cut at the limit, and is sorted by createdAt
    descending when the dates parse.  In keyword mode the result is not
    merged: it has one group per status, in status order, the group of
    the failed status being empty with zero counts, and every succeeding
    branch contributes its own group unchanged. *)
Theorem multi_status_merge `{JsDate} `{Clock} config api input verbose
    failedStatus code message :
  NoDup (statuses_or_default input) ->
  code <> UNAUTHORIZED -> code <> INVALID_INPUT ->
  (forall queryWithDate,
     let results := list_fetches config api input queryWithDate in
     in_createdBefore input = None ->
     (in_status input = None \/ in_statuses input <> None) ->
     appendCreatedAtFilter (list_query input) (in_createdAfter input) None
     = Fulfilled queryWithDate ->
     In (failedStatus, Rejected (ApiError code message)) results ->
     (forall s r, In (s, r) results -> s <> failedStatus ->
                  exists v, r = Fulfilled v) ->
     exists r pg,
       searchConversationsList config api input verbose = Fulfilled r
       /\ li_pagination r = Some pg
       /\ errors pg = Some [api_failure failedStatus code message]
       /\ li_statuses r
          = List.filter (fun s => negb (bool_decide (s = failedStatus)))
              (statuses_or_default input)
       /\ NoDup (map out_id (li_results r))
       /\ (forall o, In o (li_results r) ->
             exists c, o = render_one verbose c
                       /\ In c (fulfilled_records results))
       /\ (forall c, In c (fulfilled_records results) ->
             In (conv_id c) (map out_id (li_results r))
             \/ limit_or_default input <= len (li_results r))
       /\ (all_dated (fulfilled_records results) ->
           StronglySorted
             (fun a b => not_older (out_createdAt a) (out_createdAt b))
             (li_results r)))
  /\ (let branches := keyword_branches config api input verbose in
      In (failedStatus, Rejected (ApiError code message)) branches ->
      (forall s r, In (s, r) branches -> s <> failedStatus ->
                   exists v, r = Fulfilled v) ->
      exists r,
        searchConversationsKeyword config api input verbose = Fulfilled r
        /\ kw_resultsByStatus r
           = map (fun b => group_of (keyword_entry b)) branches
        /\ In (empty_group failedStatus) (kw_resultsByStatus r)
        /\ (forall s v, In (s, Fulfilled v) branches ->
                        In (group_of v) (kw_resultsByStatus r))).
Proof.
  intros Hnd Hc1 Hc2. split.
  - intros queryWithDate results Hb Hmulti Hq Hfail Hothers.
    apply list_multi_one_failure; assumption.
  - apply keyword_one_failure; assumption.
Qed.

Lemma multi_status_merge_witness :
  exists r,
    searchConversationsList (H := iso_getTime) default_config flaky_api
      example_input false = Fulfilled r
    /\ li_statuses r = [active; pending]
    /\ map out_id (li_results r) = [2; 1].
Proof.
  destruct (multi_status_merge (H := iso_getTime) (H0 := example_clock)
              default_config flaky_api example_input false closed
              UPSTREAM_ERROR "Help Scout API server error")
    as [Hlist _].
  - refine (bool_decide_unpack _ _). vm_compute. exact I.
  - discriminate.
  - discriminate.
  - destruct (Hlist None) as (r & pg & Heq & _ & _ & Hst & _).
    + reflexivity.
    + left. reflexivity.
    + reflexivity.
    + vm_compute. right. right. left. reflexivity.
    + intros s r Hin Hne. vm_compute in Hin.
      destruct Hin as [Hin|[Hin|[Hin|[]]]]; inversion Hin; subst;
        try (eexists; reflexivity); contradiction.
    + exists r. split; [exact Heq|]. split; [exact Hst|].
      vm_compute in Heq. inversion Heq. reflexivity.
Defined.

(** C1 as stated fails.  In keyword mode, with [active] returning
    conversation 1, [pending] returning conversations 1 and 2 and
    [closed] failing with a server error, the result lists id 1 twice,
    and it is the very result obtained when [closed] succeeds with no
    records, so nothing in it marks the failure.  In listing mode with
    limit 1 against the same upstream, the merged result is cut to
    conversation 2 alone, although the succeeding statuses returned
    conversation 1 as well. *)
Lemma keyword_duplicates_and_list_truncation :
  (exists r,
     searchConversationsKeyword (H := iso_getTime) (H0 := example_clock)
       default_config flaky_api (with_searchTerms example_input ["refund"])
       false = Fulfilled r
     /\ keyword_ids out_id r = [1; 1; 2]
     /\ ~ NoDup (keyword_ids out_id r)
     /\ searchConversationsKeyword (H := iso_getTime) (H0 := example_clock)
          default_config quiet_api (with_searchTerms example_input ["refund"])
          false = Fulfilled r)
  /\ (exists r,
        searchConversationsList (H := iso_getTime) default_config flaky_api
          (with_limit example_input 1) false = Fulfilled r
        /\ map out_id (li_results r) = [2]
        /\ map conv_id
             (fulfilled_records
                (list_fetches default_config flaky_api
                   (with_limit example_input 1) None))
           = [1; 1; 2]).
Proof.
  split.
  - eexists. split; [vm_compute; reflexivity|].
    split; [reflexivity|]. split; [|vm_compute; reflexivity].
    intros Hn. change (NoDup [1; 1; 2]) in Hn.
    apply NoDup_cons in Hn. destruct Hn as [Hn _]. apply Hn. left.
  - eexists. split; [vm_compute; reflexivity|].
    split; [reflexivity|]. vm_compute. reflexivity.
Qed.

(** ** Error containment in the joins *)

Lemma fatal_iff e :
  fatal e = true
  <-> isApiError e = false
      \/ exists m, e = ApiError UNAUTHORIZED m \/ e = ApiError INVALID_INPUT m.
Proof.
  destruct e as [c m|m]; simpl.
  - destruct c; simpl; split; intros Hx; try discriminate; eauto;
      destruct Hx as [Hx|(m' & [Hx|Hx])]; discriminate.
  - split; auto.
Qed.

Lemma attachTranscripts_spec `{JsDate} config api conversations maxMessages :
  attachTranscripts config api conversations maxMessages
  = map (fun conv =>
           match transcript_branch config api maxMessages conv with
           | Fulfilled entry => entry
           | Rejected _ => transcript_placeholder conv
           end) conversations.
Proof.
  unfold attachTranscripts, allSettled. rewrite map_map. reflexivity.
Qed.

(** C2, as amended.  In the per-status joins of keyword and listing
    mode every branch is inspected: the call fails, with the error of
    the first such branch in status order, when a branch is rejected
    with something that is not an API error or with UNAUTHORIZED or
    INVALID_INPUT; otherwise every rejected branch is folded (into an
    empty group for its status in keyword mode, into an entry of
    [pagination.errors] in listing mode) and the fulfilled branches
    contribute their records.  In the transcript join every rejected
    branch, whatever its error, is folded into the placeholder
    [transcript: null, transcriptError: 'Failed to fetch'] and every
    other conversation keeps the entry of its own branch. *)
Theorem fan_out_error_containment `{JsDate} `{Clock} config api threads input
    verbose :
  (forall e,
     fatal e = true
     <-> isApiError e = false
         \/ exists m, e = ApiError UNAUTHORIZED m
                      \/ e = ApiError INVALID_INPUT m)
  /\ (let branches := keyword_branches config api input verbose in
      match first_fatal branches with
      | Some e =>
          searchConversationsKeyword config api input verbose = Rejected e
      | None =>
          exists r,
            searchConversationsKeyword config api input verbose = Fulfilled r
            /\ kw_resultsByStatus r
               = map (fun b => group_of (keyword_entry b)) branches
      end)
  /\ (forall queryWithDate,
        (in_status input = None \/ in_statuses input <> None) ->
        appendCreatedAtFilter (list_query input) (in_createdAfter input) None
        = Fulfilled queryWithDate ->
        let results := list_fetches config api input queryWithDate in
        match first_fatal results with
        | Some e =>
            searchConversationsList config api input verbose = Rejected e
        | None =>
            exists pg,
              searchConversationsList config api input verbose
              = list_createdBefore input verbose
                  (merged_newest_first (limit_or_default input) results)
                  (match failures results with
                   | [] => statuses_or_default input
                   | failed => without_failed (statuses_or_default input) failed
                   end) pg
              /\ errors pg = match failures results with
                             | [] => None
                             | failed => Some failed
                             end
        end)
  /\ (forall conversations maxMessages,
        attachTranscripts config threads conversations maxMessages
        = map (fun conv =>
                 match transcript_branch config threads maxMessages conv with
                 | Fulfilled entry => entry
                 | Rejected _ => transcript_placeholder conv
                 end) conversations).
Proof.
  split; [exact fatal_iff|]. split; [|split].
  - intros branches. pose proof (searchConversationsKeyword_spec config api
                                   input verbose) as Hk.
    cbv zeta in Hk. fold branches in Hk.
    destruct (first_fatal branches); [exact Hk|].
    eexists. split; [exact Hk|]. cbn [kw_resultsByStatus].
    rewrite map_map. reflexivity.
  - intros queryWithDate Hmulti Hq results.
    pose proof (searchConversationsList_multi config api input verbose
                  queryWithDate Hmulti Hq) as Hl.
    cbv zeta in Hl. fold results in Hl.
    destruct (first_fatal results); [exact Hl|].
    eexists. split; [exact Hl|]. reflexivity.
  - intros conversations maxMessages. apply attachTranscripts_spec.
Qed.

Lemma fan_out_error_containment_witness :
  searchConversationsList (H := iso_getTime) default_config
    (fun _ => Rejected (ApiError UNAUTHORIZED "Invalid or expired token"))
    example_input false
  = Rejected (ApiError UNAUTHORIZED "Invalid or expired token").
Proof.
  destruct (fan_out_error_containment (H := iso_getTime) (H0 := example_clock)
              default_config
              (fun _ => Rejected (ApiError UNAUTHORIZED "Invalid or expired token"))
              unauthorized_threads example_input false)
    as (_ & _ & Hlist & _).
  specialize (Hlist None).
  apply Hlist; [left|]; reflexivity.
Defined.

(** C2 as stated fails.  In the transcript join an UNAUTHORIZED
    rejection does not abort the call: when the thread endpoint rejects
    with it, the search still returns, with the placeholder on the
    conversation.  In the per-status joins an error outside the two
    named classes can abort the call: a rejection that is not an API
    error fails the whole listing search. *)
Lemma joins_fold_unauthorized_and_abort_on_other_errors :
  (exists out,
     searchConversations (H := iso_getTime) (H0 := example_clock)
       default_config quiet_api unauthorized_threads
       (with_transcripts (with_status_filter example_input (Some active) None))
       None false = Fulfilled out
     /\ transcript_errors out = [Some "Failed to fetch"])
  /\ searchConversationsList (H := iso_getTime) default_config broken_api
       example_input false
     = Rejected (OtherError "socket hang up").
Proof.
  split; [eexists; split|]; vm_compute; reflexivity.
Qed.

(** ** The createdBefore filter *)

Lemma and_then_inv {A B} (m : Settled A) (f : A -> Settled B) r :
  and_then m f = Fulfilled r -> exists x, m = Fulfilled x /\ f x = Fulfilled r.
Proof. destruct m; simpl; [eauto|discriminate]. Qed.

Lemma is_before_created_before `{JsDate} bound c :
  is_before bound c = true -> created_before bound (conv_createdAt c).
Proof.
  unfold is_before, created_before.
  destruct (Date_getTime bound) as [tb|]; [|discriminate].
  destruct (Date_getTime (conv_createdAt c)) as [t|]; [|discriminate].
  simpl. intros Hlt. apply Z.ltb_lt in Hlt. eauto.
Qed.

Lemma filter_length_le {A} (p : A -> bool) l :
  (length (List.filter p l) <= length l)%nat.
Proof. induction l as [|x l IH]; simpl; [lia|]. destruct (p x); simpl; lia. Qed.

Lemma filter_removed_iff {A} (p : A -> bool) l :
  (0 <? len l - len (List.filter p l)) = negb (forallb p l).
Proof.
  unfold len. induction l as [|x l IH]; simpl; [reflexivity|].
  pose proof (filter_length_le p l) as Hle.
  destruct (p x); simpl.
  - rewrite <- IH. f_equal. lia.
  - apply Z.ltb_lt. lia.
Qed.

Lemma applyCreatedBeforeFilter_spec `{JsDate} convs bound fr :
  applyCreatedBeforeFilter convs bound = Fulfilled fr ->
  filtered fr = List.filter (is_before bound) convs
  /\ wasFiltered fr = negb (forallb (is_before bound) convs)
  /\ (forall c, In c (filtered fr) -> created_before bound (conv_createdAt c)).
Proof.
  unfold applyCreatedBeforeFilter.
  destruct (Date_getTime bound) as [tb|] eqn:Hb; [|discriminate].
  intros Heq. inversion Heq; subst; clear Heq. cbn [filtered wasFiltered].
  assert (Hfil : List.filter
                   (fun conv => num_lt (Date_getTime (conv_createdAt conv)) (Some tb))
                   convs
                 = List.filter (is_before bound) convs).
  { apply List.filter_ext. intros c. unfold is_before. rewrite Hb. reflexivity. }
  rewrite Hfil. split; [reflexivity|]. split; [apply filter_removed_iff|].
  intros c Hc. apply List.filter_In in Hc.
  apply is_before_created_before. tauto.
Qed.

Lemma In_render verbose l o :
  In o (render verbose l) -> exists c, In c l /\ o = render_one verbose c.
Proof.
  rewrite render_map. intros Ho. apply List.in_map_iff in Ho.
  destruct Ho as (c & <- & Hc). eauto.
Qed.

Lemma In_firstn {A} n (l : list A) x : In x (firstn n l) -> In x l.
Proof.
  intros Hx. rewrite <- (firstn_skipn n l). apply in_or_app. left. exact Hx.
Qed.

(** *** Listing mode *)




Lemma truthy_some bound : bound <> EmptyString -> truthy (Some bound) = true.
Proof.
  intros Hne. simpl. destruct (String.eqb_spec bound EmptyString);
    [contradiction|reflexivity].
Qed.

Lemma forallb_filter_id {A} (p : A -> bool) l :
  forallb p l = true -> List.filter p l = l.
Proof.
  induction l as [|x l IH]; simpl; [reflexivity|].
  destruct (p x); simpl; [|discriminate]. intros Hl. rewrite IH by exact Hl.
  reflexivity.
Qed.

(** *** Keyword mode *)



(** *** Structured mode *)







(** With a single [status] the filtered pagination is built by
    [buildFilteredPagination] from an object that has no
    [totalElements], so [totalAvailable] comes out undefined. *)
Example list_single_status_filtered_total :
  exists r pg,
    searchConversationsList (H := iso_getTime) default_config quiet_api
      (with_dates (with_status_filter example_input (Some pending) None) None
         (Some mid_february)) false = Fulfilled r
    /\ li_pagination r = Some pg
    /\ totalResults pg = Some 1
    /\ totalAvailable pg = None.
Proof.
  eexists. eexists. split; [vm_compute; reflexivity|].
  split; [reflexivity|]. split; reflexivity.
Qed.

(** ** Transcripts *)


Lemma oldest_first_by_key `{JsDate} l :
  threads_dated l ->
  Array_sort oldest_first l
  = Array_sort (key_cmp (fun t => time_of (thread_createdAt t))) l.
Proof.
  intros Hd. apply Array_sort_ext. intros a b Ha Hb.
  unfold threads_dated in Hd. rewrite List.Forall_forall in Hd.
  destruct (Hd a Ha) as [ta Hta]. destruct (Hd b Hb) as [tb Htb].
  unfold oldest_first, key_cmp, time_of. rewrite Hta, Htb. reflexivity.
Qed.

Lemma oldest_first_sorted `{JsDate} l :
  threads_dated l ->
  StronglySorted
    (fun a b => not_older (thread_createdAt b) (thread_createdAt a))
    (Array_sort oldest_first l).
Proof.
  intros Hd. rewrite oldest_first_by_key by exact Hd.
  eapply StronglySorted_weaken_in; [|apply Array_sort_sorted].
  intros a b Ha Hb Hle.
  assert (Hin : forall c,
             In c (Array_sort (key_cmp (fun t => time_of (thread_createdAt t))) l)
             -> In c l).
  { intros c. apply Permutation_in. apply Array_sort_perm. }
  unfold threads_dated in Hd. rewrite List.Forall_forall in Hd.
  destruct (Hd a (Hin a Ha)) as [ta Hta].
  destruct (Hd b (Hin b Hb)) as [tb Htb].
  exists tb, ta. split; [exact Htb|]. split; [exact Hta|].
  unfold key_le, time_of in Hle. rewrite Hta, Htb in Hle. simpl in Hle. lia.
Qed.




(** ** Redaction of message bodies *)

Lemma allowPii_default getenv :
  getenv "REDACT_MESSAGE_CONTENT" = None ->
  allowPii (config_of_env getenv) = true.
Proof.
  intros Hnone. unfold config_of_env, env_is_true. simpl. rewrite Hnone.
  reflexivity.
Qed.

Lemma allowPii_redact getenv :
  getenv "REDACT_MESSAGE_CONTENT" = Some "true" ->
  allowPii (config_of_env getenv) = false.
Proof.
  intros Hset. unfold config_of_env, env_is_true. simpl. rewrite Hset.
  reflexivity.
Qed.

Lemma buildTranscript_redacted `{JsDate} config threads maxMessages :
  allowPii config = false ->
  forall m, In m (buildTranscript config threads maxMessages) ->
            msg_body m = REDACTED.
Proof.
  intros Hpii m Hm. unfold buildTranscript in Hm.
  apply List.in_map_iff in Hm. destruct Hm as (t & <- & _).
  unfold to_message, transcript_body. simpl. rewrite Hpii. reflexivity.
Qed.

Lemma buildTranscript_passes_through `{JsDate} config threads maxMessages :
  allowPii config = true ->
  buildTranscript config threads maxMessages
  = map (to_message config)
        (slice0 maxMessages
           (Array_sort oldest_first (List.filter is_dialogue threads)))
  /\ forall t,
       msg_body (to_message config t)
       = stripHtml (cleanBeaconForm
                      (default EmptyString (str_or (thread_body t) None))).
Proof.
  intros Hpii. split; [reflexivity|]. intros t.
  unfold to_message, transcript_body. simpl. rewrite Hpii. reflexivity.
Qed.

(** Every body of a [getThreads] result is the placeholder when
    redaction is on, in the three output formats. *)
Lemma getThreads_redacted `{JsDate} config api conversationId transcript limit
    verbose r :
  allowPii config = false ->
  getThreads config api conversationId transcript limit verbose = Fulfilled r ->
  forall b, In b (threads_bodies r) -> b = Some REDACTED.
Proof.
  intros Hpii Heq b Hb. unfold getThreads in Heq.
  apply and_then_inv in Heq. destruct Heq as ([allThreads total] & _ & Heq).
  rewrite Hpii in Heq.
  destruct transcript; [|destruct verbose];
    inversion Heq; subst r; clear Heq; simpl in Hb;
    apply List.in_map_iff in Hb; destruct Hb as (x & <- & Hx).
  - f_equal. eapply buildTranscript_redacted; eassumption.
  - apply List.in_map_iff in Hx. destruct Hx as (t & <- & _). reflexivity.
  - apply List.in_map_iff in Hx. destruct Hx as (t & <- & _). reflexivity.
Qed.

(** So is every body of a non-verbose conversation summary. *)
Lemma getConversationSummary_redacted `{JsDate} config get api conversationId r :
  allowPii config = false ->
  getConversationSummary config get api conversationId false = Fulfilled r ->
  forall b, In b (summary_bodies r) -> b = Some REDACTED.
Proof.
  intros Hpii Heq b Hb. unfold getConversationSummary in Heq.
  apply and_then_inv in Heq. destruct Heq as (conv & _ & Heq).
  apply and_then_inv in Heq. destruct Heq as ([threads total] & _ & Heq).
  rewrite Hpii in Heq. inversion Heq; subst r; clear Heq. simpl in Hb.
  apply List.in_app_iff in Hb.
  destruct Hb as [Hb|Hb];
    match type of Hb with
    | In _ (match option_map _ ?x with _ => _ end) => destruct x
    end; simpl in Hb; try contradiction; destruct Hb as [<-|[]]; reflexivity.
Qed.

(** C10 fails on the verbose conversation summary: with
    [REDACT_MESSAGE_CONTENT=true], [getConversationSummary] called with
    [verbose: true] returns the raw threads, so the body delivered is
    the upstream body, and two runs that differ only in that body
    deliver different bodies. *)
Theorem getConversationSummary_verbose_unredacted :
  allowPii redacting_config = false
  /\ (forall body,
        exists r,
          getConversationSummary (H := iso_getTime) redacting_config
            (fun _ => Fulfilled (example_conv 1 "2024-02-01T09:59:00Z"))
            (one_message_threads body) "1" true = Fulfilled r
          /\ summary_bodies r = [Some body])
  /\ (forall body,
        exists r,
          getConversationSummary (H := iso_getTime) redacting_config
            (fun _ => Fulfilled (example_conv 1 "2024-02-01T09:59:00Z"))
            (one_message_threads body) "1" false = Fulfilled r
          /\ summary_bodies r = [Some REDACTED]).
Proof.
  split; [reflexivity|]. split; intros body; eexists; split; reflexivity.
Qed.

(** ** The keyword query *)

Lemma code_chr n : (n < 256)%nat -> code (chr n) = n.
Proof. intros Hn. unfold code, chr. apply nat_ascii_embedding. exact Hn. Qed.

Lemma is_digit_digit_chr n : is_digit (digit_chr n) = true.
Proof.
  unfold is_digit, digit_chr.
  pose proof (Z.mod_pos_bound n 10 ltac:(lia)) as Hb.
  rewrite code_chr by lia.
  apply andb_true_iff. split; apply Nat.leb_le; lia.
Qed.

Lemma digit_not_dot a : is_digit a = true -> Ascii.eqb a "." = false.
Proof.
  intros Hd. destruct (Ascii.eqb_spec a "."); [|reflexivity].
  subst a. discriminate.
Qed.

Lemma dot_not a : Ascii.eqb a "." = false -> Ascii.eqb "." a = false.
Proof. rewrite Ascii.eqb_sym. auto. Qed.

(** No match of [/\.\d{3}Z$/] starts at a character other than [.]. *)
Lemma re_millis_needs_dot prev a s :
  Ascii.eqb a "." = false -> match_here re_millis prev (String a s) = None.
Proof.
  intros Ha. unfold match_here, re_millis. cbn [seqs lit rmatch].
  rewrite (dot_not a Ha). reflexivity.
Qed.

Lemma append_empty_l s : EmptyString +:+ s = s.
Proof. reflexivity. Qed.

Lemma append_cons a s t : String a s +:+ t = String a (s +:+ t).
Proof. reflexivity. Qed.

Lemma replace_millis_no_dot s : forall prev,
  no_dot s = true -> replace_first_from re_millis (to "Z") prev s = s.
Proof.
  induction s as [|a s IH]; intros prev Hs.
  - reflexivity.
  - simpl in Hs. apply andb_true_iff in Hs. destruct Hs as [Ha Hs].
    apply negb_true_iff in Ha.
    cbn [replace_first_from]. rewrite re_millis_needs_dot by exact Ha.
    rewrite IH by exact Hs. reflexivity.
Qed.

Lemma replace_millis_strip p d1 d2 d3 : forall prev,
  no_dot p = true ->
  is_digit d1 = true -> is_digit d2 = true -> is_digit d3 = true ->
  replace_first_from re_millis (to "Z") prev
    (p +:+ String "." (String d1 (String d2 (String d3 "Z"))))
  = p +:+ "Z".
Proof.
  induction p as [|a p IH]; intros prev Hp H1 H2 H3.
  - rewrite !append_empty_l. cbn [replace_first_from].
    unfold match_here, re_millis, digit.
    cbn [seqs lit rep rmatch Ascii.eqb Bool.eqb].
    rewrite H1, H2, H3. reflexivity.
  - simpl in Hp. apply andb_true_iff in Hp. destruct Hp as [Ha Hp].
    apply negb_true_iff in Ha. rewrite append_cons.
    cbn [replace_first_from]. rewrite re_millis_needs_dot by exact Ha.
    rewrite IH by assumption. reflexivity.
Qed.

Lemma iso_seconds_shape t :
  exists y1 y2 y3 y4 m1 m2 d1 d2 h1 h2 n1 n2 s1 s2,
    iso_seconds t = iso_shape y1 y2 y3 y4 m1 m2 d1 d2 h1 h2 n1 n2 s1 s2
    /\ forallb is_digit [y1; y2; y3; y4; m1; m2; d1; d2; h1; h2; n1; n2; s1; s2]
       = true.
Proof.
  unfold iso_seconds. destruct (civil_from_days (t / 86400000)) as [[y m] d].
  unfold pad4, pad3, pad2.
  do 14 eexists. split; [reflexivity|].
  cbn [forallb]. rewrite !is_digit_digit_chr. reflexivity.
Qed.

Lemma iso_shape_facts y1 y2 y3 y4 m1 m2 d1 d2 h1 h2 n1 n2 s1 s2 :
  forallb is_digit [y1; y2; y3; y4; m1; m2; d1; d2; h1; h2; n1; n2; s1; s2]
  = true ->
  let s := iso_shape y1 y2 y3 y4 m1 m2 d1 d2 h1 h2 n1 n2 s1 s2 in
  no_dot s = true
  /\ no_dot (s +:+ "Z") = true
  /\ rx_test isoDatePattern (s +:+ "Z") = true
  /\ is_whole_second (s +:+ "Z") = true.
Proof.
  intros H. digits H. intros s. unfold s, iso_shape.
  cbv [String.append]. split; [|split; [|split]].
  - cbn [no_dot].
    repeat match goal with
           | Hx : is_digit ?c = true |- _ =>
               rewrite (digit_not_dot c Hx); clear Hx
           end.
    reflexivity.
  - cbn [no_dot].
    repeat match goal with
           | Hx : is_digit ?c = true |- _ =>
               rewrite (digit_not_dot c Hx); clear Hx
           end.
    reflexivity.
  - unfold rx_test, search_from, match_here, isoDatePattern, digit.
    cbn -[is_digit].
    repeat match goal with
           | Hx : is_digit ?c = true |- _ => rewrite Hx; clear Hx
           end.
    cbn -[is_digit]. reflexivity.
  - unfold is_whole_second, rx_test, search_from, match_here, re_whole_second,
      digit.
    cbn -[is_digit].
    repeat match goal with
           | Hx : is_digit ?c = true |- _ => rewrite Hx; clear Hx
           end.
    cbn -[is_digit]. reflexivity.
Qed.

Lemma calculateTimeRange_spec `{Clock} days :
  calculateTimeRange days = iso_seconds (daysAgo days) +:+ "Z"
  /\ rx_test isoDatePattern (calculateTimeRange days) = true
  /\ is_whole_second (calculateTimeRange days) = true
  /\ normalize (calculateTimeRange days) = calculateTimeRange days.
Proof.
  assert (Heq : calculateTimeRange days = iso_seconds (daysAgo days) +:+ "Z").
  { unfold calculateTimeRange, toISOString, replace_first, pad3, pad2.
    destruct (iso_seconds_shape (daysAgo days))
      as (y1 & y2 & y3 & y4 & m1 & m2 & d1 & d2 & h1 & h2 & n1 & n2 & s1 & s2
          & Hs & Hd).
    destruct (iso_shape_facts _ _ _ _ _ _ _ _ _ _ _ _ _ _ Hd) as (Hnd & _).
    rewrite Hs.
    apply (replace_millis_strip _ _ _ _ None Hnd); apply is_digit_digit_chr. }
  rewrite Heq.
  destruct (iso_seconds_shape (daysAgo days))
    as (y1 & y2 & y3 & y4 & m1 & m2 & d1 & d2 & h1 & h2 & n1 & n2 & s1 & s2
        & Hs & Hd).
  destruct (iso_shape_facts _ _ _ _ _ _ _ _ _ _ _ _ _ _ Hd)
    as (_ & Hnd & Hiso & Hws).
  rewrite Hs. split; [reflexivity|]. split; [exact Hiso|].
  split; [exact Hws|]. apply replace_millis_no_dot. exact Hnd.
Qed.

(** *** The shape of the query *)

Lemma termQueries_nonempty searchIn term :
  includes searchIn BODY || includes searchIn SUBJECT || includes searchIn BOTH
  = true ->
  termQueries searchIn term <> [].
Proof.
  unfold termQueries.
  destruct (includes searchIn BODY), (includes searchIn SUBJECT),
    (includes searchIn BOTH); simpl; intros Hx; discriminate.
Qed.

Lemma buildSearchQuery_groups searchIn terms :
  includes searchIn BODY || includes searchIn SUBJECT || includes searchIn BOTH
  = true ->
  buildSearchQuery terms searchIn = terms_query searchIn terms.
Proof.
  intros Hin. unfold buildSearchQuery, terms_query. f_equal.
  induction terms as [|t terms IH]; cbn [flat_map map]; [reflexivity|].
  rewrite IH. pose proof (termQueries_nonempty searchIn t Hin) as Hne.
  unfold term_group. destruct (termQueries searchIn t); [contradiction|].
  reflexivity.
Qed.

Lemma terms_query_nonempty searchIn terms :
  terms <> [] -> terms_query searchIn terms <> EmptyString.
Proof.
  destruct terms as [|t terms]; [contradiction|]. intros _.
  unfold terms_query, term_group. simpl.
  destruct (map _ terms); discriminate.
Qed.

Lemma appendCreatedAtFilter_keyword searchQuery createdAfter :
  searchQuery <> EmptyString ->
  rx_test isoDatePattern createdAfter = true ->
  appendCreatedAtFilter (Some searchQuery) (Some createdAfter) None
  = Fulfilled (Some (ranged_query searchQuery (normalize createdAfter))).
Proof.
  intros Hq Hiso.
  assert (Hca : createdAfter <> EmptyString).
  { intros ->. vm_compute in Hiso. discriminate. }
  unfold appendCreatedAtFilter.
  rewrite (truthy_some createdAfter Hca), (truthy_some searchQuery Hq).
  cbn [default truthy negb andb id]. unfold id. rewrite Hiso.
  reflexivity.
Qed.

Lemma fetch_pages_loop_ext {A} (get get' : Z -> Settled (Page A)) desired :
  (forall page, get page = get' page) ->
  forall left items total page hasMore,
    fetch_pages_loop get desired left items total page hasMore
    = fetch_pages_loop get' desired left items total page hasMore.
Proof.
  intros Hext. induction left as [|left IH]; intros; simpl; [reflexivity|].
  rewrite Hext. destruct (_ && _); [|reflexivity].
  destruct (get' page); [apply IH|reflexivity].
Qed.

Lemma ranged_query_truthy searchQuery start :
  str_or (Some (ranged_query searchQuery start)) None
  = Some (ranged_query searchQuery start).
Proof. reflexivity. Qed.

(** X23.  In keyword mode, with at least one term, a [searchIn] that
    names a location and a [createdAfter] that is absent or matches the
    ISO date pattern, every request sent upstream carries the query
    [(G1 OR ... OR Gn) AND (createdAt:[start TO *])]: [Gi] is the
    parenthesised OR of the [body] and/or [subject] clause of term [i],
    as [searchIn] selects them; the end of the range is always [*];
    [start] is the whole-second ISO-8601 instant computed from
    [timeframeDays] when [createdAfter] is absent, and otherwise
    [createdAfter] with a trailing [.dddZ] (three digits) replaced by
    [Z], unchanged when it holds no [.]. *)
Theorem keyword_query_shape `{JsDate} `{Clock} config input terms :
  in_searchTerms input = Some terms -> terms <> [] ->
  includes (in_searchIn input) BODY || includes (in_searchIn input) SUBJECT
  || includes (in_searchIn input) BOTH = true ->
  (truthy (in_createdAfter input) = true ->
   rx_test isoDatePattern (default EmptyString (in_createdAfter input)) = true) ->
  let searchIn := in_searchIn input in
  let start :=
    if truthy (in_createdAfter input)
    then normalize (default EmptyString (in_createdAfter input))
    else iso_seconds (daysAgo (in_timeframeDays input)) +:+ "Z" in
  let query := ranged_query (terms_query searchIn terms) start in
  (forall term,
     termQueries searchIn term
     = (if includes searchIn BODY || includes searchIn BOTH
        then ["body:" +:+ dq +:+ escapeQueryTerm term +:+ dq] else [])
       ++ (if includes searchIn SUBJECT || includes searchIn BOTH
           then ["subject:" +:+ dq +:+ escapeQueryTerm term +:+ dq] else []))
  /\ buildSearchQuery terms searchIn = terms_query searchIn terms
  /\ (forall api api' verbose status,
        (forall q, p_query q = Some query -> api q = api' q) ->
        keyword_branch config api input verbose status
        = keyword_branch config api' input verbose status)
  /\ (truthy (in_createdAfter input) = false -> is_whole_second start = true)
  /\ (forall p d1 d2 d3,
        no_dot p = true ->
        is_digit d1 = true -> is_digit d2 = true -> is_digit d3 = true ->
        normalize (p +:+ String "." (String d1 (String d2 (String d3 "Z"))))
        = p +:+ "Z")
  /\ (forall s, no_dot s = true -> normalize s = s).
Proof.
  intros Hterms Hne Hin Hiso searchIn start query.
  destruct (calculateTimeRange_spec (in_timeframeDays input))
    as (Hcalc & Hcalc_iso & Hcalc_ws & Hcalc_norm).
  split; [reflexivity|].
  split; [apply buildSearchQuery_groups; exact Hin|].
  split; [|split; [|split]].
  - intros api api' verbose status Hext.
    unfold keyword_branch, searchSingleStatus.
    rewrite Hterms. change (default [] (Some terms)) with terms.
    rewrite (buildSearchQuery_groups _ terms Hin). fold searchIn.
    set (createdAfter :=
           if truthy (in_createdAfter input)
           then default EmptyString (in_createdAfter input)
           else calculateTimeRange (in_timeframeDays input)).
    assert (Hca : rx_test isoDatePattern createdAfter = true).
    { unfold createdAfter. destruct (truthy (in_createdAfter input));
        [apply Hiso; reflexivity|exact Hcalc_iso]. }
    assert (Hstart : normalize createdAfter = start).
    { unfold createdAfter, start. destruct (truthy (in_createdAfter input));
        [reflexivity|]. rewrite Hcalc_norm. exact Hcalc. }
    rewrite (appendCreatedAtFilter_keyword _ _
               (terms_query_nonempty searchIn terms Hne) Hca).
    rewrite Hstart. fold query. cbn [and_then].
    assert (Hfetch : forall params,
               p_query params = Some query ->
               fetchConversationPages api params (limit_or_default input) None
               = fetchConversationPages api' params (limit_or_default input)
                   None).
    { intros params Hq. unfold fetchConversationPages.
      apply fetch_pages_loop_ext. intros page. apply Hext. exact Hq. }
    rewrite Hfetch by reflexivity. reflexivity.
  - intros Hfalsy. unfold start. rewrite Hfalsy, <- Hcalc. exact Hcalc_ws.
  - intros p d1 d2 d3 Hp H1 H2 H3.
    apply (replace_millis_strip p d1 d2 d3 None); assumption.
  - intros s Hs. apply replace_millis_no_dot. exact Hs.
Qed.

Lemma keyword_query_shape_witness :
  buildSearchQuery ["refund"] [BOTH]
  = "(body:" +:+ dq +:+ "refund" +:+ dq +:+ " OR subject:" +:+ dq
    +:+ "refund" +:+ dq +:+ ")".
Proof.
  destruct (keyword_query_shape (H := iso_getTime) (H0 := example_clock)
              default_config (with_searchTerms example_input ["refund"])
              ["refund"]) as (_ & Hq & _).
  - reflexivity.
  - discriminate.
  - reflexivity.
  - intros Hx. discriminate.
  - etransitivity; [exact Hq|]. vm_compute. reflexivity.
Defined.

(** C8 fails on the dates: the code means to strip the fraction of a
    second (its comments read "Strip milliseconds (Help Scout rejects
    .xxx format)" and "ISO 8601 format WITHOUT milliseconds"), but
    [normalize] only recognises three digits followed by [Z].  A
    [createdAfter] of ["2024-01-15T10:00:00.5Z"], or of
    ["2024-01-15T10:00:00.123"] without [Z], passes the date validation
    and is placed in the range clause of the keyword query as it is, so
    the start of the range sent upstream is not a whole-second instant;
    with three digits and [Z] the fraction is stripped. *)
Lemma keyword_query_keeps_fraction :
  (forall createdAfter,
     In createdAfter ["2024-01-15T10:00:00.5Z"; "2024-01-15T10:00:00.123"] ->
     rx_test isoDatePattern createdAfter = true
     /\ echoed_start
          (searchConversationsKeyword (H := iso_getTime) (H0 := example_clock)
             default_config echo_api
             (with_dates (with_searchTerms example_input ["refund"])
                (Some createdAfter) None) false)
        = Some createdAfter
     /\ is_whole_second createdAfter = false)
  /\ echoed_start
       (searchConversationsKeyword (H := iso_getTime) (H0 := example_clock)
          default_config echo_api
          (with_dates (with_searchTerms example_input ["refund"])
             (Some "2024-01-15T10:00:00.123Z") None) false)
     = Some "2024-01-15T10:00:00Z"
  /\ is_whole_second "2024-01-15T10:00:00Z" = true.
Proof.
  split.
  - intros createdAfter [<-|[<-|[]]]; vm_compute; repeat split; reflexivity.
  - vm_compute. split; reflexivity.
Qed.

(** ** Escaping of search terms *)

Lemma append_assoc (s t u : string) : (s +:+ t) +:+ u = s +:+ (t +:+ u).
Proof.
  induction s as [|a s IH]; [reflexivity|].
  rewrite !append_cons, IH. reflexivity.
Qed.

Lemma append_empty_r (s : string) : s +:+ EmptyString = s.
Proof.
  induction s as [|a s IH]; [reflexivity|]. rewrite append_cons, IH.
  reflexivity.
Qed.

Lemma expand_app f s t : expand f (s +:+ t) = expand f s +:+ expand f t.
Proof.
  induction s as [|a s IH]; [reflexivity|].
  change (String a s +:+ t) with (String a (s +:+ t)).
  cbn [expand]. rewrite IH. symmetry. apply append_assoc.
Qed.

Lemma expand_expand f g s :
  expand g (expand f s) = expand (fun a => expand g (f a)) s.
Proof.
  induction s as [|a s IH]; [reflexivity|].
  cbn [expand]. rewrite expand_app, IH. reflexivity.
Qed.

Lemma expand_ext f g s : (forall a, f a = g a) -> expand f s = expand g s.
Proof.
  intros Hfg. induction s as [|a s IH]; [reflexivity|].
  cbn [expand]. rewrite Hfg, IH. reflexivity.
Qed.

(** A global replacement of one character by a fixed string. *)
Lemma replace_loop_chr x rep s :
  forall n prev, (String.length s < n)%nat ->
    replace_loop n (Chr (Ascii.eqb x)) (to rep) prev s
    = expand (fun a => if Ascii.eqb x a then rep else String a EmptyString) s.
Proof.
  induction s as [|a s IH]; intros n prev Hn.
  - destruct n; [simpl in Hn; lia|]. reflexivity.
  - destruct n; [simpl in Hn; lia|].
    cbn [replace_loop match_here rmatch expand].
    destruct (Ascii.eqb x a) eqn:Hxa.
    + cbn [hit_rest hit_caps hit_prev].
      replace (String.length s <? String.length (String a s))%nat with true
        by (symmetry; apply Nat.ltb_lt; simpl; lia).
      unfold to at 1. rewrite IH by (simpl in Hn; lia). reflexivity.
    + rewrite IH by (simpl in Hn; lia). reflexivity.
Qed.

Lemma replace_all_chr x rep s :
  replace_all (Chr (Ascii.eqb x)) (to rep) s
  = expand (fun a => if Ascii.eqb x a then rep else String a EmptyString) s.
Proof. unfold replace_all. apply replace_loop_chr. lia. Qed.

Lemma escapeQueryTerm_expand term :
  escapeQueryTerm term = expand escape_char term.
Proof.
  unfold escapeQueryTerm.
  change (lit dq) with (Chr (Ascii.eqb (chr 34))).
  change (lit backslash) with (Chr (Ascii.eqb (chr 92))).
  rewrite !replace_all_chr, expand_expand.
  apply expand_ext. intros a. unfold escape_char.
  rewrite (Ascii.eqb_sym a (chr 92)), (Ascii.eqb_sym a (chr 34)).
  destruct (Ascii.eqb (chr 92) a) eqn:Hb; [reflexivity|].
  cbn [expand]. destruct (Ascii.eqb (chr 34) a); reflexivity.
Qed.

(** X1.  [escapeQueryTerm] works character by character: a backslash
    becomes two backslashes, a double quote becomes a backslash and the
    quote, every other character is kept; the backslashes written for
    the quotes are not escaped a second time.  A term with neither
    character is returned unchanged. *)
Theorem escapeQueryTerm_chars term :
  escapeQueryTerm term = expand escape_char term
  /\ (forall a s, escapeQueryTerm (String a s)
                  = escape_char a +:+ escapeQueryTerm s)
  /\ escape_char (chr 92) = backslash +:+ backslash
  /\ escape_char (chr 34) = backslash +:+ dq
  /\ (forall a, a <> chr 92 -> a <> chr 34 ->
                escape_char a = String a EmptyString).
Proof.
  split; [apply escapeQueryTerm_expand|].
  split; [intros a s; rewrite !escapeQueryTerm_expand; reflexivity|].
  split; [reflexivity|]. split; [reflexivity|].
  intros a H1 H2. unfold escape_char.
  destruct (Ascii.eqb_spec a (chr 92)); [contradiction|].
  destruct (Ascii.eqb_spec a (chr 34)); [contradiction|]. reflexivity.
Qed.

(** X2.  The escaped term is safe inside a quoted phrase and loses
    nothing: in [escapeQueryTerm term] every backslash is followed by
    the backslash or double quote it protects and no double quote stands
    unprotected, and reading the escapes back gives [term] again. *)
Theorem escapeQueryTerm_safe term :
  well_escaped (escapeQueryTerm term) = true
  /\ unescape (escapeQueryTerm term) = term.
Proof.
  rewrite escapeQueryTerm_expand.
  induction term as [|a s [IH1 IH2]]; [split; reflexivity|].
  cbn [expand]. unfold escape_char at 1 3.
  assert (Hbb : forall x, (backslash +:+ backslash) +:+ x
                          = String (chr 92) (String (chr 92) x))
    by reflexivity.
  assert (Hbq : forall x, (backslash +:+ dq) +:+ x
                          = String (chr 92) (String (chr 34) x))
    by reflexivity.
  destruct (Ascii.eqb_spec a (chr 92)) as [->|Hb];
    [|destruct (Ascii.eqb_spec a (chr 34)) as [->|Hq]];
    rewrite ?Hbb, ?Hbq, ?append_cons, ?append_empty_l;
    cbn [well_escaped unescape].
  - rewrite Ascii.eqb_refl. cbn [orb andb]. rewrite IH2.
    split; [exact IH1|reflexivity].
  - rewrite !Ascii.eqb_refl, orb_true_r. cbn [andb]. rewrite IH2.
    split; [exact IH1|reflexivity].
  - destruct (Ascii.eqb_spec a (chr 92)); [contradiction|].
    destruct (Ascii.eqb_spec a (chr 34)); [contradiction|].
    split; [exact IH1|]. rewrite IH2. reflexivity.
Qed.

(** ** What a match consumes *)

Lemma all_chars_app P s t :
  all_chars P (s +:+ t) = all_chars P s && all_chars P t.
Proof.
  induction s as [|a s IH]; [reflexivity|].
  rewrite append_cons. cbn [all_chars]. rewrite IH. apply andb_assoc.
Qed.

(** The loop of a quantifier, as [rmatch] runs it. *)
Lemma rmatch_star_unfold {R} greedy r (prev : option ascii) (s : string)
    (c : caps) (k : option ascii -> string -> caps -> option R) :
  rmatch (Star greedy r) prev s c k
  = (fix loop (n : nat) (prev : option ascii) (s : string) (c : caps)
       : option R :=
       let more :=
         match n with
         | O => None
         | S n' =>
             rmatch r prev s c (fun prev' s' c' =>
               if (String.length s' <? String.length s)%nat
               then loop n' prev' s' c' else None)
         end in
       if greedy then
         match more with Some x => Some x | None => k prev s c end
       else
         match k prev s c with Some x => Some x | None => more end)
      (String.length s) prev s c.
Proof. reflexivity. Qed.

(** A successful match splits the input into the part it consumed,
    made of characters of the classes of the pattern, and the rest, on
    which the continuation succeeded. *)
Lemma rmatch_consumed P r :
  chars_in P r ->
  forall R prev s c (k : option ascii -> string -> caps -> option R) x,
    rmatch r prev s c k = Some x ->
    exists s1 s2 prev' c',
      s = s1 +:+ s2 /\ all_chars P s1 = true /\ k prev' s2 c' = Some x.
Proof.
  induction r as [|p|r1 IH1 r2 IH2|r1 IH1 r2 IH2|g r IH|n r IH|r IH| | |];
    intros Hin R prev s c k x H.
  - exists EmptyString, s, prev, c. auto.
  - cbn [rmatch] in H. destruct s as [|a s']; [discriminate|].
    destruct (p a) eqn:Hp; [|discriminate].
    exists (String a EmptyString), s', (Some a), c.
    split; [reflexivity|]. split; [|exact H].
    cbn [all_chars]. rewrite (Hin a Hp). reflexivity.
  - destruct Hin as [Hin1 Hin2]. cbn [rmatch] in H.
    destruct (IH1 Hin1 _ _ _ _ _ _ H) as (s1 & s' & p1 & c1 & -> & Ha1 & H').
    destruct (IH2 Hin2 _ _ _ _ _ _ H') as (s2 & s3 & p2 & c2 & -> & Ha2 & H'').
    exists (s1 +:+ s2), s3, p2, c2.
    split; [symmetry; apply append_assoc|].
    split; [rewrite all_chars_app, Ha1, Ha2; reflexivity|exact H''].
  - destruct Hin as [Hin1 Hin2]. cbn [rmatch] in H.
    destruct (rmatch r1 prev s c k) eqn:H1.
    + injection H as ->. apply (IH1 Hin1 _ _ _ _ _ _ H1).
    + apply (IH2 Hin2 _ _ _ _ _ _ H).
  - cbn [chars_in] in Hin. rewrite rmatch_star_unfold in H.
    revert H. generalize (String.length s) at 1. intros n.
    revert prev s c. induction n as [|n IHn]; intros prev s c H.
    + exists EmptyString, s, prev, c.
      split; [reflexivity|]. split; [reflexivity|].
      destruct g; [exact H|]. destruct (k prev s c); [exact H|discriminate].
    + cbn zeta in H.
      match type of H with
      | context [rmatch r prev s c ?k'] => set (more := rmatch r prev s c k') in H
      end.
      assert (Hor : k prev s c = Some x \/ more = Some x).
      { destruct (k prev s c) eqn:Hk; destruct g; destruct more;
          auto; try congruence. }
      clear H. destruct Hor as [Hk|Hm].
      * exists EmptyString, s, prev, c. auto.
      * subst more.
        destruct (IH Hin _ _ _ _ _ _ Hm) as (s1 & s' & p1 & c1 & -> & Ha1 & H').
        destruct (String.length s' <? String.length (s1 +:+ s'))%nat;
          [|discriminate].
        destruct (IHn _ _ _ H') as (s2 & s3 & p2 & c2 & -> & Ha2 & H'').
        exists (s1 +:+ s2), s3, p2, c2.
        split; [symmetry; apply append_assoc|].
        split; [rewrite all_chars_app, Ha1, Ha2; reflexivity|exact H''].
  - cbn [chars_in] in Hin. cbn [rmatch] in H.
    destruct (IH Hin _ _ _ _ _ _ H) as (s1 & s2 & p1 & c1 & -> & Ha1 & H').
    eauto 10.
  - cbn [rmatch] in H.
    destruct (rmatch r prev s c (fun _ _ _ => Some tt)); [discriminate|].
    exists EmptyString, s, prev, c. auto.
  - cbn [rmatch] in H. destruct (at_word_boundary prev s); [|discriminate].
    exists EmptyString, s, prev, c. auto.
  - cbn [rmatch] in H. destruct prev; [discriminate|].
    exists EmptyString, s, None, c. auto.
  - cbn [rmatch] in H. destruct s; [|discriminate].
    exists EmptyString, EmptyString, prev, c. auto.
Qed.

Lemma chars_in_any r : chars_in (fun _ => true) r.
Proof. induction r; cbn [chars_in]; auto. Qed.

(** A pattern that ends with [$] succeeds only at the end of the input. *)
Lemma rmatch_ends_at_eol r :
  ends_at_eol r ->
  forall R prev s c (k : option ascii -> string -> caps -> option R) x,
    rmatch r prev s c k = Some x ->
    exists prev' c', k prev' EmptyString c' = Some x.
Proof.
  induction r as [|p|r1 IH1 r2 IH2|r1 IH1 r2 IH2|g r IH|n r IH|r IH| | |];
    intros Hend R prev s c k x H; cbn [ends_at_eol] in Hend;
    try contradiction.
  - cbn [rmatch] in H.
    destruct (rmatch_consumed _ r1 (chars_in_any r1) _ _ _ _ _ _ H)
      as (s1 & s2 & p1 & c1 & _ & _ & H').
    apply (IH2 Hend _ _ _ _ _ _ H').
  - destruct Hend as [He1 He2]. cbn [rmatch] in H.
    destruct (rmatch r1 prev s c k) eqn:H1.
    + injection H as ->. apply (IH1 He1 _ _ _ _ _ _ H1).
    + apply (IH2 He2 _ _ _ _ _ _ H).
  - cbn [rmatch] in H. destruct (IH Hend _ _ _ _ _ _ H) as (p1 & c1 & H').
    eauto.
  - cbn [rmatch] in H. destruct s; [|discriminate]. eauto.
Qed.

(** A pattern anchored at both ends and tested against [s] matches the
    whole of [s], so every character of [s] belongs to its classes. *)
Lemma match_here_whole P r prev s h :
  chars_in P r -> ends_at_eol r ->
  match_here r prev s = Some h -> all_chars P s = true.
Proof.
  intros Hin Hend H. unfold match_here in H.
  destruct (rmatch_consumed P r Hin _ _ _ _ _ _ H)
    as (s1 & s2 & p1 & c1 & -> & Ha & H1).
  destruct (rmatch_ends_at_eol r Hend _ _ _ _ _ _ H) as (p2 & c2 & H2).
  rewrite <- H1 in H2. injection H2 as _ _ <-.
  rewrite append_empty_r. exact Ha.
Qed.

Lemma isoDatePattern_at_start a s : search_from isoDatePattern (Some a) s = None.
Proof.
  revert a. induction s as [|b s IH]; intros a; [reflexivity|].
  cbn [search_from]. change (match_here isoDatePattern (Some a) (String b s))
    with (@None rx_hit). apply IH.
Qed.

Lemma isoDatePattern_chars d :
  rx_test isoDatePattern d = true -> all_chars date_char d = true.
Proof.
  unfold rx_test. intros H.
  destruct (match_here isoDatePattern None d) as [h|] eqn:Hm.
  - apply (match_here_whole date_char isoDatePattern None d h); [| |exact Hm].
    + unfold isoDatePattern. cbn -[is_digit date_char Ascii.eqb].
      repeat split; intros a Ha; unfold date_char;
        try (apply Ascii.eqb_eq in Ha; subst a; reflexivity);
        repeat match type of Ha with
               | (_ || _) = true => apply orb_prop in Ha; destruct Ha as [Ha|Ha]
               end;
        rewrite Ha, ?orb_true_r; reflexivity.
    + unfold isoDatePattern. cbn. exact I.
  - destruct d as [|a d]; cbn [search_from] in H; rewrite Hm in H;
      [discriminate|]. rewrite isoDatePattern_at_start in H. discriminate.
Qed.

(** ** Validation of the dates that enter the query *)

Lemma truthy_default o : truthy o = true -> o = Some (default EmptyString o).
Proof. destruct o; [reflexivity|discriminate]. Qed.

(** X3.  [appendCreatedAtFilter] returns a query only when each date it
    was given consists of digits and the characters [-], [T], [:], [.]
    and [Z]; a date with any other character (a quote, a bracket, a
    space, a parenthesis of the query syntax) makes it throw instead. *)
Theorem appendCreatedAtFilter_dates_checked
    existingQuery createdAfter createdBefore r :
  appendCreatedAtFilter existingQuery createdAfter createdBefore = Fulfilled r ->
  all_chars date_char (default EmptyString createdAfter) = true
  /\ all_chars date_char (default EmptyString createdBefore) = true.
Proof.
  unfold appendCreatedAtFilter. intros H.
  assert (Hempty : forall o, truthy o = false ->
            all_chars date_char (default EmptyString o) = true).
  { intros [s|] Ho; [|reflexivity]. cbn [truthy] in Ho.
    apply negb_false_iff, String.eqb_eq in Ho. subst s. reflexivity. }
  destruct (truthy createdAfter) eqn:Ha; destruct (truthy createdBefore) eqn:Hb;
    cbn [negb andb] in H.
  - destruct (rx_test isoDatePattern (default EmptyString createdAfter)) eqn:Ta;
      cbn [negb] in H; [|discriminate].
    destruct (rx_test isoDatePattern (default EmptyString createdBefore)) eqn:Tb;
      cbn [negb] in H; [|discriminate].
    split; apply isoDatePattern_chars; assumption.
  - destruct (rx_test isoDatePattern (default EmptyString createdAfter)) eqn:Ta;
      cbn [negb] in H; [|discriminate].
    split; [apply isoDatePattern_chars; assumption|apply Hempty; assumption].
  - destruct (rx_test isoDatePattern (default EmptyString createdBefore)) eqn:Tb;
      cbn [negb] in H; [|discriminate].
    split; [apply Hempty; assumption|apply isoDatePattern_chars; assumption].
  - split; apply Hempty; assumption.
Qed.

Lemma appendCreatedAtFilter_dates_checked_witness :
  appendCreatedAtFilter (Some "refund") (Some "2024-01-15T10:00:00Z") None
  = Fulfilled
      (Some "(refund) AND (createdAt:[2024-01-15T10:00:00Z TO *])")
  /\ all_chars date_char "2024-01-15T10:00:00Z" = true.
Proof.
  split; [reflexivity|].
  apply (appendCreatedAtFilter_dates_checked (Some "refund")
           (Some "2024-01-15T10:00:00Z") None
           (Some "(refund) AND (createdAt:[2024-01-15T10:00:00Z TO *])")).
  reflexivity.
Defined.

Lemma appendCreatedAtFilter_malformed_after q d :
  d <> EmptyString -> all_chars date_char d = false ->
  appendCreatedAtFilter q (Some d) None = Rejected (invalid_createdAfter d).
Proof.
  intros Hd Hc. unfold appendCreatedAtFilter.
  assert (Ht : truthy (Some d) = true).
  { cbn [truthy]. apply negb_true_iff. apply String.eqb_neq. exact Hd. }
  rewrite Ht. change (default EmptyString (Some d)) with d.
  cbn [negb andb truthy].
  destruct (rx_test isoDatePattern d) eqn:T.
  - apply isoDatePattern_chars in T. congruence.
  - reflexivity.
Qed.

Lemma statuses_or_default_cons input :
  exists s l, statuses_or_default input = s :: l.
Proof.
  unfold statuses_or_default. destruct (in_statuses input) as [[|s l]|];
    cbn; eauto.
Qed.

(** X4.  A search whose [createdAfter] holds a character outside the
    date alphabet fails with the error "Invalid createdAfter date
    format", in keyword, structured and listing mode alike, and whatever
    the upstream would have answered: the date never reaches a query. *)
Theorem searchConversations_rejects_malformed_createdAfter `{JsDate} `{Clock}
    config api threads input args_limit verbose d :
  in_createdAfter input = Some d ->
  d <> EmptyString ->
  all_chars date_char d = false ->
  searchConversations config api threads input args_limit verbose
  = Rejected (invalid_createdAfter d).
Proof.
  intros Hin Hd Hc. unfold searchConversations.
  set (input' := if in_includeTranscripts input && (num_or args_limit 0 =? 0)
                 then with_limit input 10 else input).
  assert (Hin' : in_createdAfter input' = Some d).
  { unfold input'. destruct (_ && _); [exact Hin|exact Hin]. }
  clearbody input'. clear Hin.
  assert (Ht : truthy (Some d) = true).
  { cbn [truthy]. apply negb_true_iff. apply String.eqb_neq. exact Hd. }
  assert (Hk : searchConversationsKeyword config api input' verbose
               = Rejected (invalid_createdAfter d)).
  { unfold searchConversationsKeyword. rewrite Hin', Ht.
    change (default EmptyString (Some d)) with d.
    destruct (statuses_or_default_cons input') as (s & l & ->).
    cbn [allSettled map]. unfold searchSingleStatus at 1.
    rewrite appendCreatedAtFilter_malformed_after by assumption.
    reflexivity. }
  assert (Hs : searchConversationsStructured config api input' verbose
               = Rejected (invalid_createdAfter d)).
  { unfold searchConversationsStructured. rewrite Hin'.
    rewrite appendCreatedAtFilter_malformed_after by assumption.
    reflexivity. }
  assert (Hl : searchConversationsList config api input' verbose
               = Rejected (invalid_createdAfter d)).
  { unfold searchConversationsList. rewrite Hin'.
    rewrite appendCreatedAtFilter_malformed_after by assumption.
    reflexivity. }
  rewrite Hk, Hs, Hl.
  destruct (nonempty (in_searchTerms input')); [reflexivity|].
  destruct (_ || _); reflexivity.
Qed.

Lemma searchConversations_rejects_malformed_createdAfter_witness :
  searchConversations (H := iso_getTime) (H0 := example_clock)
    default_config quiet_api unauthorized_threads
    (with_dates example_input (Some "2024-01-01 OR status:spam") None)
    None false
  = Rejected (invalid_createdAfter "2024-01-01 OR status:spam").
Proof.
  apply (searchConversations_rejects_malformed_createdAfter
           (H := iso_getTime) (H0 := example_clock));
    [reflexivity|discriminate|reflexivity].
Defined.

(** ** The page loop in general *)

Lemma gathered_succ {A} (get : Z -> Settled (Page A)) k :
  gathered get (S k)
  = gathered get k ++ items_of (get (Z.of_nat (S k))).
Proof.
  unfold gathered. rewrite seq_S, flat_map_app. cbn [flat_map].
  rewrite app_nil_r. reflexivity.
Qed.

Lemma reported_total_succ {A} (get : Z -> Settled (Page A)) k :
  reported_total get (S k)
  = match get (Z.of_nat (S k)) with
    | Fulfilled p => num_or (page_totalElements p) (reported_total get k)
    | Rejected _ => reported_total get k
    end.
Proof.
  unfold reported_total. rewrite seq_S, fold_left_app. reflexivity.
Qed.

(** The state of the loop after pages [1 .. k]. *)
Lemma fetch_pages_loop_unroll {A} (get : Z -> Settled (Page A)) desired cap k :
  fetched_through get desired cap k ->
  fetch_pages_loop get desired cap [] 0 1 true
  = fetch_pages_loop get desired (cap - k) (gathered get k)
      (reported_total get k) (Z.of_nat k + 1)
      (match k with O => true | _ => has_next (get (Z.of_nat k)) end).
Proof.
  induction k as [|k IH]; intros (Hcap & Hs & Hn & Hl).
  - rewrite Nat.sub_0_r. reflexivity.
  - rewrite IH.
    2:{ split; [lia|]. split; [intros i Hi; apply Hs; lia|].
        split; [intros i Hi; apply Hn; lia|intros i Hi; apply Hl; lia]. }
    replace (cap - k)%nat with (S (cap - S k)) by lia.
    cbn [fetch_pages_loop].
    assert (Hlt : (len (gathered get k) <? desired) = true)
      by (apply Z.ltb_lt, Hl; lia).
    assert (Hmore : match k with
                    | O => true
                    | _ => has_next (get (Z.of_nat k))
                    end = true)
      by (destruct k; [reflexivity|apply Hn; lia]).
    rewrite Hlt, Hmore. cbn [andb].
    replace (Z.of_nat k + 1) with (Z.of_nat (S k)) by lia.
    assert (Hsk : served (get (Z.of_nat (S k))) = true) by (apply Hs; lia).
    rewrite gathered_succ, reported_total_succ.
    destruct (get (Z.of_nat (S k))) as [p|e]; [|discriminate]. reflexivity.
Qed.

(** Why the loop stopped after page [k]. *)
Lemma fetch_pages_loop_result {A} (get : Z -> Settled (Page A)) desired cap :
  forall left k items total,
    (k + left = cap)%nat ->
    fetched_through get desired cap k ->
    fetch_pages_loop get desired left (gathered get k) (reported_total get k)
      (Z.of_nat k + 1)
      (match k with O => true | _ => has_next (get (Z.of_nat k)) end)
    = Fulfilled (items, total) ->
    exists k',
      fetched_through get desired cap k'
      /\ items = gathered get k'
      /\ total = reported_total get k'
      /\ (k' = cap \/ desired <= len items
          \/ (1 <= k')%nat /\ has_next (get (Z.of_nat k')) = false).
Proof.
  induction left as [|left IH]; intros k items total Hk Hf H.
  - cbn [fetch_pages_loop] in H. injection H as <- <-.
    exists k. split; [exact Hf|]. split; [reflexivity|].
    split; [reflexivity|]. left. lia.
  - cbn [fetch_pages_loop] in H.
    destruct (len (gathered get k) <? desired) eqn:Hlt.
    + destruct (match k with O => true | _ => has_next (get (Z.of_nat k)) end)
        eqn:Hmore; cbn [andb] in H.
      * replace (Z.of_nat k + 1) with (Z.of_nat (S k)) in H by lia.
        destruct (get (Z.of_nat (S k))) as [p|e] eqn:Hg; [|discriminate].
        apply (IH (S k)); [lia| |].
        -- destruct Hf as (Hcap & Hs & Hn & Hl).
           split; [lia|]. split; [|split].
           ++ intros i Hi. destruct (Nat.eq_dec i (S k)) as [->|Hne];
                [rewrite Hg; reflexivity|apply Hs; lia].
           ++ intros i Hi. destruct (Nat.eq_dec i k) as [->|Hne];
                [destruct k; [lia|exact Hmore]|apply Hn; lia].
           ++ intros i Hi. destruct (Nat.eq_dec i k) as [->|Hne];
                [apply Z.ltb_lt; exact Hlt|apply Hl; lia].
        -- rewrite gathered_succ, reported_total_succ, Hg.
           cbn [items_of has_next]. exact H.
      * injection H as <- <-. exists k. split; [exact Hf|].
        split; [reflexivity|]. split; [reflexivity|].
        right. right. destruct k; [discriminate|]. split; [lia|exact Hmore].
    + cbn [andb] in H. injection H as <- <-. exists k. split; [exact Hf|].
      split; [reflexivity|]. split; [reflexivity|].
      right. left. apply Z.ltb_ge. exact Hlt.
Qed.

Lemma fetched_through_0 {A} (get : Z -> Settled (Page A)) desired cap :
  fetched_through get desired cap 0.
Proof. repeat split; intros; lia. Qed.

Lemma fetch_pages_loop_fulfilled {A} (get : Z -> Settled (Page A)) desired cap
    items total :
  fetch_pages_loop get desired cap [] 0 1 true = Fulfilled (items, total) ->
  exists k,
    fetched_through get desired cap k
    /\ items = gathered get k
    /\ total = reported_total get k
    /\ (k = cap \/ desired <= len items
        \/ ((1 <= k)%nat /\ has_next (get (Z.of_nat k)) = false)).
Proof.
  intros H.
  apply (fetch_pages_loop_result get desired cap cap 0%nat items total);
    [lia|apply fetched_through_0|exact H].
Qed.

Lemma fetch_pages_loop_rejected {A} (get : Z -> Settled (Page A)) desired cap
    k e :
  fetched_through get desired cap k ->
  (k < cap)%nat ->
  len (gathered get k) < desired ->
  (k = 0%nat \/ has_next (get (Z.of_nat k)) = true) ->
  get (Z.of_nat k + 1) = Rejected e ->
  fetch_pages_loop get desired cap [] 0 1 true = Rejected e.
Proof.
  intros Hf Hcap Hlt Hmore Hg.
  rewrite (fetch_pages_loop_unroll get desired cap k Hf).
  replace (cap - k)%nat with (S (cap - S k)) by lia.
  cbn [fetch_pages_loop].
  apply Z.ltb_lt in Hlt. rewrite Hlt.
  replace (match k with O => true | _ => has_next (get (Z.of_nat k)) end)
    with true by (destruct k; [reflexivity|destruct Hmore; [lia|congruence]]).
  cbn [andb]. rewrite Hg. reflexivity.
Qed.

(** The loop never looks at a page beyond its limit. *)
Lemma fetch_pages_loop_ext_upto {A} (get get' : Z -> Settled (Page A)) desired :
  forall left items total page hasMore,
    (forall i, page <= i < page + Z.of_nat left -> get i = get' i) ->
    fetch_pages_loop get desired left items total page hasMore
    = fetch_pages_loop get' desired left items total page hasMore.
Proof.
  induction left as [|left IH]; intros items total page hasMore Hext;
    [reflexivity|].
  cbn [fetch_pages_loop]. rewrite (Hext page) by lia.
  destruct (_ && _); [|reflexivity].
  destruct (get' page); [|reflexivity].
  apply IH. intros i Hi. apply Hext. lia.
Qed.

(** ** fetchConversationPages and fetchThreadPages *)

(** X5.  The two page loops stay within their limit: the result of
    [fetchConversationPages] depends on the upstream only through the
    requests for pages 1 to [maxPages || ceil(desiredCount / 25) + 1]
    with the given parameters, and that of [fetchThreadPages] only
    through pages 1 to [ceil(desiredCount / 25) + 1] of the given
    conversation. *)
Theorem page_loops_stay_within_cap :
  (forall (api api' : ConvApi) params desiredCount maxPages,
     (forall page, 1 <= page <= Z.of_nat (page_cap maxPages desiredCount) ->
                   api (with_page params page) = api' (with_page params page)) ->
     fetchConversationPages api params desiredCount maxPages
     = fetchConversationPages api' params desiredCount maxPages)
  /\ (forall (api api' : ThreadApi) conversationId desiredCount,
        (forall page, 1 <= page <= Z.of_nat (page_cap None desiredCount) ->
                      api conversationId page desiredCount
                      = api' conversationId page desiredCount) ->
        fetchThreadPages api conversationId desiredCount
        = fetchThreadPages api' conversationId desiredCount).
Proof.
  split.
  - intros api api' params desired maxPages Hext.
    unfold fetchConversationPages. apply fetch_pages_loop_ext_upto.
    intros i Hi. apply Hext. unfold page_cap. lia.
  - intros api api' conversationId desired Hext.
    unfold fetchThreadPages. apply fetch_pages_loop_ext_upto.
    intros i Hi. apply Hext. unfold page_cap, num_or. lia.
Qed.

Lemma page_loops_stay_within_cap_witness :
  let api : ConvApi := paged_upstream 25 sixty_active in
  let api' : ConvApi := fun q =>
    if p_page q <=? 3 then api q else Rejected (OtherError "not requested") in
  let params := with_status (list_baseParams example_input None None) "active" in
  fetchConversationPages api params 30 None
  = fetchConversationPages api' params 30 None.
Proof.
  intros api api' params.
  apply (proj1 page_loops_stay_within_cap).
  intros page Hpage. unfold api'.
  change (p_page (with_page params page)) with page.
  destruct (page <=? 3) eqn:E; [reflexivity|].
  apply Z.leb_gt in E. change (Z.of_nat (page_cap None 30)) with 3 in Hpage.
  lia.
Defined.

(** X6.  What the page loops return.  When [fetchConversationPages]
    (or [fetchThreadPages]) returns, its items are exactly the items of
    pages 1 to [k], whole and in order, for some [k] within the page
    limit; every one of these pages was served, each but the last
    carried a [next] link and was requested only while fewer than
    [desiredCount] items were held; the total is the last
    [totalElements] reported; and the loop stopped because the limit
    was reached, or enough items were held, or page [k] had no [next]
    link. *)
Theorem page_loops_result :
  (forall (api : ConvApi) params desiredCount maxPages conversations
          totalElements,
     fetchConversationPages api params desiredCount maxPages
     = Fulfilled (conversations, totalElements) ->
     let get := conversation_pages api params in
     let cap := page_cap maxPages desiredCount in
     exists k,
       fetched_through get desiredCount cap k
       /\ conversations = gathered get k
       /\ totalElements = reported_total get k
       /\ (k = cap \/ desiredCount <= len conversations
           \/ (1 <= k)%nat /\ has_next (get (Z.of_nat k)) = false))
  /\ (forall (api : ThreadApi) conversationId desiredCount threads
             totalElements,
        fetchThreadPages api conversationId desiredCount
        = Fulfilled (threads, totalElements) ->
        let get := thread_pages api conversationId desiredCount in
        let cap := page_cap None desiredCount in
        exists k,
          fetched_through get desiredCount cap k
          /\ threads = gathered get k
          /\ totalElements = reported_total get k
          /\ (k = cap \/ desiredCount <= len threads
              \/ (1 <= k)%nat /\ has_next (get (Z.of_nat k)) = false)).
Proof.
  split.
  - intros api params desired maxPages conversations total H get cap.
    apply (fetch_pages_loop_fulfilled get desired cap). exact H.
  - intros api conversationId desired threads total H get cap.
    apply (fetch_pages_loop_fulfilled get desired cap). exact H.
Qed.

Lemma page_loops_result_witness :
  let api : ConvApi := paged_upstream 25 sixty_active in
  let params := with_status (list_baseParams example_input None None) "active" in
  exists conversations totalElements,
    fetchConversationPages api params 30 None
    = Fulfilled (conversations, totalElements)
    /\ exists k,
         fetched_through (conversation_pages api params) 30 (page_cap None 30) k
         /\ conversations = gathered (conversation_pages api params) k
         /\ totalElements = reported_total (conversation_pages api params) k
         /\ (k = page_cap None 30 \/ 30 <= len conversations
             \/ (1 <= k)%nat
                /\ has_next (conversation_pages api params (Z.of_nat k)) = false).
Proof.
  intros api params. eexists _, _. split; [vm_compute; reflexivity|].
  apply (proj1 page_loops_result api params 30 None). vm_compute. reflexivity.
Defined.

(** X7.  A rejected page rejects the whole fetch.  If the loop went
    through pages 1 to [k], still holds fewer than [desiredCount] items,
    may fetch another page and sees a [next] link, and the request for
    page [k + 1] is rejected, then the fetch is rejected with the same
    reason: the items gathered so far are not returned. *)
Theorem page_loops_rejected :
  (forall (api : ConvApi) params desiredCount maxPages (k : nat) e,
     let get := conversation_pages api params in
     let cap := page_cap maxPages desiredCount in
     fetched_through get desiredCount cap k ->
     (k < cap)%nat ->
     len (gathered get k) < desiredCount ->
     (k = 0%nat \/ has_next (get (Z.of_nat k)) = true) ->
     get (Z.of_nat k + 1) = Rejected e ->
     fetchConversationPages api params desiredCount maxPages = Rejected e)
  /\ (forall (api : ThreadApi) conversationId desiredCount (k : nat) e,
        let get := thread_pages api conversationId desiredCount in
        let cap := page_cap None desiredCount in
        fetched_through get desiredCount cap k ->
        (k < cap)%nat ->
        len (gathered get k) < desiredCount ->
        (k = 0%nat \/ has_next (get (Z.of_nat k)) = true) ->
        get (Z.of_nat k + 1) = Rejected e ->
        fetchThreadPages api conversationId desiredCount = Rejected e).
Proof.
  split.
  - intros api params desired maxPages k e get cap Hf Hk Hl Hn Hg.
    apply (fetch_pages_loop_rejected get desired cap k e); assumption.
  - intros api conversationId desired k e get cap Hf Hk Hl Hn Hg.
    apply (fetch_pages_loop_rejected get desired cap k e); assumption.
Qed.

Lemma page_loops_rejected_witness :
  let api : ConvApi := fun q =>
    if p_page q =? 2 then Rejected (ApiError RATE_LIMIT "Too many requests")
    else paged_upstream 25 sixty_active q in
  let params := with_status (list_baseParams example_input None None) "active" in
  fetchConversationPages api params 30 None
  = Rejected (ApiError RATE_LIMIT "Too many requests").
Proof.
  intros api params.
  apply (proj1 page_loops_rejected api params 30 None 1%nat).
  - split; [vm_compute; lia|]. split; [|split].
    + intros i Hi. assert (i = 1%nat) as -> by lia. reflexivity.
    + intros i Hi. lia.
    + intros i Hi. assert (i = 0%nat) as -> by lia. reflexivity.
  - vm_compute. lia.
  - reflexivity.
  - right. reflexivity.
  - reflexivity.
Defined.

(** ** Sizes and counts of search results *)

Lemma len_render verbose l : len (render verbose l) = len l.
Proof. unfold len. rewrite render_length. reflexivity. Qed.

Lemma len_firstn_le {A} (n : Z) (l : list A) :
  0 <= n -> len (firstn (Z.to_nat n) l) <= n.
Proof. intros Hn. unfold len. rewrite length_firstn. lia. Qed.

Lemma len_filter_le {A} (p : A -> bool) (l : list A) :
  len (List.filter p l) <= len l.
Proof. unfold len. pose proof (filter_length_le p l). lia. Qed.

Lemma searchSingleStatus_length `{JsDate} api status searchQuery createdAfter
    limit inboxId createdBefore verbose v :
  0 <= limit ->
  searchSingleStatus api status searchQuery createdAfter limit inboxId
    createdBefore verbose = Fulfilled v ->
  len (sr_conversations v) <= limit.
Proof.
  intros Hl. unfold searchSingleStatus. intros Heq.
  apply and_then_inv in Heq. destruct Heq as (qd & _ & Heq).
  apply and_then_inv in Heq. destruct Heq as ([fetched total] & _ & Heq).
  apply and_then_inv in Heq. destruct Heq as ([convs flag] & _ & Heq).
  inversion Heq; subst v; clear Heq. cbn [sr_conversations].
  rewrite slice_or_keep, len_render. apply len_firstn_le. exact Hl.
Qed.

Lemma keyword_sizes `{JsDate} `{Clock} config api input verbose r :
  1 <= in_limit input ->
  searchConversationsKeyword config api input verbose = Fulfilled r ->
  Forall (fun n => n <= in_limit input) (map len (listed (KeywordOut r)))
  /\ reported (KeywordOut r) = map Some (map len (listed (KeywordOut r)))
  /\ kw_totalConversationsFound r = sumZ (map len (listed (KeywordOut r))).
Proof.
  intros Hl Heq. rewrite searchConversationsKeyword_spec in Heq.
  destruct (first_fatal (keyword_branches config api input verbose));
    [discriminate|].
  cbn zeta in Heq. inversion Heq; subst r; clear Heq.
  cbn [listed reported kw_resultsByStatus kw_totalConversationsFound].
  rewrite !map_map. cbn [group_of group_conversations group_count].
  split; [|split; reflexivity].
  apply Forall_map, List.Forall_forall. intros [s b] Hb.
  unfold keyword_branches in Hb.
  apply In_allSettled in Hb. destruct Hb as [_ ->].
  destruct (keyword_branch config api input verbose s) as [v|e] eqn:Hv;
    cbn [keyword_entry sr_conversations]; [|unfold len; simpl; lia].
  unfold keyword_branch in Hv. rewrite (limit_or_default_id input Hl) in Hv.
  eapply searchSingleStatus_length; [|exact Hv]. lia.
Qed.

Lemma structured_sizes `{JsDate} config api input verbose r :
  1 <= in_limit input ->
  searchConversationsStructured config api input verbose = Fulfilled r ->
  len (st_results r) <= in_limit input
  /\ st_returned r = len (st_results r).
Proof.
  intros Hl. unfold searchConversationsStructured.
  rewrite (limit_or_default_id input Hl). intros Heq.
  apply and_then_inv in Heq. destruct Heq as (qd & _ & Heq).
  apply and_then_inv in Heq. destruct Heq as (convs & _ & Heq).
  apply and_then_inv in Heq. destruct Heq as ([convs' flag] & _ & Heq).
  inversion Heq; subst r; clear Heq. cbn [st_results st_returned].
  rewrite slice_or_keep, len_render. split; [|reflexivity].
  apply len_firstn_le. lia.
Qed.

(** The conversations and the pagination object that reach the last part
    of listing mode. *)
Lemma searchConversationsList_merged `{JsDate} config api input verbose r :
  1 <= in_limit input ->
  searchConversationsList config api input verbose = Fulfilled r ->
  exists convs statuses pg,
    list_createdBefore input verbose convs statuses pg = Fulfilled r
    /\ len convs <= in_limit input
    /\ returned pg = Some (len convs)
    /\ totalResults pg = None.
Proof.
  intros Hl. unfold searchConversationsList.
  rewrite (limit_or_default_id input Hl). intros Heq.
  apply and_then_inv in Heq. destruct Heq as (qd & _ & Heq).
  apply and_then_inv in Heq. destruct Heq as ([[convs st] pg] & Hm & Heq).
  exists convs, st, pg. split; [exact Heq|]. clear Heq.
  assert (Hmulti :
    (await st0 :=
       merge_statuses
         (allSettled
            (fun status =>
               fetchConversationPages api
                 (with_status (list_baseParams input qd
                                 (str_or (in_inboxId input)
                                    (defaultInboxId config)))
                    (status_name status)) (in_limit input) None)
            (statuses_or_default input)) merge_start in
     let failedStatuses := ms_failedStatuses st0 in
     let searchedStatuses :=
       match failedStatuses with
       | [] => statuses_or_default input
       | _ => without_failed (statuses_or_default input) failedStatuses
       end in
     let conversations := Array_sort newest_first (ms_conversations st0) in
     let conversations :=
       if in_limit input <? len conversations
       then slice0 (in_limit input) conversations else conversations in
     Fulfilled
       (conversations, searchedStatuses,
        {| returned := Some (len conversations);
           totalResults := None;
           totalAvailable := Some (ms_totalAvailable st0);
           totalElements := None;
           errors := match failedStatuses with
                     | [] => None
                     | _ => Some failedStatuses
                     end;
           note := None |})) = Fulfilled (convs, st, pg) ->
    len convs <= in_limit input /\ returned pg = Some (len convs)
    /\ totalResults pg = None).
  { intros Heq. apply and_then_inv in Heq. destruct Heq as (st0 & _ & Heq).
    cbn zeta in Heq. inversion Heq; subst; clear Heq.
    cbn [returned totalResults]. rewrite slice_or_keep.
    split; [apply len_firstn_le; lia|auto]. }
  destruct (in_status input) as [status|]; [|exact (Hmulti Hm)].
  destruct (in_statuses input) as [l|]; [exact (Hmulti Hm)|].
  apply and_then_inv in Hm. destruct Hm as ([fetched total] & _ & Hm).
  inversion Hm; subst; clear Hm. cbn [returned totalResults].
  split; [apply len_firstn_le; lia|auto].
Qed.

Lemma applyCreatedBeforeFilter_counts `{JsDate} convs bound fr :
  applyCreatedBeforeFilter convs bound = Fulfilled fr ->
  len (filtered fr) <= len convs
  /\ (wasFiltered fr = false -> len (filtered fr) = len convs).
Proof.
  unfold applyCreatedBeforeFilter.
  destruct (Date_getTime bound) as [tb|]; [|discriminate].
  intros Heq. inversion Heq; subst; clear Heq. cbn [filtered wasFiltered].
  split; [apply len_filter_le|].
  intros Hw. apply Z.ltb_ge in Hw.
  match goal with |- len (List.filter ?p convs) = _ =>
    pose proof (len_filter_le p convs) end. lia.
Qed.

Lemma list_createdBefore_sizes `{JsDate} input verbose convs statuses pg r :
  returned pg = Some (len convs) ->
  totalResults pg = None ->
  list_createdBefore input verbose convs statuses pg = Fulfilled r ->
  len (li_results r) <= len convs
  /\ reported (ListOut r) = [Some (len (li_results r))].
Proof.
  intros Hret Htot. unfold list_createdBefore. intros Heq.
  apply and_then_inv in Heq.
  destruct Heq as ([[convs' flag] pg'] & Hstep & Hout).
  inversion Hout; subst r; clear Hout.
  cbn [reported li_results li_pagination]. rewrite len_render.
  destruct (truthy (in_createdBefore input)).
  - apply and_then_inv in Hstep. destruct Hstep as (fr & Hfr & Hstep).
    destruct (applyCreatedBeforeFilter_counts _ _ _ Hfr) as (Hle & Hsame).
    destruct (wasFiltered fr) eqn:Hw.
    + destruct (in_status input);
        inversion Hstep; subst; clear Hstep; split; auto.
    + inversion Hstep; subst; clear Hstep. split; [exact Hle|].
      cbn [mbind option_bind]. rewrite Htot, Hret, Hsame; reflexivity.
  - inversion Hstep; subst; clear Hstep. split; [lia|].
    cbn [mbind option_bind]. rewrite Htot, Hret. reflexivity.
Qed.

Lemma attachTranscripts_length `{JsDate} config api conversations maxMessages :
  len (attachTranscripts config api conversations maxMessages)
  = len conversations.
Proof.
  unfold attachTranscripts, allSettled, len. rewrite !length_map. reflexivity.
Qed.

Lemma enrichWithTranscripts_sizes `{JsDate} config api r maxMessages :
  map len (listed (enrichWithTranscripts config api r maxMessages))
  = map len (listed r)
  /\ reported (enrichWithTranscripts config api r maxMessages) = reported r
  /\ reported_sum (enrichWithTranscripts config api r maxMessages)
     = reported_sum r.
Proof.
  destruct r as [r|r|r]; cbn [enrichWithTranscripts listed reported reported_sum
    kw_resultsByStatus st_results li_results st_returned li_pagination
    kw_totalConversationsFound map].
  - rewrite !map_map. cbn [group_conversations group_count].
    split; [|split; reflexivity].
    apply map_ext. intros g. apply attachTranscripts_length.
  - rewrite attachTranscripts_length. auto.
  - rewrite attachTranscripts_length. auto.
Qed.

(** X8.  A search keeps to its limit and reports what it returns.  With
    a [limit] of at least 1, every conversation list of a
    [searchConversations] result (the list of each status group in
    keyword mode, the [results] array in structured and listing mode,
    with or without transcripts) holds at most [limit] conversations,
    or at most 10 when transcripts are requested and the arguments
    carry no limit; the count reported for each list is its length, and
    [totalConversationsFound] is the sum of the lengths. *)
Theorem searchConversations_sizes `{JsDate} `{Clock} config api threads input
    args_limit verbose out :
  1 <= in_limit input ->
  searchConversations config api threads input args_limit verbose
  = Fulfilled out ->
  Forall (fun n => n <= effective_limit input args_limit) (output_sizes out)
  /\ output_counts out = map Some (output_sizes out)
  /\ (forall total, output_sum out = Some total ->
                    total = sumZ (output_sizes out)).
Proof.
  intros Hl. unfold searchConversations, effective_limit.
  set (input' := if in_includeTranscripts input && (num_or args_limit 0 =? 0)
                 then with_limit input 10 else input).
  assert (Hl' : 1 <= in_limit input').
  { unfold input'. destruct (_ && _); [cbn; lia|exact Hl]. }
  assert (Hlim : in_limit input'
                 = if in_includeTranscripts input && (num_or args_limit 0 =? 0)
                   then 10 else in_limit input).
  { unfold input'. destruct (_ && _); reflexivity. }
  rewrite <- Hlim. clearbody input'. clear Hlim Hl.
  intros Heq. apply and_then_inv in Heq. destruct Heq as (r & Hr & Hout).
  assert (Hplain :
    Forall (fun n => n <= in_limit input') (map len (listed r))
    /\ reported r = map Some (map len (listed r))
    /\ (forall total, reported_sum r = Some total ->
                      total = sumZ (map len (listed r)))).
  { destruct (nonempty (in_searchTerms input')).
    - apply and_then_inv in Hr. destruct Hr as (k & Hk & Hr).
      inversion Hr; subst r; clear Hr.
      destruct (keyword_sizes _ _ _ _ _ Hl' Hk) as (H1 & H2 & H3).
      split; [exact H1|]. split; [exact H2|].
      intros total Ht. cbn [reported_sum] in Ht. congruence.
    - destruct (_ || _).
      + apply and_then_inv in Hr. destruct Hr as (k & Hk & Hr).
        inversion Hr; subst r; clear Hr.
        destruct (structured_sizes _ _ _ _ _ Hl' Hk) as (H1 & H2).
        cbn [listed reported reported_sum map]. rewrite H2.
        split; [constructor; [exact H1|constructor]|].
        split; [reflexivity|discriminate].
      + apply and_then_inv in Hr. destruct Hr as (k & Hk & Hr).
        inversion Hr; subst r; clear Hr.
        destruct (searchConversationsList_merged _ _ _ _ _ Hl' Hk)
          as (convs & st & pg & Hc & Hle & Hret & Htot).
        destruct (list_createdBefore_sizes _ _ _ _ _ _ Hret Htot Hc)
          as (H1 & H2).
        rewrite H2. cbn [listed reported_sum map].
        split; [constructor; [lia|constructor]|].
        split; [reflexivity|discriminate]. }
  destruct Hplain as (H1 & H2 & H3).
  destruct (in_includeTranscripts input'); inversion Hout; subst out;
    cbn [output_sizes output_counts output_sum]; [|auto].
  destruct (enrichWithTranscripts_sizes config threads r
              (in_transcriptMaxMessages input')) as (E1 & E2 & E3).
  rewrite E1, E2, E3. auto.
Qed.

Lemma searchConversations_sizes_witness :
  let input := with_transcripts (with_status_filter example_input (Some active) None) in
  exists out,
    searchConversations (H := iso_getTime) (H0 := example_clock)
      default_config (paged_upstream 25 sixty_active) unauthorized_threads
      input None false = Fulfilled out
    /\ output_sizes out = [10]
    /\ Forall (fun n => n <= effective_limit input None) (output_sizes out).
Proof.
  intros input. eexists. split; [vm_compute; reflexivity|].
  split; [reflexivity|].
  refine (proj1 (searchConversations_sizes (H := iso_getTime)
                   (H0 := example_clock) default_config
                   (paged_upstream 25 sixty_active) unauthorized_threads
                   input None false _ _ _)).
  - vm_compute. discriminate.
  - vm_compute. reflexivity.
Defined.

(** ** Structured mode over several statuses *)

Lemma merge_fulfilled_spec results : forall seen convs,
  merge_fulfilled results seen convs
  = (push_unseen seen convs (fulfilled_records results)).2.
Proof.
  induction results as [|[s [[l t]|e]] results IH]; intros seen convs.
  - reflexivity.
  - cbn [merge_fulfilled fst]. unfold fulfilled_records.
    cbn [fulfilled_values flat_map fst]. rewrite push_unseen_app.
    destruct (push_unseen seen convs l) as [seen' convs'] eqn:Hp.
    cbn [fst snd]. apply IH.
  - cbn [merge_fulfilled]. rewrite IH. reflexivity.
Qed.

(** X9.  Structured mode with a [statuses] list never fails on an
    upstream error and never reports one.  Once the date filter is
    accepted (and no [createdBefore] is given), the search returns
    whatever each status fetch settled to: the records of the statuses
    that answered, without duplicate ids, newest first when their dates
    parse, cut at the limit; a rejected fetch, whatever its error, is
    skipped, so that the result is empty when every fetch was
    rejected. *)
Theorem structured_statuses_skip_failures `{JsDate} config api input verbose
    queryWithDate :
  nonempty (in_statuses input) = true ->
  truthy (in_createdBefore input) = false ->
  appendCreatedAtFilter (structured_query input) (in_createdAfter input) None
  = Fulfilled queryWithDate ->
  let fetches := structured_fetches config api input queryWithDate in
  let kept := merged_newest_first (limit_or_default input) fetches in
  exists r,
    searchConversationsStructured config api input verbose = Fulfilled r
    /\ st_results r = render verbose kept
    /\ st_returned r = len kept
    /\ st_statuses r = in_statuses input
    /\ st_clientSideFiltering r = false
    /\ NoDup (map out_id (st_results r))
    /\ (forall c, In c kept -> In c (fulfilled_records fetches))
    /\ (all_dated (fulfilled_records fetches) ->
        StronglySorted
          (fun a b => not_older (conv_createdAt a) (conv_createdAt b)) kept)
    /\ (fulfilled_values fetches = [] -> st_results r = []).
Proof.
  intros Hst Hcb Hq fetches kept.
  assert (Hrun : searchConversationsStructured config api input verbose
                 = Fulfilled
                     {| st_results := render verbose kept;
                        st_query := structured_queryString input;
                        st_returned := len kept;
                        st_statuses := in_statuses input;
                        st_clientSideFiltering := false |}).
  { unfold searchConversationsStructured. cbn zeta.
    change (match queryParts input with
            | [] => None
            | _ => Some (join " AND " (queryParts input))
            end) with (structured_queryString input).
    change (if truthy (structured_queryString input)
            then structured_queryString input else None)
      with (structured_query input).
    rewrite Hq, Hst, Hcb. cbn [and_then].
    destruct (in_statuses input) as [statuses|] eqn:Hs; [|discriminate].
    cbn [and_then]. rewrite merge_fulfilled_spec, slice_or_keep.
    unfold kept, fetches, structured_fetches, structured_fetch,
      merged_newest_first, dedup_by_id.
    rewrite Hs. reflexivity. }
  destruct (merged_newest_first_spec (limit_or_default input) fetches)
    as (Hnd & Hfrom & _ & _ & Hlen & Hsorted).
  fold kept in Hnd, Hfrom, Hlen, Hsorted.
  eexists. split; [exact Hrun|].
  cbn [st_results st_returned st_statuses st_clientSideFiltering].
  split; [reflexivity|]. split; [reflexivity|]. split; [reflexivity|].
  split; [reflexivity|].
  split; [rewrite render_ids; exact Hnd|].
  split; [exact Hfrom|]. split; [exact Hsorted|].
  intros Hnone. unfold fulfilled_records in Hlen. rewrite Hnone in Hlen.
  destruct kept; [destruct verbose; reflexivity|simpl in Hlen; lia].
Qed.

Lemma structured_statuses_skip_failures_witness :
  let input := with_contentTerms
                 (with_status_filter example_input None (Some [active; closed]))
                 ["refund"] in
  exists r,
    searchConversationsStructured (H := iso_getTime) default_config
      unauthorized_api input false = Fulfilled r
    /\ st_results r = []
    /\ st_statuses r = Some [active; closed].
Proof.
  intros input.
  destruct (structured_statuses_skip_failures (H := iso_getTime) default_config
              unauthorized_api input false
              (Some ("(body:" +:+ dq +:+ "refund" +:+ dq +:+ ")")))
    as (r & Hr & _ & _ & Hst & _ & _ & _ & _ & Hnone);
    [reflexivity|reflexivity|reflexivity|].
  exists r. split; [exact Hr|]. split; [apply Hnone; reflexivity|exact Hst].
Defined.

(** ** A createdBefore bound that is not a date *)




(** ** The conversation summary *)

Lemma newest_thread_first_sorted `{JsDate} l :
  threads_dated l ->
  StronglySorted
    (fun a b => not_older (thread_createdAt a) (thread_createdAt b))
    (Array_sort newest_thread_first l).
Proof.
  intros Hd.
  assert (Hkey : Array_sort newest_thread_first l
                 = Array_sort
                     (key_cmp (fun t => - time_of (thread_createdAt t))) l).
  { apply Array_sort_ext. intros a b Ha Hb.
    unfold threads_dated in Hd. rewrite List.Forall_forall in Hd.
    destruct (Hd a Ha) as [ta Hta]. destruct (Hd b Hb) as [tb Htb].
    unfold newest_thread_first, key_cmp, time_of. rewrite Hta, Htb. simpl.
    f_equal. lia. }
  rewrite Hkey.
  eapply StronglySorted_weaken_in; [|apply Array_sort_sorted].
  intros a b Ha Hb Hle.
  assert (Hin : forall c,
             In c (Array_sort
                     (key_cmp (fun t => - time_of (thread_createdAt t))) l)
             -> In c l).
  { intros c. apply Permutation_in. apply Array_sort_perm. }
  unfold threads_dated in Hd. rewrite List.Forall_forall in Hd.
  destruct (Hd a (Hin a Ha)) as [ta Hta].
  destruct (Hd b (Hin b Hb)) as [tb Htb].
  exists ta, tb. split; [exact Hta|]. split; [exact Htb|].
  unfold key_le, time_of in Hle. rewrite Hta, Htb in Hle. simpl in Hle. lia.
Qed.

Lemma threads_dated_filter `{JsDate} p l :
  threads_dated l -> threads_dated (List.filter p l).
Proof.
  unfold threads_dated. rewrite !List.Forall_forall. intros Hd t Ht.
  apply List.filter_In in Ht. apply Hd. tauto.
Qed.

(** The head of a sorted selection: no element when nothing was
    selected, otherwise a selected element that is related to every
    selected element. *)
Lemma head_of_sorted_selection `{JsDate} (R : Thread -> Thread -> Prop)
    (cmp : Thread -> Thread -> option Z) (p : Thread -> bool) threads :
  (forall t, In t threads -> R t t) ->
  StronglySorted R (Array_sort cmp (List.filter p threads)) ->
  match head (Array_sort cmp (List.filter p threads)) with
  | None => forall t, In t threads -> p t = false
  | Some x =>
      In x threads /\ p x = true
      /\ forall t, In t threads -> p t = true -> R x t
  end.
Proof.
  intros Hrefl Hs.
  pose proof (Array_sort_perm cmp (List.filter p threads)) as Hperm.
  destruct (Array_sort cmp (List.filter p threads)) as [|x rest] eqn:Hsorted;
    cbn [head].
  - apply Permutation_nil in Hperm. intros t Ht.
    destruct (p t) eqn:Hp; [|reflexivity].
    assert (Hin : In t (List.filter p threads))
      by (apply List.filter_In; auto).
    rewrite Hperm in Hin. contradiction.
  - assert (Hx : In x (List.filter p threads))
      by (eapply Permutation_in; [exact Hperm|left; reflexivity]).
    apply List.filter_In in Hx. destruct Hx as [Hx Hpx].
    split; [exact Hx|]. split; [exact Hpx|].
    intros t Ht Hp.
    assert (Hin : In t (x :: rest)).
    { eapply Permutation_in; [symmetry; exact Hperm|].
      apply List.filter_In. auto. }
    inversion Hs as [|? ? _ Hall]; subst.
    destruct Hin as [<-|Hin]; [apply Hrefl; exact Hx|].
    rewrite List.Forall_forall in Hall. apply Hall. exact Hin.
Qed.

Lemma not_older_refl `{JsDate} l t :
  threads_dated l -> In t l ->
  not_older (thread_createdAt t) (thread_createdAt t).
Proof.
  unfold threads_dated. rewrite List.Forall_forall. intros Hd Ht.
  destruct (Hd t Ht) as [x Hx]. exists x, x. split; [exact Hx|].
  split; [exact Hx|lia].
Qed.

(** X11.  What the non-verbose conversation summary picks.  Given the
    conversation and its threads as fetched (at most the first 200 that
    the page loop gathers), with dates that parse:
    [firstCustomerMessage] is null exactly when no thread has type
    [customer], and otherwise renders a customer thread that no other
    customer thread precedes; [latestStaffReply] is null exactly when
    no thread has type [message] and a [createdBy], and otherwise
    renders such a thread that no other such thread follows.  The state
    of a thread plays no part, so a draft counts as a staff reply. *)
Theorem getConversationSummary_picks `{JsDate} config get api conversationId
    conversation threads total :
  get conversationId = Fulfilled conversation ->
  fetchThreadPages api conversationId 200 = Fulfilled (threads, total) ->
  threads_dated threads ->
  exists first latest,
    getConversationSummary config get api conversationId false
    = Fulfilled (Summary (slimConversation conversation) first latest)
    /\ match first with
       | None => forall t, In t threads -> is_customer_thread t = false
       | Some m =>
           exists t,
             In t threads /\ is_customer_thread t = true
             /\ summarises thread_customer config m t
             /\ forall t', In t' threads -> is_customer_thread t' = true ->
                  not_older (thread_createdAt t') (thread_createdAt t)
       end
    /\ match latest with
       | None => forall t, In t threads -> is_staff_thread t = false
       | Some m =>
           exists t,
             In t threads /\ is_staff_thread t = true
             /\ summarises thread_createdBy config m t
             /\ forall t', In t' threads -> is_staff_thread t' = true ->
                  not_older (thread_createdAt t) (thread_createdAt t')
       end.
Proof.
  intros Hget Hfetch Hd. unfold getConversationSummary.
  rewrite Hget, Hfetch. cbn [and_then].
  fold is_customer_thread.
  change (fun t : Thread =>
            String.eqb (thread_type t) "message"
            && bool_decide (is_Some (thread_createdBy t)))
    with is_staff_thread.
  pose proof (head_of_sorted_selection
                (fun a b => not_older (thread_createdAt b) (thread_createdAt a))
                oldest_first is_customer_thread threads
                (fun t Ht => not_older_refl threads t Hd Ht)
                (oldest_first_sorted _ (threads_dated_filter _ _ Hd)))
    as Hfirst.
  pose proof (head_of_sorted_selection
                (fun a b => not_older (thread_createdAt a) (thread_createdAt b))
                newest_thread_first is_staff_thread threads
                (fun t Ht => not_older_refl threads t Hd Ht)
                (newest_thread_first_sorted _ (threads_dated_filter _ _ Hd)))
    as Hlatest.
  eexists _, _. split; [reflexivity|]. split.
  - destruct (head (Array_sort oldest_first
                      (List.filter is_customer_thread threads))) as [x|];
      cbn [option_map]; [|exact Hfirst].
    destruct Hfirst as (Hx & Hp & Hall). exists x.
    split; [exact Hx|]. split; [exact Hp|]. split; [|exact Hall].
    repeat split.
  - destruct (head (Array_sort newest_thread_first
                      (List.filter is_staff_thread threads))) as [x|];
      cbn [option_map]; [|exact Hlatest].
    destruct Hlatest as (Hx & Hp & Hall). exists x.
    split; [exact Hx|]. split; [exact Hp|]. split; [|exact Hall].
    repeat split.
Qed.

Lemma getConversationSummary_picks_witness :
  exists first latest,
    getConversationSummary (H := iso_getTime) default_config
      (fun _ => Fulfilled (example_conv 1 "2024-02-01T09:59:00Z"))
      (threads_on_one_page threads_with_draft) "1" false
    = Fulfilled
        (Summary (slimConversation (example_conv 1 "2024-02-01T09:59:00Z"))
           first latest)
    /\ option_map sm_id first = Some 1
    /\ option_map sm_id latest = Some 3.
Proof.
  destruct (getConversationSummary_picks (H := iso_getTime) default_config
              (fun _ => Fulfilled (example_conv 1 "2024-02-01T09:59:00Z"))
              (threads_on_one_page threads_with_draft) "1"
              (example_conv 1 "2024-02-01T09:59:00Z") threads_with_draft 3)
    as (first & latest & Hrun & _);
    [reflexivity|reflexivity| |].
  - unfold threads_dated, threads_with_draft.
    repeat constructor; vm_compute; eauto.
  - exists first, latest. split; [exact Hrun|].
    vm_compute in Hrun. inversion Hrun; subst. split; reflexivity.
Defined.

(** ** Redaction where it is applied *)

(** X12.  Redaction is switched on by the exact value [true] and by
    nothing else, and where it is applied it is complete.  The
    configuration hides message bodies exactly when
    [REDACT_MESSAGE_CONTENT] is the string [true]; then every body of a
    [getThreads] result (transcript, verbose and slim format), every
    body of a non-verbose conversation summary and every message of a
    transcript attached to a search result is the placeholder. *)
Theorem redaction_where_applied `{JsDate} getenv :
  let config := config_of_env getenv in
  (allowPii config = false <-> getenv "REDACT_MESSAGE_CONTENT" = Some "true")
  /\ (getenv "REDACT_MESSAGE_CONTENT" = Some "true" ->
      (forall api conversationId transcript limit verbose r,
         getThreads config api conversationId transcript limit verbose
         = Fulfilled r ->
         forall b, In b (threads_bodies r) -> b = Some REDACTED)
      /\ (forall get api conversationId r,
            getConversationSummary config get api conversationId false
            = Fulfilled r ->
            forall b, In b (summary_bodies r) -> b = Some REDACTED)
      /\ (forall api conversations maxMessages e messages m,
            In e (attachTranscripts config api conversations maxMessages) ->
            entry_transcript e = Some messages ->
            In m messages -> msg_body m = REDACTED)).
Proof.
  intros config.
  assert (Hiff : allowPii config = false
                 <-> getenv "REDACT_MESSAGE_CONTENT" = Some "true").
  { unfold config, config_of_env, env_is_true. cbn [allowPii].
    destruct (getenv "REDACT_MESSAGE_CONTENT") as [v|].
    - destruct (String.eqb_spec v "true") as [->|Hv]; cbn [negb].
      + split; reflexivity.
      + split; [discriminate|]. intros Heq. congruence.
    - split; discriminate. }
  split; [exact Hiff|]. intros Henv. apply Hiff in Henv.
  split; [|split].
  - intros api conversationId transcript limit verbose r Hr.
    exact (getThreads_redacted _ _ _ _ _ _ _ Henv Hr).
  - intros get api conversationId r Hr.
    exact (getConversationSummary_redacted _ _ _ _ _ Henv Hr).
  - intros api conversations maxMessages e messages m He Ht Hm.
    unfold attachTranscripts in He. apply List.in_map_iff in He.
    destruct He as ([conv result] & <- & Hin).
    apply In_allSettled in Hin. destruct Hin as [_ ->].
    unfold transcript_branch in Ht.
    destruct (fetchThreadPages api (pretty (out_id conv)) maxMessages)
      as [[threads total]|err]; cbn [and_then entry_transcript] in Ht;
      [|discriminate].
    injection Ht as <-. eapply buildTranscript_redacted; eassumption.
Qed.

Lemma redaction_where_applied_witness :
  exists r,
    getThreads (H := iso_getTime) redacting_config
      (one_message_threads "secret") "1" false 1 true = Fulfilled r
    /\ forall b, In b (threads_bodies r) -> b = Some REDACTED.
Proof.
  eexists. split; [vm_compute; reflexivity|].
  destruct (redaction_where_applied (H := iso_getTime)
              (fun x : string =>
                 if String.eqb x "REDACT_MESSAGE_CONTENT"
                 then Some "true" else None)) as (_ & Hred).
  destruct (Hred eq_refl) as (Hthreads & _).
  apply (Hthreads (one_message_threads "secret") "1" false 1 true).
  vm_compute. reflexivity.
Defined.

(** ** The call history of the dispatcher *)

(** X13.  The call history records exactly the calls that ran to a
    result.  After [callTool], the history is the old history followed
    by the name of the tool when validation passed and the tool
    returned normally, and the old history otherwise (validation
    failed, or the tool threw); the user query is kept.  Hence the
    validator of the next call sees the name of this tool among the
    previous calls exactly in the first case. *)
Theorem callTool_history
    validateToolCall generateToolGuidance createMcpToolError runTool st request
    next :
  let ran := isValid (validateToolCall (context_of st request))
             && tool_returned (runTool request) in
  let st' := snd (callTool validateToolCall generateToolGuidance
                    createMcpToolError runTool st request) in
  callHistory st'
  = callHistory st ++ (if ran then [tool_name request] else [])
  /\ currentUserQuery st' = currentUserQuery st
  /\ ctx_previousCalls (context_of st' next)
     = callHistory st ++ (if ran then [tool_name request] else []).
Proof.
  intros ran st'.
  assert (Hst : callHistory st'
                = callHistory st ++ (if ran then [tool_name request] else [])
                /\ currentUserQuery st' = currentUserQuery st).
  { unfold st', ran, callTool, tool_returned.
    fold (context_of st request).
    destruct (isValid (validateToolCall (context_of st request)));
      cbn [negb andb snd]; [|rewrite app_nil_r; auto].
    destruct (runTool request) as [requests [result|error]]; cbn [snd];
      [|rewrite app_nil_r; auto].
    destruct (generateToolGuidance (tool_name request) (content result)
                (context_of st request)) as [|g gs];
      [cbn; auto|].
    destruct (content result); cbn; auto. }
  destruct Hst as [H1 H2]. split; [exact H1|]. split; [exact H2|exact H1].
Qed.

(** ** updateConversation *)

(** X14.  The writes of [updateConversation], their order, and what a
    failure leaves behind.  The effects of a run are an initial part of
    the following sequence: one PATCH carrying the operations for the
    given fields among subject, status and assignTo (none when no such
    field is given; [assignTo: null] is a [remove], without value), one
    PUT of the tags and one PUT of the custom fields when they are
    given, the invalidation of the cached conversations, a fresh GET of
    the conversation.  The run succeeds exactly when it went through
    the whole sequence and nothing was rejected; the result then names
    the given fields.  Otherwise the run stops at the first rejected
    request and is rejected with its reason: the requests before it
    have been sent and are not undone, and those after it, cache
    invalidation included, do not happen. *)
Theorem updateConversation_effects http input verbose :
  let run := updateConversation http input verbose in
  let plan := update_effects input in
  exists k,
    fst run = firstn k plan
    /\ (forall e, In e (removelast (fst run)) -> rejection http e = None)
    /\ match snd run with
       | Fulfilled r =>
           fst run = plan
           /\ (forall e, In e plan -> rejection http e = None)
           /\ upr_updated r = given_fields input
           /\ upr_conversationId r = upd_conversationId input
           /\ upr_message r
              = "Conversation updated: " +:+ join ", " (given_fields input)
                +:+ "."
       | Rejected reason =>
           exists e, last (fst run) = Some e
                     /\ rejection http e = Some reason
       end.
Proof.
  intros run plan. unfold run, plan, updateConversation, update_effects,
    update_patch, given_fields.
  cbv zeta.
  set (base := "/conversations/" +:+ upd_conversationId input).
  destruct (upd_subject input) as [subject|];
    destruct (upd_status input) as [status|];
    destruct (upd_assignTo input) as [[assignTo|]|];
    cbn [app];
    match goal with
    | |- context [http_patch http base ?ops] =>
        destruct (http_patch http base ops) as [[]|e1] eqn:Hpatch
    | _ => idtac
    end;
    destruct (upd_tags input) as [tags|];
    try match goal with
    | |- context [http_put http (base +:+ "/tags") ?b] =>
        destruct (http_put http (base +:+ "/tags") b) as [[]|e2] eqn:Htags
    end;
    destruct (upd_customFields input) as [fields|];
    try match goal with
    | |- context [http_put http (base +:+ "/fields") ?b] =>
        destruct (http_put http (base +:+ "/fields") b) as [[]|e3] eqn:Hfields
    end;
    destruct (http_get http base []) as [conv|e4] eqn:Hget;
    cbn -[String.append join];
    match goal with
    | |- exists k, ?log = firstn k ?p /\ _ =>
        exists (length log)
    end;
    (split; [reflexivity|]);
    (split;
     [intros e He; cbn in He;
      repeat (destruct He as [<-|He]; [cbn; rewrite ?Hpatch, ?Htags, ?Hfields;
                                       reflexivity|]);
      contradiction|]);
    try (eexists; split; [reflexivity|];
         cbn; rewrite ?Hpatch, ?Htags, ?Hfields, ?Hget; reflexivity);
    (split; [reflexivity|]);
    (split;
     [intros e He; cbn in He;
      repeat (destruct He as [<-|He];
              [cbn; rewrite ?Hpatch, ?Htags, ?Hfields, ?Hget; reflexivity|]);
      contradiction|]);
    repeat split.
Qed.

Example updateConversation_failing_tags :
  updateConversation failing_tags_http example_update false
  = ([HttpPatch "/conversations/1"
        [PatchReplace "/subject" (JStr "Order 1234"); PatchRemove "/assignTo"];
      HttpPut "/conversations/1/tags" (JObj [("tags", strs ["vip"])])],
     Rejected (ApiError UPSTREAM_ERROR "Bad gateway")).
Proof. reflexivity. Qed.

(** ** createConversation *)

(** X15.  [createConversation] succeeds as soon as the POST is
    accepted.  The body posted carries each thread text as
    [formatReplyHtml] returns it for the configured spacing.  A rejected
    POST rejects the call and nothing else happens.  Otherwise the
    cached conversations are invalidated and the call returns a result
    whatever happens next: [conversationId] is the [resource-id] header,
    or null when the header is missing or empty, in which case no GET is
    made and [conversation] is null; with an id, the conversation is
    fetched afresh, and [conversation] is null when that fetch fails. *)
Theorem createConversation_outcome config http input verbose :
  let body := create_requestBody config input in
  let run := createConversation config http input verbose in
  posted_texts body
  = map (fun t => JStr (formatReplyHtml (nt_text t) (compactReplies config)))
        (cc_threads input)
  /\ match http_postWithResponse http "/conversations" body with
     | Rejected e => run = ([HttpPost "/conversations" body], Rejected e)
     | Fulfilled header =>
         match str_or header None with
         | None =>
             run = ([HttpPost "/conversations" body;
                     CacheClear "GET:/conversations"],
                    Fulfilled {| ccr_conversationId := None;
                                 ccr_conversation := None |})
         | Some id =>
             run = ([HttpPost "/conversations" body;
                     CacheClear "GET:/conversations";
                     HttpGet ("/conversations/" +:+ id) [] true],
                    Fulfilled
                      {| ccr_conversationId := Some id;
                         ccr_conversation :=
                           match http_get http ("/conversations/" +:+ id) []
                           with
                           | Fulfilled fetched =>
                               Some (render_one verbose fetched)
                           | Rejected _ => None
                           end |})
         end
     end.
Proof.
  intros body run. split.
  - unfold body, create_requestBody, posted_texts. cbn [app field String.eqb].
    cbn -[formatReplyHtml]. rewrite map_map. reflexivity.
  - unfold run, createConversation. fold body.
    destruct (http_postWithResponse http "/conversations" body) as [header|e];
      [|reflexivity].
    cbn [call then_ emit app].
    destruct (str_or header None) as [id|]; [|reflexivity].
    destruct (http_get http ("/conversations/" +:+ id) []) as [fetched|e];
      reflexivity.
Qed.

(** ** structuredConversationFilter *)

(** X16.  What [structuredConversationFilter] returns.  With a limit of
    at least 1, a result lists at most [limit] conversations,
    [pagination.returned] is their number, and each of them is one of
    the fetched conversations.  With a [createdBefore] bound every
    listed conversation was created strictly before it, and
    [clientSideFiltering] is set exactly when the bound removed a
    fetched conversation; [pagination.total] remains the total that the
    upstream reported for the unfiltered query. *)
Theorem structuredConversationFilter_result `{JsDate} config api input verbose
    r :
  1 <= sf_limit input ->
  structuredConversationFilter config api input verbose = Fulfilled r ->
  exists queryWithDate fetched total,
    appendCreatedAtFilter (filter_query input) (sf_createdAfter input) None
    = Fulfilled queryWithDate
    /\ filter_fetch config api input queryWithDate = Fulfilled (fetched, total)
    /\ len (fo_results r) <= sf_limit input
    /\ fo_returned r = len (fo_results r)
    /\ fo_total r = total
    /\ (forall o, In o (fo_results r) ->
          exists c, In c fetched /\ o = render_one verbose c)
    /\ (forall bound,
          sf_createdBefore input = Some bound -> bound <> EmptyString ->
          (forall o, In o (fo_results r) ->
                     created_before bound (out_createdAt o))
          /\ fo_clientSideFiltering r
             = negb (forallb (is_before bound) fetched)).
Proof.
  intros Hl. unfold structuredConversationFilter. intros Heq.
  apply and_then_inv in Heq. destruct Heq as (qd & Hqd & Heq).
  apply and_then_inv in Heq. destruct Heq as ([fetched total] & Hfetch & Heq).
  apply and_then_inv in Heq. destruct Heq as ([convs flag] & Hstep & Heq).
  inversion Heq; subst r; clear Heq.
  cbn [fo_results fo_returned fo_total fo_clientSideFiltering].
  exists qd, fetched, total. split; [exact Hqd|]. split; [exact Hfetch|].
  rewrite slice_or_keep, len_render.
  split; [apply len_firstn_le; lia|]. split; [reflexivity|].
  split; [reflexivity|].
  destruct (truthy (sf_createdBefore input)) eqn:Ht.
  - apply and_then_inv in Hstep. destruct Hstep as (fr & Hfr & Hstep).
    inversion Hstep; subst convs flag; clear Hstep.
    destruct (applyCreatedBeforeFilter_spec _ _ _ Hfr) as (Hfil & Hwas & Hbefore).
    split.
    + intros o Ho. apply In_render in Ho. destruct Ho as (c & Hc & ->).
      exists c. split; [|reflexivity]. apply In_firstn in Hc.
      rewrite Hfil in Hc. apply List.filter_In in Hc. tauto.
    + intros bound Hb Hne. rewrite Hb in Hfil, Hwas, Hbefore.
      change (default EmptyString (Some bound)) with bound in *.
      split; [|exact Hwas].
      intros o Ho. apply In_render in Ho. destruct Ho as (c & Hc & ->).
      rewrite render_one_createdAt. apply Hbefore. eapply In_firstn. exact Hc.
  - inversion Hstep; subst convs flag; clear Hstep. split.
    + intros o Ho. apply In_render in Ho. destruct Ho as (c & Hc & ->).
      exists c. split; [eapply In_firstn; exact Hc|reflexivity].
    + intros bound Hb Hne. rewrite Hb, (truthy_some bound Hne) in Ht.
      discriminate.
Qed.

Lemma structuredConversationFilter_result_witness :
  exists r,
    structuredConversationFilter (H := iso_getTime) default_config
      (fun _ _ => one_page [example_conv 1 "2023-12-31T00:00:00Z";
                            example_conv 2 "2024-02-01T00:00:00Z"])
      example_filter false = Fulfilled r
    /\ len (fo_results r) <= 50
    /\ fo_returned r = len (fo_results r).
Proof.
  eexists. split; [vm_compute; reflexivity|].
  match goal with
  | |- len (fo_results ?r) <= _ /\ _ =>
      destruct (structuredConversationFilter_result (H := iso_getTime)
                  default_config
                  (fun _ _ => one_page [example_conv 1 "2023-12-31T00:00:00Z";
                                        example_conv 2 "2024-02-01T00:00:00Z"])
                  example_filter false r)
        as (qd & fetched & total & _ & _ & Hlen & Hret & _)
  end.
  - vm_compute. discriminate.
  - vm_compute. reflexivity.
  - split; [exact Hlen|exact Hret].
Defined.

(** ** The deletion tools of the Docs handler *)

Lemma docs_delete_tool_spec Noun noun failedNoun pathPrefix idKey config delete
    args :
  let run := docs_delete_tool Noun noun failedNoun pathPrefix idKey config
               delete args in
  match id_argument idKey args with
  | None => run = ([], Rejected (OtherError "ZodError"))
  | Some id =>
      if allowDocsDelete config then
        fst run = [HttpDelete (pathPrefix +:+ id)]
        /\ match delete (pathPrefix +:+ id) with
           | Fulfilled _ => exists message,
               snd run = Fulfilled (Deleted message idKey id)
           | Rejected e => exists error,
               snd run
               = Fulfilled (DeleteFailed error (caught_message e) idKey id)
           end
      else fst run = [] /\ is_refusal (snd run) = true
  end.
Proof.
  intros run. unfold run, docs_delete_tool, id_argument.
  destruct args as [| | | | |f]; try reflexivity.
  destruct (field idKey f) as [[| | |id| |]|]; try reflexivity.
  destruct (allowDocsDelete config); cbn [negb]; [|split; reflexivity].
  unfold catch, then_, call, settle.
  destruct (delete (pathPrefix +:+ id)) as [[]|e]; cbn;
    (split; [reflexivity|eauto]).
Qed.

(** X17.  Deletion in the Docs API is off unless switched on, and a
    failed deletion is reported, not thrown.  For each of the six
    deletion tools (article, category, collection, article draft,
    redirect, site) called with its id: unless
    [HELPSCOUT_ALLOW_DOCS_DELETE] is exactly [true] the tool sends no
    request and returns the refusal; when it is, the tool sends exactly
    one DELETE, to its endpoint followed by the id, and returns a
    result in either case: the confirmation when the upstream accepts,
    and a failure report when it rejects, whose message is the message
    of the error when an [Error] was thrown and the text
    [[object Object]] when the rejection is a plain object of the
    [ApiError] shape.  Without a string id the tool throws before
    anything else. *)
Theorem docs_delete_gate getenv delete args pathPrefix idKey tool :
  In (pathPrefix, idKey, tool) docs_delete_tools ->
  let config := docs_config_of_env getenv in
  let run := tool config delete args in
  match id_argument idKey args with
  | None => run = ([], Rejected (OtherError "ZodError"))
  | Some id =>
      (getenv "HELPSCOUT_ALLOW_DOCS_DELETE" <> Some "true" ->
       fst run = [] /\ is_refusal (snd run) = true)
      /\ (getenv "HELPSCOUT_ALLOW_DOCS_DELETE" = Some "true" ->
          fst run = [HttpDelete (pathPrefix +:+ id)]
          /\ match delete (pathPrefix +:+ id) with
             | Fulfilled _ => exists message,
                 snd run = Fulfilled (Deleted message idKey id)
             | Rejected e => exists error,
                 snd run
                 = Fulfilled (DeleteFailed error (caught_message e) idKey id)
             end)
  end.
Proof.
  intros Hin config run.
  assert (Hspec :
    match id_argument idKey args with
    | None => run = ([], Rejected (OtherError "ZodError"))
    | Some id =>
        if allowDocsDelete config then
          fst run = [HttpDelete (pathPrefix +:+ id)]
          /\ match delete (pathPrefix +:+ id) with
             | Fulfilled _ => exists message,
                 snd run = Fulfilled (Deleted message idKey id)
             | Rejected e => exists error,
                 snd run
                 = Fulfilled (DeleteFailed error (caught_message e) idKey id)
             end
        else fst run = [] /\ is_refusal (snd run) = true
    end).
  { unfold run. cbn in Hin.
    repeat (destruct Hin as [Heq|Hin];
            [inversion Heq; subst; apply docs_delete_tool_spec|]).
    contradiction. }
  destruct (id_argument idKey args) as [id|]; [|exact Hspec].
  assert (Hallow : allowDocsDelete config = true
                   <-> getenv "HELPSCOUT_ALLOW_DOCS_DELETE" = Some "true").
  { unfold config, docs_config_of_env, env_is_true. cbn [allowDocsDelete].
    destruct (getenv "HELPSCOUT_ALLOW_DOCS_DELETE") as [v|].
    - destruct (String.eqb_spec v "true") as [->|Hv].
      + split; reflexivity.
      + split; [discriminate|]. intros Heq. congruence.
    - split; discriminate. }
  destruct (allowDocsDelete config).
  - split; [|intros _; exact Hspec].
    intros Hne. exfalso. apply Hne, Hallow. reflexivity.
  - split; [intros _; exact Hspec|].
    intros Henv. apply Hallow in Henv. discriminate.
Qed.

Lemma docs_delete_gate_witness :
  let getenv := fun x : string =>
    if String.eqb x "HELPSCOUT_ALLOW_DOCS_DELETE" then Some "true" else None in
  let delete : DocsDelete := fun _ =>
    Rejected (ApiError NOT_FOUND "Help Scout resource not found") in
  let run := deleteDocsSite (docs_config_of_env getenv) delete
               (JObj [("siteId", JStr "42")]) in
  fst run = [HttpDelete "/sites/42"]
  /\ exists error,
       snd run
       = Fulfilled (DeleteFailed error "[object Object]" "siteId" "42").
Proof.
  apply (docs_delete_gate
           (fun x : string =>
              if String.eqb x "HELPSCOUT_ALLOW_DOCS_DELETE"
              then Some "true" else None)
           (fun _ => Rejected (ApiError NOT_FOUND "Help Scout resource not found"))
           (JObj [("siteId", JStr "42")]) "/sites/" "siteId" deleteDocsSite).
  - cbn. auto 10.
  - reflexivity.
Defined.

(** ** Validation of the configuration *)

Lemma truthy_set (o : option string) :
  truthy o = true <-> exists v, o = Some v /\ v <> EmptyString.
Proof.
  destruct o as [v|]; cbn [truthy].
  - destruct (String.eqb_spec v EmptyString) as [->|Hne]; cbn [negb]; split.
    + discriminate.
    + intros (w & Hw & Hne). congruence.
    + eauto.
    + reflexivity.
  - split; [discriminate|]. intros (w & Hw & _). discriminate.
Qed.

Lemma str_or_set getenv x y :
  default EmptyString (str_or (getenv x) (str_or (getenv y) None))
  <> EmptyString
  <-> env_set getenv x \/ env_set getenv y.
Proof.
  unfold env_set. rewrite <- !truthy_set. unfold str_or.
  destruct (truthy (getenv x)) eqn:Hx.
  - split; [auto|]. intros _. apply truthy_set in Hx.
    destruct Hx as (v & -> & Hne). exact Hne.
  - destruct (truthy (getenv y)) eqn:Hy.
    + split; [auto|]. intros _. apply truthy_set in Hy.
      destruct Hy as (v & -> & Hne). exact Hne.
    + split; [intros Hne; exfalso; apply Hne; reflexivity|].
      intros [H|H]; discriminate.
Qed.

Lemma is_empty_false s : negb (is_empty s) = true <-> s <> EmptyString.
Proof.
  unfold is_empty. destruct (String.eqb_spec s EmptyString); cbn; split;
    congruence.
Qed.

(** X18.  What [validateConfig] accepts.  It returns normally exactly
    when the deprecated [HELPSCOUT_API_KEY] does not start with
    ["Bearer "], a client id is set in [HELPSCOUT_APP_ID] or
    [HELPSCOUT_CLIENT_ID] and a client secret in [HELPSCOUT_APP_SECRET]
    or [HELPSCOUT_CLIENT_SECRET] (an empty value counts as unset), and
    [HELPSCOUT_BASE_URL] is unset, empty, or starts with [https://].
    A personal access token is refused even if OAuth2 credentials are
    present, and a base URL over plain HTTP even if they are valid. *)
Theorem validateConfig_accepts getenv :
  (validateConfig getenv = None
   <-> (forall key, getenv "HELPSCOUT_API_KEY" = Some key ->
                    String.prefix "Bearer " key = false)
       /\ (env_set getenv "HELPSCOUT_APP_ID"
           \/ env_set getenv "HELPSCOUT_CLIENT_ID")
       /\ (env_set getenv "HELPSCOUT_APP_SECRET"
           \/ env_set getenv "HELPSCOUT_CLIENT_SECRET")
       /\ (forall url, getenv "HELPSCOUT_BASE_URL" = Some url ->
                       url = EmptyString \/ String.prefix "https://" url = true))
  /\ (forall key, getenv "HELPSCOUT_API_KEY" = Some key ->
                  String.prefix "Bearer " key = true ->
                  validateConfig getenv = Some PersonalAccessToken)
  /\ (forall url, getenv "HELPSCOUT_BASE_URL" = Some url ->
                  url <> EmptyString -> String.prefix "https://" url = false ->
                  validateConfig getenv <> None).
Proof.
  pose proof (str_or_set getenv "HELPSCOUT_APP_ID" "HELPSCOUT_CLIENT_ID")
    as Hid.
  pose proof (str_or_set getenv "HELPSCOUT_APP_SECRET" "HELPSCOUT_CLIENT_SECRET")
    as Hsecret.
  assert (Hurl : forall url, getenv "HELPSCOUT_BASE_URL" = Some url ->
            url <> EmptyString ->
            cred_baseUrl (credentials_of_env getenv) = url).
  { intros url Hu Hne. unfold credentials_of_env. cbn [cred_baseUrl].
    rewrite Hu. unfold str_or. rewrite (truthy_some url Hne). reflexivity. }
  unfold validateConfig.
  change (cred_clientId (credentials_of_env getenv))
    with (default EmptyString
            (str_or (getenv "HELPSCOUT_APP_ID")
               (str_or (getenv "HELPSCOUT_CLIENT_ID") None))) in *.
  change (cred_clientSecret (credentials_of_env getenv))
    with (default EmptyString
            (str_or (getenv "HELPSCOUT_APP_SECRET")
               (str_or (getenv "HELPSCOUT_CLIENT_SECRET") None))) in *.
  split; [|split].
  - split.
    + intros Hok.
      destruct (getenv "HELPSCOUT_API_KEY") as [key|] eqn:Hkey.
      * destruct (String.prefix "Bearer " key) eqn:Hp; [discriminate|].
        revert Hok.
        destruct (negb (is_empty _)) eqn:H1; cbn [andb negb];
          [|discriminate].
        destruct (negb (is_empty
                    (default EmptyString
                       (str_or (getenv "HELPSCOUT_APP_SECRET")
                          (str_or (getenv "HELPSCOUT_CLIENT_SECRET") None)))))
          eqn:H2; cbn [negb]; [|discriminate].
        intros Hok.
        split; [intros k Hk; congruence|].
        split; [apply Hid, is_empty_false; exact H1|].
        split; [apply Hsecret, is_empty_false; exact H2|].
        intros url Hu.
        destruct (String.eqb_spec url EmptyString) as [->|Hne]; [auto|right].
        rewrite (Hurl url Hu Hne) in Hok.
        destruct (String.prefix "https://" url); [reflexivity|].
        apply is_empty_false in Hne. rewrite Hne in Hok. discriminate.
      * revert Hok.
        destruct (negb (is_empty _)) eqn:H1; cbn [andb negb];
          [|discriminate].
        destruct (negb (is_empty
                    (default EmptyString
                       (str_or (getenv "HELPSCOUT_APP_SECRET")
                          (str_or (getenv "HELPSCOUT_CLIENT_SECRET") None)))))
          eqn:H2; cbn [negb]; [|discriminate].
        intros Hok.
        split; [intros k Hk; discriminate|].
        split; [apply Hid, is_empty_false; exact H1|].
        split; [apply Hsecret, is_empty_false; exact H2|].
        intros url Hu.
        destruct (String.eqb_spec url EmptyString) as [->|Hne]; [auto|right].
        rewrite (Hurl url Hu Hne) in Hok.
        destruct (String.prefix "https://" url); [reflexivity|].
        apply is_empty_false in Hne. rewrite Hne in Hok. discriminate.
    + intros (Hkey & Hi & Hs & Hu).
      replace (match getenv "HELPSCOUT_API_KEY" with
               | Some key => String.prefix "Bearer " key
               | None => false
               end) with false
        by (destruct (getenv "HELPSCOUT_API_KEY") as [key|];
            [symmetry; apply Hkey; reflexivity|reflexivity]).
      apply Hid, is_empty_false in Hi. apply Hsecret, is_empty_false in Hs.
      rewrite Hi, Hs. cbn [andb negb].
      destruct (getenv "HELPSCOUT_BASE_URL") as [url|] eqn:Hb.
      * destruct (String.eqb_spec url EmptyString) as [->|Hne].
        -- unfold credentials_of_env. rewrite Hb. reflexivity.
        -- rewrite (Hurl url eq_refl Hne).
           destruct (Hu url eq_refl) as [->|Hp]; [contradiction|].
           rewrite Hp. rewrite andb_false_r. reflexivity.
      * unfold credentials_of_env. rewrite Hb. reflexivity.
  - intros key Hkey Hp. rewrite Hkey, Hp. reflexivity.
  - intros url Hu Hne Hp.
    destruct (match getenv "HELPSCOUT_API_KEY" with
              | Some key => String.prefix "Bearer " key
              | None => false
              end); [discriminate|].
    destruct (negb (negb (is_empty _) && negb (is_empty _)));
      [discriminate|].
    rewrite (Hurl url Hu Hne), Hp. apply is_empty_false in Hne.
    rewrite Hne. discriminate.
Qed.

Lemma validateConfig_accepts_witness : validateConfig oauth_env = None.
Proof.
  apply (proj1 (validateConfig_accepts oauth_env)).
  split; [intros key Hkey; discriminate|].
  split; [right; exists "app"; split; [reflexivity|discriminate]|].
  split; [left; exists "secret"; split; [reflexivity|discriminate]|].
  intros url Hurl. injection Hurl as <-. left. reflexivity.
Defined.

(** ** The reply formatter on paragraphs and line breaks *)

(** ** The reply formatter on text, breaks and paragraphs *)

Lemma suffix_of_refl s : suffix_of s s.
Proof. exists EmptyString. reflexivity. Qed.

Lemma suffix_of_tail a s z : suffix_of z s -> suffix_of z (String a s).
Proof. intros [pre ->]. exists (String a pre). reflexivity. Qed.

Lemma suffix_of_trans z y s : suffix_of z y -> suffix_of y s -> suffix_of z s.
Proof.
  intros [p1 ->] [p2 ->]. exists (p2 +:+ p1). symmetry. apply append_assoc.
Qed.

Lemma suffix_of_app pre z : suffix_of z (pre +:+ z).
Proof. exists pre. reflexivity. Qed.

(** A match moves forward only: when the continuation fails on every
    suffix of the input, so does the match. *)
Lemma rmatch_none r :
  forall R prev s c (k : option ascii -> string -> caps -> option R),
    (forall prev' s' c', suffix_of s' s -> k prev' s' c' = None) ->
    rmatch r prev s c k = None.
Proof.
  induction r as [|p|r1 IH1 r2 IH2|r1 IH1 r2 IH2|g r IH|n r IH|r IH| | |];
    intros R prev s c k Hk.
  - apply Hk, suffix_of_refl.
  - cbn [rmatch]. destruct s as [|a s']; [reflexivity|].
    destruct (p a); [|reflexivity]. apply Hk. apply suffix_of_tail,
      suffix_of_refl.
  - cbn [rmatch]. apply IH1. intros prev' s' c' Hs. apply IH2.
    intros prev'' s'' c'' Hs'. apply Hk. eapply suffix_of_trans; eassumption.
  - cbn [rmatch]. rewrite IH1 by exact Hk. apply IH2. exact Hk.
  - rewrite rmatch_star_unfold.
    generalize (String.length s) at 1. intros n.
    revert prev s c Hk. induction n as [|n IHn]; intros prev s c Hk.
    + rewrite (Hk prev s c (suffix_of_refl s)). destruct g; reflexivity.
    + cbn zeta.
      match goal with
      | |- context [rmatch r prev s c ?k'] =>
          assert (Hmore : rmatch r prev s c k' = None)
      end.
      { apply IH. intros prev' s' c' Hs.
        destruct (String.length s' <? String.length s)%nat; [|reflexivity].
        apply IHn. intros prev'' s'' c'' Hs'. apply Hk.
        eapply suffix_of_trans; eassumption. }
      rewrite Hmore, (Hk prev s c (suffix_of_refl s)).
      destruct g; reflexivity.
  - cbn [rmatch]. apply IH. intros prev' s' c' Hs. apply Hk. exact Hs.
  - cbn [rmatch]. rewrite (Hk prev s c (suffix_of_refl s)).
    destruct (rmatch r prev s c (fun _ _ _ => Some tt)); reflexivity.
  - cbn [rmatch]. rewrite (Hk prev s c (suffix_of_refl s)).
    destruct (at_word_boundary prev s); reflexivity.
  - cbn [rmatch]. rewrite (Hk prev s c (suffix_of_refl s)).
    destruct prev; reflexivity.
  - cbn [rmatch]. rewrite (Hk prev s c (suffix_of_refl s)).
    destruct s; reflexivity.
Qed.

(** A global replacement leaves a string unchanged when the pattern
    matches at none of its positions. *)
Lemma replace_loop_never r f s :
  forall n prev,
    (String.length s < n)%nat ->
    (forall prev' z, suffix_of z s -> match_here r prev' z = None) ->
    replace_loop n r f prev s = s.
Proof.
  induction s as [|a s IH]; intros n prev Hn Hnone.
  - destruct n; [simpl in Hn; lia|]. cbn [replace_loop].
    rewrite (Hnone prev EmptyString (suffix_of_refl _)). reflexivity.
  - destruct n; [simpl in Hn; lia|]. cbn [replace_loop].
    rewrite (Hnone prev (String a s) (suffix_of_refl _)).
    rewrite IH; [reflexivity|simpl in Hn; lia|].
    intros prev' z Hz. apply Hnone. apply suffix_of_tail. exact Hz.
Qed.

Lemma replace_all_never r f s :
  (forall prev z, suffix_of z s -> match_here r prev z = None) ->
  replace_all r f s = s.
Proof. intros H. unfold replace_all. apply replace_loop_never; [lia|exact H]. Qed.

Lemma prefix_split p : forall t,
  String.prefix p t = true -> exists u, t = p +:+ u.
Proof.
  induction p as [|a p IH]; intros t H.
  - exists t. reflexivity.
  - destruct t as [|b t]; [discriminate|]. cbn [String.prefix] in H.
    destruct (Ascii.ascii_dec a b) as [->|Hne]; [|discriminate].
    destruct (IH t H) as [u ->]. exists u. reflexivity.
Qed.

Lemma ci_lt a : ascii_eqb_ci "<" a = Ascii.eqb "<" a.
Proof. destruct a as [[] [] [] [] [] [] [] []]; reflexivity. Qed.


Lemma markup_cons p l : markup (p :: l) = written p +:+ markup l.
Proof. reflexivity. Qed.

Lemma length_append (s t : string) :
  String.length (s +:+ t) = (String.length s + String.length t)%nat.
Proof.
  induction s as [|a s IH]; [reflexivity|].
  rewrite append_cons. cbn [String.length]. rewrite IH. reflexivity.
Qed.

(** A global replacement copies a run of text in which the pattern
    cannot start. *)
Lemma replace_loop_text r f :
  (forall prev a t, Ascii.eqb "<" a = false ->
                    match_here r prev (String a t) = None) ->
  forall s rest n prev,
    all_chars (fun a => negb (Ascii.eqb a "<")) s = true ->
    (String.length (s +:+ rest) < n)%nat ->
    exists prev',
      replace_loop n r f prev (s +:+ rest)
      = s +:+ replace_loop (n - String.length s) r f prev' rest.
Proof.
  intros Hlt. induction s as [|a s IH]; intros rest n prev Hs Hn.
  - exists prev. rewrite Nat.sub_0_r. reflexivity.
  - cbn [all_chars] in Hs. apply andb_prop in Hs. destruct Hs as [Ha Hs].
    rewrite append_cons in *. cbn [String.length] in Hn.
    destruct n; [lia|]. cbn [replace_loop].
    rewrite Hlt by (rewrite Ascii.eqb_sym; apply negb_true_iff; exact Ha).
    destruct (IH rest n (Some a) Hs ltac:(lia)) as [prev' ->].
    exists prev'. rewrite append_cons. reflexivity.
Qed.

Lemma tag_written p :
  is_tag p = true ->
  exists w, written p = String "<" w
            /\ all_chars (fun a => negb (Ascii.eqb a "<")) w = true.
Proof.
  destruct p; [discriminate| | |]; intros _; eexists; split; reflexivity.
Qed.

(** A global replacement, piece by piece: text is copied; a tag is
    either left as it is, because the pattern does not match there, or
    matched as a whole and replaced. *)
Lemma replace_loop_pieces r f (out : Piece -> string) (allowed : Piece -> Prop) :
  (forall prev a t, Ascii.eqb "<" a = false ->
                    match_here r prev (String a t) = None) ->
  (forall prev, match_here r prev EmptyString = None) ->
  (forall p rest prev,
     is_tag p = true -> allowed p ->
     Forall allowed rest -> Forall plain_piece rest ->
     (match_here r prev (written p +:+ markup rest) = None
      /\ out p = written p)
     \/ (exists c,
           match_here r prev (written p +:+ markup rest)
           = Some (Hit c (Some ">"%char) (markup rest))
           /\ forall m, f c m = out p)) ->
  (forall s, out (Text s) = s) ->
  forall l, Forall allowed l -> Forall plain_piece l ->
  forall n prev,
    (String.length (markup l) < n)%nat ->
    replace_loop n r f prev (markup l) = concat_strings (map out l).
Proof.
  intros Hlt Hempty Htag Htext.
  induction l as [|p l IH]; intros Hall Hplain n prev Hn.
  - destruct n; [simpl in Hn; lia|]. cbn [replace_loop markup map concat_strings].
    rewrite Hempty. reflexivity.
  - inversion Hall as [|? ? Hp Hall']; subst.
    inversion Hplain as [|? ? Hpp Hplain']; subst.
    rewrite markup_cons in *. cbn [map concat_strings].
    destruct p as [s| | |].
    + cbn [written] in *. rewrite Htext.
      destruct (replace_loop_text r f Hlt s (markup l) n prev Hpp Hn)
        as [prev' ->].
      rewrite IH; [reflexivity|assumption|assumption|].
      rewrite length_append in Hn. lia.
    + destruct (Htag Br l prev eq_refl Hp Hall' Hplain')
        as [[Hnone Hout]|(c & Hsome & Hf)].
      * rewrite Hout. cbn [written] in *.
        change ("<br>" +:+ markup l) with (String "<" ("br>" +:+ markup l)) in *.
        cbn [String.length] in Hn. destruct n; [lia|]. cbn [replace_loop].
        rewrite Hnone.
        destruct (replace_loop_text r f Hlt "br>" (markup l) n (Some "<"%char)
                    eq_refl ltac:(lia)) as [prev' ->].
        rewrite IH; [reflexivity|assumption|assumption|].
        rewrite length_append in Hn. cbn [String.length] in *. lia.
      * cbn [written] in *. destruct n; [lia|]. cbn [replace_loop].
        rewrite Hsome. cbn [hit_rest hit_caps hit_prev].
        replace (String.length (markup l) <? String.length ("<br>" +:+ markup l))%nat
          with true
          by (symmetry; apply Nat.ltb_lt; rewrite length_append; simpl; lia).
        rewrite Hf, IH; [reflexivity|assumption|assumption|].
        rewrite length_append in Hn. simpl in Hn. lia.
    + destruct (Htag POpen l prev eq_refl Hp Hall' Hplain')
        as [[Hnone Hout]|(c & Hsome & Hf)].
      * rewrite Hout. cbn [written] in *.
        change ("<p>" +:+ markup l) with (String "<" ("p>" +:+ markup l)) in *.
        cbn [String.length] in Hn. destruct n; [lia|]. cbn [replace_loop].
        rewrite Hnone.
        destruct (replace_loop_text r f Hlt "p>" (markup l) n (Some "<"%char)
                    eq_refl ltac:(lia)) as [prev' ->].
        rewrite IH; [reflexivity|assumption|assumption|].
        rewrite length_append in Hn. cbn [String.length] in *. lia.
      * cbn [written] in *. destruct n; [lia|]. cbn [replace_loop].
        rewrite Hsome. cbn [hit_rest hit_caps hit_prev].
        replace (String.length (markup l) <? String.length ("<p>" +:+ markup l))%nat
          with true
          by (symmetry; apply Nat.ltb_lt; rewrite length_append; simpl; lia).
        rewrite Hf, IH; [reflexivity|assumption|assumption|].
        rewrite length_append in Hn. simpl in Hn. lia.
    + destruct (Htag PClose l prev eq_refl Hp Hall' Hplain')
        as [[Hnone Hout]|(c & Hsome & Hf)].
      * rewrite Hout. cbn [written] in *.
        change ("</p>" +:+ markup l) with (String "<" ("/p>" +:+ markup l)) in *.
        cbn [String.length] in Hn. destruct n; [lia|]. cbn [replace_loop].
        rewrite Hnone.
        destruct (replace_loop_text r f Hlt "/p>" (markup l) n (Some "<"%char)
                    eq_refl ltac:(lia)) as [prev' ->].
        rewrite IH; [reflexivity|assumption|assumption|].
        rewrite length_append in Hn. cbn [String.length] in *. lia.
      * cbn [written] in *. destruct n; [lia|]. cbn [replace_loop].
        rewrite Hsome. cbn [hit_rest hit_caps hit_prev].
        replace (String.length (markup l) <? String.length ("</p>" +:+ markup l))%nat
          with true
          by (symmetry; apply Nat.ltb_lt; rewrite length_append; simpl; lia).
        rewrite Hf, IH; [reflexivity|assumption|assumption|].
        rewrite length_append in Hn. simpl in Hn. lia.
Qed.

Lemma replace_all_pieces r f (out : Piece -> string) (allowed : Piece -> Prop) :
  (forall prev a t, Ascii.eqb "<" a = false ->
                    match_here r prev (String a t) = None) ->
  (forall prev, match_here r prev EmptyString = None) ->
  (forall p rest prev,
     is_tag p = true -> allowed p ->
     Forall allowed rest -> Forall plain_piece rest ->
     (match_here r prev (written p +:+ markup rest) = None
      /\ out p = written p)
     \/ (exists c,
           match_here r prev (written p +:+ markup rest)
           = Some (Hit c (Some ">"%char) (markup rest))
           /\ forall m, f c m = out p)) ->
  (forall s, out (Text s) = s) ->
  forall l, Forall allowed l -> Forall plain_piece l ->
    replace_all r f (markup l) = concat_strings (map out l).
Proof.
  intros H1 H2 H3 H4 l Ha Hp. unfold replace_all.
  apply (replace_loop_pieces r f out allowed); auto.
Qed.

(** *** Strings whose only tag is [<br>] *)

Lemma br_only_suffix pre z : br_only (pre +:+ z) = true -> br_only z = true.
Proof.
  induction pre as [|a pre IH]; [auto|].
  rewrite append_cons. cbn [br_only]. intros H.
  apply andb_prop in H. tauto.
Qed.

Lemma br_only_suffix_of z s : suffix_of z s -> br_only s = true -> br_only z = true.
Proof. intros [pre ->]. apply br_only_suffix. Qed.

Lemma br_only_head z :
  br_only z = true ->
  z = EmptyString
  \/ (exists a t, z = String a t /\ Ascii.eqb "<" a = false)
  \/ (exists t, z = "<br>" +:+ t).
Proof.
  destruct z as [|a t]; [auto|]. cbn [br_only]. intros H.
  apply andb_prop in H. destruct H as [H _]. right.
  destruct (Ascii.eqb a "<") eqn:Ha.
  - right. apply Ascii.eqb_eq in Ha. subst a.
    destruct (prefix_split _ _ H) as [u ->]. exists u. reflexivity.
  - left. exists a, t. rewrite Ascii.eqb_sym. auto.
Qed.

Lemma br_only_text s t :
  all_chars (fun a => negb (Ascii.eqb a "<")) s = true ->
  br_only t = true -> br_only (s +:+ t) = true.
Proof.
  intros Hs Ht. induction s as [|a s IH]; [exact Ht|].
  cbn [all_chars] in Hs. apply andb_prop in Hs. destruct Hs as [Ha Hs].
  rewrite append_cons. cbn [br_only]. rewrite (IH Hs).
  apply negb_true_iff in Ha. rewrite Ha. reflexivity.
Qed.

Lemma br_only_br t : br_only ("<br>" +:+ t) = br_only t.
Proof.
  change ("<br>" +:+ t) with (String "<" (String "b" (String "r" (String ">" t)))).
  assert (Hp : forall u, String.prefix EmptyString u = true)
    by (destruct u; reflexivity).
  cbn. rewrite Hp. reflexivity.
Qed.

Lemma formatted_markup_br_only l :
  Forall plain_piece l -> br_only (formatted_markup l) = true.
Proof.
  induction 1 as [|p l Hp _ IH]; [reflexivity|].
  unfold formatted_markup in *. cbn [map concat_strings].
  destruct p as [s| | |]; cbn [formatted].
  - apply br_only_text; assumption.
  - rewrite br_only_br. exact IH.
  - exact IH.
  - change ("<br><br>" +:+ concat_strings (map formatted l))
      with ("<br>" +:+ ("<br>" +:+ concat_strings (map formatted l))).
    rewrite !br_only_br. exact IH.
Qed.

(** *** The passes on pieces *)

Lemma re_pre_pieces f l :
  Forall plain_piece l -> replace_all re_pre f (markup l) = markup l.
Proof.
  intros Hl.
  apply (replace_all_pieces re_pre f written (fun _ => True)); auto.
  - intros prev a t H. unfold match_here, re_pre. cbn -[ascii_eqb_ci].
    rewrite ci_lt, H. reflexivity.
  - intros p rest prev Hp _ _ _. left. split; [|reflexivity].
    destruct p; [discriminate|reflexivity..].
  - apply Forall_forall. auto.
Qed.

Lemma re_bare_code_pieces f l :
  Forall plain_piece l -> replace_all re_bare_code f (markup l) = markup l.
Proof.
  intros Hl.
  apply (replace_all_pieces re_bare_code f written (fun _ => True)); auto.
  - intros prev a t H. unfold match_here, re_bare_code. cbn -[ascii_eqb_ci].
    rewrite ci_lt, H. reflexivity.
  - intros p rest prev Hp _ _ _. left. split; [|reflexivity].
    destruct p; [discriminate|reflexivity..].
  - apply Forall_forall. auto.
Qed.

Lemma re_p_open_pieces l :
  Forall plain_piece l ->
  replace_all re_p_open (to EmptyString) (markup l)
  = concat_strings (map without_p_open l).
Proof.
  intros Hl.
  apply (replace_all_pieces re_p_open _ without_p_open (fun _ => True)); auto.
  - intros prev a t H. unfold match_here, re_p_open. cbn -[ascii_eqb_ci].
    rewrite ci_lt, H. reflexivity.
  - intros p rest prev Hp _ _ _.
    destruct p; [discriminate| | |].
    + left. split; reflexivity.
    + right. exists []. split; reflexivity.
    + left. split; reflexivity.
  - apply Forall_forall. auto.
Qed.

Lemma re_p_close_pieces l :
  Forall plain_piece l -> Forall (fun p => p <> POpen) l ->
  replace_all re_p_close (to "<br><br>") (markup l) = formatted_markup l.
Proof.
  intros Hl Hno.
  apply (replace_all_pieces re_p_close _ formatted (fun p => p <> POpen)); auto.
  - intros prev a t H. unfold match_here, re_p_close. cbn -[ascii_eqb_ci].
    rewrite ci_lt, H. reflexivity.
  - intros p rest prev Hp Hne _ _.
    destruct p; [discriminate| |congruence|].
    + left. split; reflexivity.
    + right. exists []. split; reflexivity.
Qed.

Lemma without_p_open_markup l :
  concat_strings (map without_p_open l) = markup (drop_p_open l).
Proof.
  induction l as [|p l IH]; [reflexivity|].
  destruct p;
    [change (s +:+ concat_strings (map without_p_open l)
             = s +:+ markup (drop_p_open l))
    |change ("<br>" +:+ concat_strings (map without_p_open l)
             = "<br>" +:+ markup (drop_p_open l))
    |change (concat_strings (map without_p_open l) = markup (drop_p_open l))
    |change ("</p>" +:+ concat_strings (map without_p_open l)
             = "</p>" +:+ markup (drop_p_open l))];
    rewrite IH; reflexivity.
Qed.

Lemma drop_p_open_formatted l :
  formatted_markup (drop_p_open l) = formatted_markup l.
Proof.
  induction l as [|p l IH]; [reflexivity|].
  destruct p;
    [change (s +:+ formatted_markup (drop_p_open l) = s +:+ formatted_markup l)
    |change ("<br>" +:+ formatted_markup (drop_p_open l)
             = "<br>" +:+ formatted_markup l)
    |change (formatted_markup (drop_p_open l) = formatted_markup l)
    |change ("<br><br>" +:+ formatted_markup (drop_p_open l)
             = "<br><br>" +:+ formatted_markup l)];
    rewrite IH; reflexivity.
Qed.

Lemma drop_p_open_plain l :
  Forall plain_piece l ->
  Forall plain_piece (drop_p_open l) /\ Forall (fun p => p <> POpen) (drop_p_open l).
Proof.
  induction 1 as [|p l Hp _ [IH1 IH2]]; [split; constructor|].
  destruct p; cbn; split; auto; constructor; auto; discriminate.
Qed.

(** The first four passes: paragraphs become text followed by two
    breaks. *)
Lemma paragraph_passes f g l :
  Forall plain_piece l ->
  replace_all re_p_close (to "<br><br>")
    (replace_all re_p_open (to EmptyString)
       (replace_all re_bare_code g (replace_all re_pre f (markup l))))
  = formatted_markup l.
Proof.
  intros Hl.
  rewrite re_pre_pieces, re_bare_code_pieces, re_p_open_pieces by exact Hl.
  rewrite without_p_open_markup.
  destruct (drop_p_open_plain l Hl) as [H1 H2].
  rewrite re_p_close_pieces by assumption.
  apply drop_p_open_formatted.
Qed.

(** *** The later passes where the only tag is [<br>] *)

Lemma re_br_before_br_only f s :
  br_only s = true ->
  replace_all (re_br_before ["ul"; "ol"; "div"] 3) f s = s.
Proof.
  intros Hs. apply replace_all_never. intros prev z Hz.
  change (match_here (re_br_before ["ul"; "ol"; "div"] 3) prev z)
    with (rmatch (plus (Group 1 (liti "<br>"))) prev z []
            (fun p1 s1 c1 =>
               rmatch (star ws) p1 s1 c1
                 (fun p2 s2 c2 =>
                    rmatch
                      (Group 2 (seqs [lit "<";
                                      Group 3 (alts (map liti ["ul"; "ol"; "div"]));
                                      star not_gt; lit ">"]))
                      p2 s2 c2 (fun p s' c => Some (Hit c p s'))))).
  apply rmatch_none. intros p1 s1 c1 H1.
  apply rmatch_none. intros p2 s2 c2 H2.
  assert (Hb : br_only s2 = true).
  { eapply br_only_suffix_of; [|exact Hs].
    eapply suffix_of_trans; [exact H2|].
    eapply suffix_of_trans; [exact H1|exact Hz]. }
  destruct (br_only_head _ Hb) as [->|[(a & t & -> & Ha)|(t & ->)]].
  - reflexivity.
  - cbn -[Ascii.eqb]. rewrite Ha. reflexivity.
  - reflexivity.
Qed.

Lemma re_br_before_blockquote_br_only f s :
  br_only s = true ->
  replace_all re_br_before_blockquote f s = s.
Proof.
  intros Hs. apply replace_all_never. intros prev z Hz.
  change (match_here re_br_before_blockquote prev z)
    with (rmatch (plus (Group 1 (liti "<br>"))) prev z []
            (fun p1 s1 c1 =>
               rmatch (star ws) p1 s1 c1
                 (fun p2 s2 c2 =>
                    rmatch
                      (Group 2 (seqs [liti "<blockquote"; star not_gt; lit ">"]))
                      p2 s2 c2 (fun p s' c => Some (Hit c p s'))))).
  apply rmatch_none. intros p1 s1 c1 H1.
  apply rmatch_none. intros p2 s2 c2 H2.
  assert (Hb : br_only s2 = true).
  { eapply br_only_suffix_of; [|exact Hs].
    eapply suffix_of_trans; [exact H2|].
    eapply suffix_of_trans; [exact H1|exact Hz]. }
  destruct (br_only_head _ Hb) as [->|[(a & t & -> & Ha)|(t & ->)]].
  - reflexivity.
  - cbn -[ascii_eqb_ci]. rewrite ci_lt, Ha. reflexivity.
  - reflexivity.
Qed.

Lemma re_after_block_br_only f s :
  br_only s = true -> replace_all re_after_block f s = s.
Proof.
  intros Hs. apply replace_all_never. intros prev z Hz.
  assert (Hb : br_only z = true) by (eapply br_only_suffix_of; eassumption).
  destruct (br_only_head _ Hb) as [->|[(a & t & -> & Ha)|(t & ->)]].
  - reflexivity.
  - unfold match_here, re_after_block. cbn -[ascii_eqb_ci].
    rewrite ci_lt, Ha. reflexivity.
  - reflexivity.
Qed.

(** *** The last pass *)

Lemma br_group_step {R} prev s c (k : option ascii -> string -> caps -> option R) :
  rmatch (Group 1 (liti "<br>")) prev s c k
  = match s with
    | String a (String b (String c0 (String d u))) =>
        if starts_with_br s
        then k (Some d) u
               ((1%nat, substring 0 (String.length s - String.length u) s) :: c)
        else None
    | _ => None
    end.
Proof.
  destruct s as [|a [|b [|c0 [|d u]]]];
    cbn -[ascii_eqb_ci substring String.length];
    repeat match goal with
           | |- context [ascii_eqb_ci ?x ?y] => destruct (ascii_eqb_ci x y)
           end; reflexivity.
Qed.

Lemma brs_only_step a b c d u :
  brs_only (String a (String b (String c (String d u))))
  = starts_with_br (String a (String b (String c (String d u))))
    && brs_only u.
Proof. reflexivity. Qed.

Lemma brs_only_short s :
  (0 < String.length s < 4)%nat -> brs_only s = false.
Proof.
  destruct s as [|a [|b [|c0 [|d u]]]]; cbn [String.length]; intros H;
    try lia; cbn [brs_only]; apply andb_false_r.
Qed.

(** The loop of [(<br>)+] before [$]: it reaches the end exactly when
    only [<br>] are left. *)
Lemma trailing_loop :
  forall n s prev c,
    (String.length s <= n)%nat ->
    let run :=
      (fix loop (n : nat) (prev : option ascii) (s : string) (c : caps)
         : option rx_hit :=
         let more :=
           match n with
           | O => None
           | S n' =>
               rmatch (Group 1 (liti "<br>")) prev s c (fun prev' s' c' =>
                 if (String.length s' <? String.length s)%nat
                 then loop n' prev' s' c' else None)
           end in
         if true then
           match more with
           | Some x => Some x
           | None => rmatch Eol prev s c (fun p s' c => Some (Hit c p s'))
           end
         else
           match rmatch Eol prev s c (fun p s' c => Some (Hit c p s')) with
           | Some x => Some x
           | None => more
           end) n prev s c in
    if brs_only s
    then exists c' p', run = Some (Hit c' p' EmptyString)
    else run = None.
Proof.
  induction n as [|n IH]; intros s prev c Hn.
  - destruct s; [|simpl in Hn; lia]. cbn. eauto.
  - cbn zeta. rewrite br_group_step.
    destruct s as [|a [|b [|c0 [|d u]]]];
      [cbn; eauto|reflexivity|reflexivity|reflexivity|].
    rewrite brs_only_step.
    destruct (starts_with_br (String a (String b (String c0 (String d u)))));
      [|reflexivity].
    cbn [andb]. cbn [String.length] in Hn.
    replace (String.length u
             <? String.length (String a (String b (String c0 (String d u)))))%nat
      with true by (symmetry; apply Nat.ltb_lt; simpl; lia).
    specialize (IH u (Some d)
                  ((1%nat, substring 0
                       (String.length (String a (String b (String c0 (String d u))))
                        - String.length u)
                       (String a (String b (String c0 (String d u))))) :: c)
                  ltac:(lia)).
    cbn zeta in IH.
    destruct (brs_only u).
    + destruct IH as (c' & p' & ->). exists c', p'. reflexivity.
    + rewrite IH. reflexivity.
Qed.

(** [(<br>)+$] matches at a position exactly when what follows is a
    sequence of at least one [<br>], and then it consumes all of it. *)
Lemma re_trailing_br_here prev z :
  match z with
  | EmptyString => match_here re_trailing_br prev z = None
  | String _ _ =>
      if brs_only z
      then exists c p, match_here re_trailing_br prev z
                       = Some (Hit c p EmptyString)
      else match_here re_trailing_br prev z = None
  end.
Proof.
  change (match_here re_trailing_br prev z)
    with (rmatch (Group 1 (liti "<br>")) prev z []
            (fun p1 s1 c1 =>
               rmatch (Star true (Group 1 (liti "<br>"))) p1 s1 c1
                 (fun p2 s2 c2 =>
                    rmatch Eol p2 s2 c2 (fun p s' c => Some (Hit c p s'))))).
  rewrite br_group_step.
  destruct z as [|a [|b [|c0 [|d u]]]];
    [reflexivity|reflexivity|reflexivity|reflexivity|].
  rewrite brs_only_step.
  destruct (starts_with_br (String a (String b (String c0 (String d u)))));
    [|reflexivity].
  cbn [andb].
  exact (trailing_loop (String.length u) u (Some d) _ (le_n _)).
Qed.

(** The last pass removes the run of [<br>] at the end. *)
Lemma re_trailing_br_strips s :
  replace_first re_trailing_br (to EmptyString) s = strip_trailing_brs s.
Proof.
  unfold replace_first. generalize (@None ascii) as prev.
  induction s as [|a s IH]; intros prev.
  - reflexivity.
  - pose proof (re_trailing_br_here prev (String a s)) as H.
    cbv iota in H. cbn [strip_trailing_brs replace_first_from].
    destruct (brs_only (String a s)).
    + destruct H as (c & p & ->). reflexivity.
    + rewrite H. f_equal. apply IH.
Qed.

(** What is cut off is a sequence of [<br>]. *)
Lemma strip_trailing_brs_split s :
  exists b, s = strip_trailing_brs s +:+ b /\ brs_only b = true.
Proof.
  induction s as [|a s (b & Hs & Hb)].
  - exists EmptyString. auto.
  - cbn [strip_trailing_brs]. destruct (brs_only (String a s)) eqn:Ha.
    + exists (String a s). auto.
    + exists b. rewrite append_cons, <- Hs. auto.
Qed.

Lemma brs_only_after_br x b :
  (starts_with_br x && (String.length x =? 4)%nat) = true ->
  brs_only b = true -> brs_only (x +:+ b) = true.
Proof.
  destruct x as [|a1 [|a2 [|a3 [|a4 [|a5 u]]]]]; cbn [String.length];
    intros H Hb; try (rewrite andb_false_r in H; discriminate);
    try discriminate.
  apply andb_prop in H. destruct H as [H _].
  change (String a1 (String a2 (String a3 (String a4 EmptyString))) +:+ b)
    with (String a1 (String a2 (String a3 (String a4 b)))).
  rewrite brs_only_step, Hb, andb_true_r.
  destruct b; exact H.
Qed.

Lemma strip_trailing_brs_no_br s : ends_with_br (strip_trailing_brs s) = false.
Proof.
  induction s as [|a s IH]; [reflexivity|].
  cbn [strip_trailing_brs]. destruct (brs_only (String a s)) eqn:Ha;
    [reflexivity|].
  cbn [ends_with_br]. rewrite IH, orb_false_r.
  destruct (starts_with_br (String a (strip_trailing_brs s))
            && (String.length (String a (strip_trailing_brs s)) =? 4)%nat)
    eqn:Hx; [|reflexivity].
  destruct (strip_trailing_brs_split s) as (b & Hs & Hb).
  pose proof (brs_only_after_br _ b Hx Hb) as H.
  rewrite append_cons, <- Hs in H. congruence.
Qed.


(** X19. A reply written as text without [<], line breaks [<br>] and
    paragraphs [<p>], [</p>] is formatted as follows, in both spacing
    modes: each [<p>] is removed, each [</p>] becomes two line breaks,
    the line breaks at the very end are removed, and the text and the
    other line breaks are left as they are. *)
Theorem formatReplyHtml_paragraphs (l : list Piece) (compact : bool) :
  Forall plain_piece l ->
  formatReplyHtml (markup l) compact
  = strip_trailing_brs (formatted_markup l).
Proof.
  intros Hl. unfold formatReplyHtml. cbv zeta.
  rewrite re_trailing_br_strips, paragraph_passes by exact Hl.
  pose proof (formatted_markup_br_only l Hl) as Hb.
  rewrite re_br_before_br_only by exact Hb.
  destruct compact;
    rewrite re_br_before_blockquote_br_only, re_after_block_br_only
      by exact Hb; reflexivity.
Qed.

Lemma formatReplyHtml_paragraphs_witness :
  Forall plain_piece
    [POpen; Text "Hi Ann,"; PClose; POpen; Text "Thanks!"; Br; Text "Bob";
     PClose]
  /\ formatReplyHtml "<p>Hi Ann,</p><p>Thanks!<br>Bob</p>" true
     = "Hi Ann,<br><br>Thanks!<br>Bob".
Proof.
  split; [repeat constructor|].
  exact (formatReplyHtml_paragraphs
           [POpen; Text "Hi Ann,"; PClose; POpen; Text "Thanks!"; Br;
            Text "Bob"; PClose] true ltac:(repeat constructor)).
Defined.

(** X20. Whatever the input and the spacing mode, the formatted reply
    does not end with a line break [<br>] (in any case of the
    letters). *)
Theorem formatReplyHtml_no_trailing_br (html : string) (compact : bool) :
  ends_with_br (formatReplyHtml html compact) = false.
Proof.
  unfold formatReplyHtml. cbv zeta.
  rewrite re_trailing_br_strips. apply strip_trailing_brs_no_br.
Qed.

(** ** The white space of stripHtml *)

(** What a match leaves is a suffix of the input. *)
Lemma match_here_suffix r prev s h :
  match_here r prev s = Some h -> suffix_of (hit_rest h) s.
Proof.
  intros H. unfold match_here in H.
  destruct (rmatch_consumed _ r (chars_in_any r) _ _ _ _ _ _ H)
    as (s1 & s2 & p1 & c1 & -> & _ & H1).
  injection H1 as <-. exists s1. reflexivity.
Qed.

Lemma all_chars_suffix P z s :
  suffix_of z s -> all_chars P s = true -> all_chars P z = true.
Proof.
  intros [pre ->]. rewrite all_chars_app. intros H.
  apply andb_prop in H. tauto.
Qed.

(** A replacement by a fixed text brings in no character that neither
    the input nor that text has. *)
Lemma replace_loop_all_chars P r t :
  all_chars P t = true ->
  forall n s prev,
    all_chars P s = true ->
    all_chars P (replace_loop n r (to t) prev s) = true.
Proof.
  intros Ht. induction n as [|n IH]; intros s prev Hs; [exact Hs|].
  cbn [replace_loop]. destruct (match_here r prev s) as [h|] eqn:Hm.
  - pose proof (all_chars_suffix P _ _ (match_here_suffix _ _ _ _ Hm) Hs) as Hr.
    destruct (String.length (hit_rest h) <? String.length s)%nat.
    + unfold to at 1. rewrite all_chars_app, Ht. apply IH. exact Hr.
    + destruct s as [|a u]; [exact Ht|].
      unfold to at 1. rewrite all_chars_app, Ht.
      cbn [all_chars] in *. apply andb_prop in Hs. destruct Hs as [-> Hu].
      apply IH. exact Hu.
  - destruct s as [|a u]; [reflexivity|].
    cbn [all_chars] in *. apply andb_prop in Hs. destruct Hs as [-> Hu].
    apply IH. exact Hu.
Qed.

Lemma replace_all_all_chars P r t s :
  all_chars P t = true -> all_chars P s = true ->
  all_chars P (replace_all r (to t) s) = true.
Proof. intros Ht Hs. apply replace_loop_all_chars; assumption. Qed.

(** Replacing every character of a class leaves none of them. *)
Lemma replace_loop_chr_none p t :
  all_chars (fun a => negb (p a)) t = true ->
  forall n s prev,
    (String.length s < n)%nat ->
    all_chars (fun a => negb (p a)) (replace_loop n (Chr p) (to t) prev s) = true.
Proof.
  intros Ht. induction n as [|n IH]; intros s prev Hn; [lia|].
  cbn [replace_loop]. destruct s as [|a u]; [reflexivity|].
  cbn [String.length] in Hn. unfold match_here. cbn [rmatch].
  destruct (p a) eqn:Ha.
  - cbn [hit_rest hit_caps hit_prev].
    replace (String.length u <? String.length (String a u))%nat with true
      by (symmetry; apply Nat.ltb_lt; simpl; lia).
    unfold to at 1. rewrite all_chars_app, Ht. apply IH. lia.
  - cbn [all_chars]. rewrite Ha. apply IH. lia.
Qed.

Lemma all_chars_and P Q s :
  all_chars (fun a => P a && Q a) s = all_chars P s && all_chars Q s.
Proof.
  induction s as [|a s IH]; [reflexivity|]. cbn [all_chars]. rewrite IH.
  destruct (P a), (Q a), (all_chars P s), (all_chars Q s); reflexivity.
Qed.

Lemma trim_start_all_chars P s :
  all_chars P s = true -> all_chars P (trim_start s) = true.
Proof.
  induction s as [|a s IH]; [auto|]. cbn [trim_start all_chars]. intros H.
  destruct (is_space a); [|exact H].
  apply andb_prop in H. tauto.
Qed.

Lemma trim_end_all_chars P s :
  all_chars P s = true -> all_chars P (trim_end s) = true.
Proof.
  induction s as [|a s IH]; [auto|]. cbn [trim_end all_chars]. intros H.
  apply andb_prop in H. destruct H as [Ha Hs]. specialize (IH Hs).
  destruct (trim_end s) as [|b t].
  - destruct (is_space a); [reflexivity|]. cbn [all_chars]. rewrite Ha.
    reflexivity.
  - cbn [all_chars] in *. rewrite Ha. exact IH.
Qed.

Lemma trim_all_chars P s :
  all_chars P s = true -> all_chars P (trim s) = true.
Proof. intros H. apply trim_end_all_chars, trim_start_all_chars, H. Qed.

Lemma split_lines_all_chars P s :
  all_chars P s = true ->
  Forall (fun l => all_chars P l = true) (split_lines s).
Proof.
  induction s as [|a s IH]; [repeat constructor|].
  cbn [all_chars split_lines]. intros H.
  apply andb_prop in H. destruct H as [Ha Hs]. specialize (IH Hs).
  destruct (Ascii.eqb a (chr 10)); [constructor; auto|].
  destruct (split_lines s) as [|l ls].
  - repeat constructor. cbn [all_chars]. rewrite Ha. reflexivity.
  - inversion IH; subst. constructor; [|assumption].
    cbn [all_chars]. rewrite Ha. assumption.
Qed.

Lemma join_all_chars P sep l :
  all_chars P sep = true ->
  Forall (fun x => all_chars P x = true) l ->
  all_chars P (join sep l) = true.
Proof.
  intros Hsep. induction 1 as [|x l Hx Hl IH]; [reflexivity|].
  cbn [join]. destruct l as [|y l']; [exact Hx|].
  rewrite !all_chars_app, Hx, Hsep. exact IH.
Qed.

Lemma trimmed_lines_all_chars P s :
  P (chr 10) = true ->
  all_chars P s = true ->
  all_chars P (trim (join nl (map trim (split_lines s)))) = true.
Proof.
  intros Hnl Hs. apply trim_all_chars, join_all_chars.
  - cbn. rewrite Hnl. reflexivity.
  - apply List.Forall_map.
    eapply List.Forall_impl; [|apply split_lines_all_chars; exact Hs].
    intros l Hl. apply trim_all_chars, Hl.
Qed.

(** *** Runs of spaces *)

Lemma single_spaced_suffix pre z :
  single_spaced (pre +:+ z) = true -> single_spaced z = true.
Proof.
  induction pre as [|a pre IH]; [auto|].
  rewrite append_cons. cbn [single_spaced]. intros H.
  apply andb_prop in H. tauto.
Qed.

Lemma single_spaced_suffix_of z s :
  suffix_of z s -> single_spaced s = true -> single_spaced z = true.
Proof. intros [pre ->]. apply single_spaced_suffix. Qed.

Lemma single_spaced_cons a o t :
  single_spaced (String a t) = true ->
  single_spaced o = true ->
  (starts_with_space o = true -> starts_with_space t = true) ->
  single_spaced (String a o) = true.
Proof.
  cbn [single_spaced]. intros H Ho Himp.
  apply andb_prop in H. destruct H as [H _]. rewrite Ho, andb_true_r.
  destruct (Ascii.eqb " " a); [|reflexivity].
  destruct (starts_with_space o); [|reflexivity].
  rewrite Himp in H by reflexivity. exact H.
Qed.

(** The loop of [ *] reads all the spaces there are. *)
Lemma space_loop :
  forall n s prev c,
    (String.length s <= n)%nat ->
    exists prev' rest,
      (fix loop (n : nat) (prev : option ascii) (s : string) (c : caps)
         : option rx_hit :=
         let more :=
           match n with
           | O => None
           | S n' =>
               rmatch (Chr (Ascii.eqb " ")) prev s c (fun prev' s' c' =>
                 if (String.length s' <? String.length s)%nat
                 then loop n' prev' s' c' else None)
           end in
         if true then
           match more with
           | Some x => Some x
           | None => Some (Hit c prev s)
           end
         else
           match Some (Hit c prev s) with
           | Some x => Some x
           | None => more
           end) n prev s c
      = Some (Hit c prev' rest)
      /\ starts_with_space rest = false
      /\ (String.length rest <= String.length s)%nat.
Proof.
  induction n as [|n IH]; intros s prev c Hn.
  - destruct s; [|simpl in Hn; lia]. exists prev, EmptyString. auto.
  - destruct s as [|a t]; [exists prev, EmptyString; auto|].
    cbn zeta. cbn [rmatch String.length] in *.
    destruct (Ascii.eqb " " a) eqn:Ha.
    + replace (String.length t <? S (String.length t))%nat with true
        by (symmetry; apply Nat.ltb_lt; lia).
      destruct (IH t (Some a) c ltac:(lia)) as (p' & rest & -> & H1 & H2).
      exists p', rest. auto.
    + exists prev, (String a t). cbn [starts_with_space String.length]. auto.
Qed.

(** [ {2,}] at a position: it fails unless two spaces follow, and
    otherwise consumes all the spaces that follow. *)
Lemma two_spaces_here prev s :
  (match_here (at_least 2 (lit " ")) prev s = None
   /\ match s with
      | String a t => (Ascii.eqb " " a && starts_with_space t) = false
      | EmptyString => True
      end)
  \/ (exists h,
        match_here (at_least 2 (lit " ")) prev s = Some h
        /\ starts_with_space s = true
        /\ starts_with_space (hit_rest h) = false
        /\ (String.length (hit_rest h) < String.length s)%nat).
Proof.
  destruct s as [|a [|b u]].
  - left. auto.
  - left. split; [|apply andb_false_r].
    unfold match_here. cbn [at_least rep lit rmatch].
    destruct (Ascii.eqb " " a); reflexivity.
  - unfold match_here. cbn [at_least rep lit star].
    cbn [rmatch starts_with_space].
    destruct (Ascii.eqb " " a) eqn:Ha; [|left; auto].
    destruct (Ascii.eqb " " b); [|left; auto].
    right.
    destruct (space_loop (String.length u) u (Some b) [] (le_n _))
      as (p' & rest & Hrun & H1 & H2).
    exists (Hit [] p' rest). split; [exact Hrun|].
    cbn [hit_rest String.length]. split; [reflexivity|].
    split; [exact H1|lia].
Qed.

(** After [ {2,}] is replaced by one space, no space is followed by a
    space. *)
Lemma collapse_spaces :
  forall n s prev,
    (String.length s < n)%nat ->
    single_spaced (replace_loop n (at_least 2 (lit " ")) (to " ") prev s) = true
    /\ (starts_with_space
          (replace_loop n (at_least 2 (lit " ")) (to " ") prev s) = true ->
        starts_with_space s = true).
Proof.
  induction n as [|n IH]; intros s prev Hn; [lia|].
  cbn [replace_loop].
  destruct (two_spaces_here prev s) as [[-> Hs]|(h & -> & Hsp & Hr & Hl)].
  - destruct s as [|a t]; [auto|]. cbn [String.length] in Hn.
    destruct (IH t (Some a) ltac:(lia)) as [IH1 IH2].
    split; [|auto].
    cbn [single_spaced]. rewrite IH1, andb_true_r.
    destruct (Ascii.eqb " " a); [|reflexivity]. cbn [andb] in *.
    destruct (starts_with_space (replace_loop n _ _ (Some a) t));
      [|reflexivity].
    rewrite IH2 in Hs by reflexivity. discriminate.
  - replace (String.length (hit_rest h) <? String.length s)%nat with true
      by (symmetry; apply Nat.ltb_lt; exact Hl).
    destruct (IH (hit_rest h) (hit_prev h) ltac:(lia)) as [IH1 IH2].
    unfold to at 1 3.
    change (" " +:+ ?x) with (String " " x).
    cbn [single_spaced starts_with_space]. rewrite IH1, andb_true_r.
    split.
    + destruct (starts_with_space (replace_loop n _ _ (hit_prev h) (hit_rest h)));
        [|reflexivity].
      rewrite IH2 in Hr by reflexivity. discriminate.
    + intros _. exact Hsp.
Qed.

(** Replacing matches by two newlines brings no two spaces together. *)
Lemma replace_loop_single_spaced r :
  forall n s prev,
    single_spaced s = true ->
    single_spaced (replace_loop n r (to (nl +:+ nl)) prev s) = true
    /\ (starts_with_space (replace_loop n r (to (nl +:+ nl)) prev s) = true ->
        starts_with_space s = true).
Proof.
  induction n as [|n IH]; intros s prev Hs; [auto|].
  cbn [replace_loop]. destruct (match_here r prev s) as [h|] eqn:Hm.
  - pose proof (single_spaced_suffix_of _ _ (match_here_suffix _ _ _ _ Hm) Hs)
      as Hr.
    change (to (nl +:+ nl) (hit_caps h) ?m) with (nl +:+ nl).
    change ((nl +:+ nl) +:+ ?x) with (String (chr 10) (String (chr 10) x)).
    destruct (String.length (hit_rest h) <? String.length s)%nat.
    + destruct (IH (hit_rest h) (hit_prev h) Hr) as [IH1 _].
      split; [|discriminate].
      cbn [single_spaced]. rewrite IH1. reflexivity.
    + destruct s as [|a t]; [split; [reflexivity|discriminate]|].
      split; [|discriminate].
      assert (Ht : single_spaced t = true)
        by (apply (single_spaced_suffix (String a EmptyString) t Hs)).
      destruct (IH t (Some a) Ht) as [IH1 IH2].
      change (single_spaced (String a (replace_loop n r (to (nl +:+ nl)) (Some a) t))
              = true).
      eapply single_spaced_cons; eassumption.
  - destruct s as [|a t]; [auto|].
    assert (Ht : single_spaced t = true)
      by (apply (single_spaced_suffix (String a EmptyString) t Hs)).
    destruct (IH t (Some a) Ht) as [IH1 IH2].
    split; [|auto]. eapply single_spaced_cons; eassumption.
Qed.

Lemma trim_start_single_spaced s :
  single_spaced s = true -> single_spaced (trim_start s) = true.
Proof.
  induction s as [|a s IH]; [auto|]. cbn [trim_start]. intros H.
  destruct (is_space a); [|exact H].
  apply IH. apply (single_spaced_suffix (String a EmptyString) s H).
Qed.

Lemma trim_end_single_spaced s :
  single_spaced s = true ->
  single_spaced (trim_end s) = true
  /\ (starts_with_space (trim_end s) = true -> starts_with_space s = true).
Proof.
  induction s as [|a s IH]; [auto|]. intros H.
  assert (Hs : single_spaced s = true)
    by (apply (single_spaced_suffix (String a EmptyString) s H)).
  destruct (IH Hs) as [IH1 IH2]. cbn [trim_end].
  destruct (trim_end s) as [|b t] eqn:Ht.
  - destruct (is_space a); [split; [reflexivity|discriminate]|].
    split; [|auto]. cbn. rewrite andb_false_r. reflexivity.
  - split; [|auto]. eapply single_spaced_cons; eassumption.
Qed.

Lemma trim_single_spaced s :
  single_spaced s = true -> single_spaced (trim s) = true.
Proof.
  intros H. apply trim_end_single_spaced, trim_start_single_spaced, H.
Qed.

Lemma split_lines_single_spaced s :
  single_spaced s = true ->
  Forall (fun l => single_spaced l = true) (split_lines s)
  /\ (forall l ls, split_lines s = l :: ls ->
                   starts_with_space l = true -> starts_with_space s = true).
Proof.
  induction s as [|a s IH]; intros H.
  - split; [repeat constructor|]. intros l ls [= <- <-]. auto.
  - assert (Hs : single_spaced s = true)
      by (apply (single_spaced_suffix (String a EmptyString) s H)).
    destruct (IH Hs) as [IH1 IH2]. cbn [split_lines].
    destruct (Ascii.eqb a (chr 10)) eqn:Ha.
    + split; [constructor; auto|]. intros l ls [= <- <-]. discriminate.
    + destruct (split_lines s) as [|l0 ls0].
      * split.
        -- repeat constructor. cbn. rewrite andb_false_r. reflexivity.
        -- intros l ls [= <- <-]. auto.
      * inversion IH1; subst. split.
        -- constructor; [|assumption].
           eapply single_spaced_cons; [exact H|assumption|].
           apply (IH2 l0 ls0 eq_refl).
        -- intros l ls [= <- <-]. auto.
Qed.

Lemma single_spaced_lines x y :
  single_spaced x = true -> single_spaced y = true ->
  single_spaced (x +:+ nl +:+ y) = true.
Proof.
  intros Hx Hy. induction x as [|a x IH].
  - change (single_spaced (String (chr 10) y) = true).
    cbn [single_spaced]. rewrite Hy. reflexivity.
  - rewrite append_cons.
    assert (Hx' : single_spaced x = true)
      by (apply (single_spaced_suffix (String a EmptyString) x Hx)).
    eapply single_spaced_cons; [exact Hx|apply IH, Hx'|].
    destruct x; [discriminate|auto].
Qed.

Lemma join_single_spaced l :
  Forall (fun x => single_spaced x = true) l ->
  single_spaced (join nl l) = true.
Proof.
  induction 1 as [|x l Hx Hl IH]; [reflexivity|].
  cbn [join]. destruct l as [|y l']; [exact Hx|].
  apply single_spaced_lines; assumption.
Qed.

Lemma trimmed_lines_single_spaced s :
  single_spaced s = true ->
  single_spaced (trim (join nl (map trim (split_lines s)))) = true.
Proof.
  intros Hs. apply trim_single_spaced, join_single_spaced.
  apply List.Forall_map.
  eapply List.Forall_impl;
    [|apply (proj1 (split_lines_single_spaced s Hs))].
  intros l Hl. apply trim_single_spaced, Hl.
Qed.

(** X21. Whatever the input, the text stripHtml returns holds no tab
    and no carriage return, and none of its spaces is followed by
    another space. *)
Theorem stripHtml_collapses_whitespace (html : string) :
  all_chars no_tab_or_cr (stripHtml html) = true
  /\ single_spaced (stripHtml html) = true.
Proof.
  unfold stripHtml. cbv zeta.
  match goal with
  | |- context [replace_all (lit (cr +:+ nl)) (to nl) ?x] =>
      generalize (replace_all (lit (cr +:+ nl)) (to nl) x)
  end.
  intros s. split.
  - apply trimmed_lines_all_chars; [reflexivity|].
    apply replace_all_all_chars; [reflexivity|].
    apply replace_all_all_chars; [reflexivity|].
    unfold no_tab_or_cr. rewrite all_chars_and. apply andb_true_intro. split.
    + apply (replace_loop_chr_none (Ascii.eqb (chr 9))); [reflexivity|lia].
    + apply (replace_all_all_chars (fun a => negb (Ascii.eqb (chr 13) a)));
        [reflexivity|].
      apply (replace_loop_chr_none (Ascii.eqb (chr 13))); [reflexivity|lia].
  - apply trimmed_lines_single_spaced.
    apply replace_loop_single_spaced.
    apply collapse_spaces. lia.
Qed.

(** ** Beacon forms *)

Lemma is_empty_append a b : is_empty a = false -> is_empty (a +:+ b) = false.
Proof. destruct a; [discriminate|reflexivity]. Qed.

Lemma is_empty_trim s : is_empty (trim s) = false -> is_empty s = false.
Proof. destruct s; [discriminate|reflexivity]. Qed.

(** X22. cleanBeaconForm returns the empty string only for the empty
    string: whatever it extracts from a Beacon form, a message that
    is not empty is never reduced to nothing. *)
Theorem cleanBeaconForm_keeps_something (html : string) :
  is_empty (cleanBeaconForm html) = is_empty html.
Proof.
  unfold cleanBeaconForm.
  destruct (rx_test re_beacon html) eqn:Hb; cbn [negb]; [|reflexivity].
  assert (Hh : is_empty html = false) by (destruct html; [discriminate|reflexivity]).
  cbv zeta. rewrite Hh.
  set (sourceUrl := match rx_match re_ticket_link html with
                    | Some c => _ | None => _ end).
  destruct (rx_match re_hidden_span html) as [c|].
  - destruct (is_empty (trim (cap 1 c))) eqn:Hc.
    + match goal with
      | |- is_empty (if is_empty ?m then _ else _) = _ =>
          destruct (is_empty m) eqn:Hm; [exact Hh|exact Hm]
      end.
    + apply is_empty_trim in Hc.
      destruct (is_empty sourceUrl); [exact Hc|apply is_empty_append, Hc].
  - match goal with
    | |- is_empty (if is_empty ?m then _ else _) = _ =>
        destruct (is_empty m) eqn:Hm; [exact Hh|exact Hm]
    end.
Qed.

(** ** What a search delivers against a paging upstream *)

Lemma gathered_ext {A} (get get' : Z -> Settled (Page A)) k :
  (forall i, (1 <= i <= k)%nat -> get' (Z.of_nat i) = get (Z.of_nat i)) ->
  gathered get' k = gathered get k.
Proof.
  induction k as [|k IH]; intros Hext; [reflexivity|].
  rewrite !gathered_succ, IH, Hext by (intros; try apply Hext; lia).
  reflexivity.
Qed.

Lemma reported_total_ext {A} (get get' : Z -> Settled (Page A)) k :
  (forall i, (1 <= i <= k)%nat -> get' (Z.of_nat i) = get (Z.of_nat i)) ->
  reported_total get' k = reported_total get k.
Proof.
  induction k as [|k IH]; intros Hext; [reflexivity|].
  rewrite !reported_total_succ, IH, Hext by (intros; try apply Hext; lia).
  reflexivity.
Qed.

Lemma fetched_through_ext {A} (get get' : Z -> Settled (Page A)) desired cap k :
  (forall i, (1 <= i <= k)%nat -> get' (Z.of_nat i) = get (Z.of_nat i)) ->
  fetched_through get desired cap k ->
  fetched_through get' desired cap k.
Proof.
  intros Hext (Hcap & Hserved & Hnext & Hfew).
  split; [exact Hcap|]. split; [|split].
  - intros i Hi. rewrite Hext by lia. apply Hserved. exact Hi.
  - intros i Hi. rewrite Hext by lia. apply Hnext. exact Hi.
  - intros i Hi. rewrite (gathered_ext get get') by (intros; apply Hext; lia).
    apply Hfew. exact Hi.
Qed.

Lemma fetched_through_le {A} (get : Z -> Settled (Page A)) desired cap k j :
  fetched_through get desired cap k -> (j <= k)%nat ->
  fetched_through get desired cap j.
Proof.
  intros (Hcap & Hserved & Hnext & Hfew) Hj.
  split; [lia|]. split; [|split]; intros i Hi;
    [apply Hserved|apply Hnext|apply Hfew]; lia.
Qed.

(** The loop stops after page [k] when it has gone through the pages
    [1 .. k] and then finds enough items, no [next] link, or its page
    limit reached. *)
Lemma fetch_pages_loop_stops {A} (get : Z -> Settled (Page A)) desired cap k :
  fetched_through get desired cap k ->
  (k = cap \/ desired <= len (gathered get k)
   \/ ((1 <= k)%nat /\ has_next (get (Z.of_nat k)) = false)) ->
  fetch_pages_loop get desired cap [] 0 1 true
  = Fulfilled (gathered get k, reported_total get k).
Proof.
  intros Hf Hstop. rewrite (fetch_pages_loop_unroll get desired cap k Hf).
  destruct (cap - k)%nat eqn:E; [reflexivity|]. cbn [fetch_pages_loop].
  destruct Hstop as [->|[Hn|[Hk Hnx]]]; [lia| |].
  - replace (len (gathered get k) <? desired) with false
      by (symmetry; apply Z.ltb_ge; exact Hn).
    reflexivity.
  - destruct k; [lia|]. rewrite Hnx, andb_false_r. reflexivity.
Qed.

Lemma gathered_paged {A} (pageSize : nat) (all : list A) k :
  gathered (fun page => Fulfilled (serve_page pageSize all page)) k
  = firstn (k * pageSize) all.
Proof.
  induction k as [|k IH]; [reflexivity|].
  rewrite gathered_succ, IH. unfold items_of, serve_page.
  cbn [page_items]. change (default [] (Some ?x)) with x.
  replace (Z.to_nat (Z.of_nat (S k) - 1)) with k by lia.
  rewrite firstn_succ_page. f_equal. lia.
Qed.

Lemma reported_total_paged {A} (pageSize : nat) (all : list A) k :
  reported_total (fun page => Fulfilled (serve_page pageSize all page)) k
  = if (k =? 0)%nat then 0 else len all.
Proof.
  induction k as [|k IH]; [reflexivity|].
  rewrite reported_total_succ, IH. unfold serve_page.
  cbn [page_totalElements num_or Nat.eqb].
  destruct (len all =? 0) eqn:E; [|reflexivity].
  apply Z.eqb_eq in E. destruct (k =? 0)%nat; lia.
Qed.

Lemma has_next_paged {A} (pageSize : nat) (all : list A) j :
  (1 <= j)%nat ->
  has_next (Fulfilled (serve_page pageSize all (Z.of_nat j)))
  = (Z.of_nat (j * pageSize) <? len all).
Proof.
  intros Hj. unfold has_next, serve_page. cbn [page_next].
  f_equal. f_equal. replace (Z.to_nat (Z.of_nat j - 1)) with (j - 1)%nat by lia.
  nia.
Qed.

(** The page loop against a paging upstream: the pages it asks for. *)
Lemma paged_loop (pageSize : nat) db params (N : Z) :
  (23 <= pageSize)%nat -> 1 <= N <= 200 ->
  let api := paged_upstream pageSize db in
  let all := db (p_status params) in
  exists k : nat,
    (1 <= k)%nat
    /\ (N <= Z.of_nat (k * pageSize) \/ (length all <= k * pageSize)%nat)
    /\ (forall j, (1 <= j < k)%nat ->
                  Z.of_nat (j * pageSize) < N /\ (j * pageSize < length all)%nat)
    /\ (forall api' : ConvApi,
          (forall page, 1 <= page <= Z.of_nat k ->
                        api' (with_page params page) = api (with_page params page)) ->
          fetchConversationPages api' params N None
          = Fulfilled (firstn (k * pageSize) all, len all))
    /\ (forall (api' : ConvApi) (j : nat) e,
          (1 <= j <= k)%nat ->
          (forall page, 1 <= page < Z.of_nat j ->
                        api' (with_page params page) = api (with_page params page)) ->
          api' (with_page params (Z.of_nat j)) = Rejected e ->
          fetchConversationPages api' params N None = Rejected e).
Proof.
  intros HP HN api all.
  set (get := fun page : Z => Fulfilled (serve_page pageSize all page)).
  set (cap := Z.to_nat (num_or None (ceil_div25 N + 1))).
  assert (Hget : forall page, api (with_page params page) = get page)
    by reflexivity.
  assert (Hcap : N <= Z.of_nat (cap * pageSize)).
  { pose proof (enough_pages pageSize N HP HN) as H. exact H. }
  destruct (fetchConversationPages_paged pageSize db params N HP HN)
    as (pages & Heq & _).
  unfold fetchConversationPages in Heq.
  change (fun page => paged_upstream pageSize db (with_page params page))
    with get in Heq.
  fold cap in Heq.
  destruct (fetch_pages_loop_fulfilled get N cap _ _ Heq)
    as (k & Hthrough & Hitems & _ & Hstop).
  rewrite Hitems in Hstop. unfold get in Hstop at 1.
  rewrite (gathered_paged pageSize all k) in Hstop.
  assert (Hlen : forall i, len (firstn (i * pageSize) all)
                           = Z.min (Z.of_nat (i * pageSize)) (len all)).
  { intros i. unfold len. rewrite length_firstn. lia. }
  assert (Hk : (1 <= k)%nat).
  { destruct k; [|lia]. exfalso.
    destruct Hstop as [H0|[H0|[H0 _]]]; [|simpl in H0; unfold len in H0;
                                          simpl in H0; lia|lia].
    rewrite <- H0 in Hcap. simpl in Hcap. lia. }
  destruct Hthrough as (Hkcap & Hserved & Hnext & Hfew).
  assert (Hneeded : forall j, (1 <= j < k)%nat ->
             Z.of_nat (j * pageSize) < N /\ (j * pageSize < length all)%nat).
  { intros j Hj.
    pose proof (Hnext j Hj) as Hn. unfold get in Hn.
    rewrite (has_next_paged pageSize all j) in Hn by lia.
    apply Z.ltb_lt in Hn. unfold len in Hn.
    pose proof (Hfew j ltac:(lia)) as Hf. unfold get in Hf.
    rewrite (gathered_paged pageSize all j), Hlen in Hf.
    unfold len in Hf. lia. }
  assert (Hstopped :
            N <= Z.of_nat (k * pageSize) \/ (length all <= k * pageSize)%nat).
  { destruct Hstop as [->|[Hn|[_ Hn]]].
    - left. exact Hcap.
    - rewrite Hlen in Hn. left. lia.
    - unfold get in Hn.
      rewrite (has_next_paged pageSize all k) in Hn by lia.
      apply Z.ltb_ge in Hn. unfold len in Hn. right. lia. }
  assert (Hthrough : fetched_through get N cap k)
    by (split; [exact Hkcap|split; [exact Hserved|split; assumption]]).
  exists k. split; [exact Hk|]. split; [exact Hstopped|].
  split; [exact Hneeded|]. split.
  - intros api' Hext.
    set (get' := fun page : Z => api' (with_page params page)).
    assert (Hext' : forall i, (1 <= i <= k)%nat ->
                              get' (Z.of_nat i) = get (Z.of_nat i)).
    { intros i Hi. unfold get'. rewrite Hext by lia. apply Hget. }
    unfold fetchConversationPages. fold get'. fold cap.
    rewrite (fetch_pages_loop_stops get' N cap k).
    + rewrite (gathered_ext get get' k Hext'),
        (reported_total_ext get get' k Hext').
      unfold get.
      rewrite (gathered_paged pageSize all k),
        (reported_total_paged pageSize all k).
      replace (k =? 0)%nat with false
        by (symmetry; apply Nat.eqb_neq; lia).
      reflexivity.
    + apply (fetched_through_ext get get'); assumption.
    + rewrite (gathered_ext get get' k Hext'), Hext' by lia.
      unfold get.
      rewrite (gathered_paged pageSize all k), Hlen,
        (has_next_paged pageSize all k) by lia.
      right. destruct (Z.ltb_spec (Z.of_nat (k * pageSize)) (len all))
        as [Hlt|Hge].
      * left. unfold len in *. lia.
      * right. split; [exact Hk|reflexivity].
  - intros api' j e Hj Hext Hrej.
    set (get' := fun page : Z => api' (with_page params page)).
    assert (Hext' : forall i, (1 <= i <= j - 1)%nat ->
                              get' (Z.of_nat i) = get (Z.of_nat i)).
    { intros i Hi. unfold get'. rewrite Hext by lia. apply Hget. }
    unfold fetchConversationPages. fold get'. fold cap.
    apply (fetch_pages_loop_rejected get' N cap (j - 1)%nat).
    + apply (fetched_through_ext get get'); [exact Hext'|].
      apply (fetched_through_le get N cap k); [exact Hthrough|lia].
    + lia.
    + rewrite (gathered_ext get get' (j - 1)%nat Hext'). apply Hfew. lia.
    + destruct (Nat.eq_dec j 1%nat) as [->|Hne]; [left; reflexivity|right].
      rewrite Hext' by lia. apply Hnext. lia.
    + replace (Z.of_nat (j - 1)%nat + 1) with (Z.of_nat j) by lia. exact Hrej.
Qed.

Lemma push_unseen_fresh batch : forall seen convs,
  NoDup (map conv_id batch) ->
  (forall c, In c batch -> conv_id c ∉ seen) ->
  (push_unseen seen convs batch).2 = convs ++ batch.
Proof.
  induction batch as [|conv rest IH]; intros seen convs Hnd Hfresh.
  - cbn. rewrite app_nil_r. reflexivity.
  - cbn [push_unseen map] in *. apply NoDup_cons in Hnd.
    destruct Hnd as [Hnotin Hnd].
    destruct (decide (conv_id conv ∈ seen)) as [Hin|_].
    + exfalso. apply (Hfresh conv); [left; reflexivity|exact Hin].
    + rewrite IH; [rewrite <- app_assoc; reflexivity|exact Hnd|].
      intros c Hc Hseen. apply elem_of_union in Hseen.
      destruct Hseen as [Hseen|Hseen].
      * apply (Hfresh c); [right; exact Hc|exact Hseen].
      * apply elem_of_singleton in Hseen. apply Hnotin. rewrite <- Hseen.
        apply list_elem_of_In. apply List.in_map. exact Hc.
Qed.

(** Records with distinct ids pass the [seenIds] loop unchanged. *)
Lemma dedup_by_id_NoDup l : NoDup (map conv_id l) -> dedup_by_id l = l.
Proof.
  intros Hnd. unfold dedup_by_id. rewrite push_unseen_fresh; [reflexivity|exact Hnd|].
  intros c _. apply not_elem_of_empty.
Qed.

Lemma sublist_map {A B} (f : A -> B) l1 l2 :
  sublist l1 l2 -> sublist (map f l1) (map f l2).
Proof. induction 1; cbn; constructor; assumption. Qed.

(** The per-status fetches of a merging search against a paging
    upstream: none fails, and together they gather enough. *)
Lemma settled_paged (pageSize : nat) db (N : Z)
    (fetch : Status -> Settled (list Conversation * Z)) statuses :
  0 <= N ->
  (forall s, exists pages : nat,
     fetch s = Fulfilled (firstn (pages * pageSize) (db (Some (status_name s))),
                          len (db (Some (status_name s))))
     /\ firstn (Z.to_nat N) (firstn (pages * pageSize) (db (Some (status_name s))))
        = firstn (Z.to_nat N) (db (Some (status_name s)))) ->
  let results := allSettled fetch statuses in
  let all := available db statuses in
  first_fatal results = None
  /\ failures results = []
  /\ sumZ (map snd (fulfilled_values results)) = len all
  /\ sublist (fulfilled_records results) all
  /\ Z.min N (len (fulfilled_records results)) = Z.min N (len all).
Proof.
  intros HN Hfetch. induction statuses as [|s statuses IH]; cbn zeta.
  - repeat split; constructor.
  - destruct IH as (IH1 & IH2 & IH3 & IH4 & IH5).
    destruct (Hfetch s) as (pages & Hs & Hfirst).
    unfold allSettled in *. cbn [map first_fatal failures fulfilled_values].
    rewrite Hs. cbn [first_fatal failures fulfilled_values map snd].
    unfold fulfilled_records in *.
    cbn [fulfilled_values flat_map fst available].
    split; [exact IH1|]. split; [exact IH2|].
    split; [|split].
    + rewrite sumZ_cons, IH3. unfold available, len. cbn [flat_map].
      rewrite length_app. lia.
    + unfold available. cbn [flat_map].
      apply sublist_app; [apply sublist_take|exact IH4].
    + apply sublist_length in IH4.
      assert (Hf : length (firstn (Z.to_nat N)
                             (firstn (pages * pageSize) (db (Some (status_name s)))))
                   = length (firstn (Z.to_nat N) (db (Some (status_name s)))))
        by (rewrite Hfirst; reflexivity).
      rewrite !length_firstn in Hf.
      unfold available, len in *. cbn [flat_map].
      rewrite !length_app, length_firstn. lia.
Qed.

Lemma merged_paged `{JsDate} (pageSize : nat) db (N : Z)
    (fetch : Status -> Settled (list Conversation * Z)) statuses :
  0 <= N ->
  (forall s, exists pages : nat,
     fetch s = Fulfilled (firstn (pages * pageSize) (db (Some (status_name s))),
                          len (db (Some (status_name s))))
     /\ firstn (Z.to_nat N) (firstn (pages * pageSize) (db (Some (status_name s))))
        = firstn (Z.to_nat N) (db (Some (status_name s)))) ->
  let kept := merged_newest_first N (allSettled fetch statuses) in
  let all := available db statuses in
  NoDup (map conv_id kept)
  /\ (forall c, In c kept -> In c all)
  /\ (NoDup (map conv_id all) -> len kept = Z.min N (len all)).
Proof.
  intros HN Hfetch kept all.
  destruct (settled_paged pageSize db N fetch statuses HN Hfetch)
    as (_ & _ & _ & Hsub & Hmin).
  destruct (merged_newest_first_spec N (allSettled fetch statuses))
    as (Hnd & Hin & _).
  split; [exact Hnd|]. split.
  - intros c Hc. apply list_elem_of_In.
    eapply elem_of_sublist; [|exact Hsub].
    apply list_elem_of_In. apply Hin. exact Hc.
  - intros Hall. unfold kept, merged_newest_first.
    rewrite dedup_by_id_NoDup
      by (eapply sublist_NoDup; [exact Hall|apply sublist_map, Hsub]).
    unfold len in *. rewrite length_firstn,
      (Permutation_length (Array_sort_perm newest_first _)).
    fold all in Hmin. lia.
Qed.

Lemma appendCreatedAtFilter_after_valid q createdAfter :
  (forall d, createdAfter = Some d -> rx_test isoDatePattern d = true) ->
  exists q', appendCreatedAtFilter q createdAfter None = Fulfilled q'.
Proof.
  intros Hvalid. destruct createdAfter as [d|].
  - apply appendCreatedAtFilter_after_ok, Hvalid. reflexivity.
  - exists q. apply appendCreatedAtFilter_none.
Qed.

Lemma render_members verbose l id :
  In id (map out_id (render verbose l)) -> In id (map conv_id l).
Proof. rewrite render_ids. auto. Qed.

(** Listing mode against a paging upstream. *)
Lemma list_paged `{JsDate} (pageSize : nat) db config input verbose :
  (23 <= pageSize)%nat -> 1 <= in_limit input <= 200 ->
  in_createdBefore input = None ->
  (forall d, in_createdAfter input = Some d ->
             rx_test isoDatePattern d = true) ->
  let N := in_limit input in
  let all := available db (list_statuses input) in
  exists r,
    searchConversationsList config (paged_upstream pageSize db) input verbose
    = Fulfilled r
    /\ (NoDup (map conv_id all) ->
        len (li_results r) = Z.min N (len all)
        /\ NoDup (map out_id (li_results r)))
    /\ (forall id, In id (map out_id (li_results r)) ->
                   In id (map conv_id all))
    /\ (forall status,
          in_status input = Some status -> in_statuses input = None ->
          li_results r = render verbose (firstn (Z.to_nat N) all)).
Proof.
  intros HP HN Hb Ha N all.
  destruct (appendCreatedAtFilter_after_valid (list_query input)
              (in_createdAfter input) Ha) as (q' & Hq).
  assert (Hfetch : forall params : ConvParams,
             exists pages : nat,
               fetchConversationPages (paged_upstream pageSize db) params
                 (limit_or_default input) None
               = Fulfilled (firstn (pages * pageSize) (db (p_status params)),
                            len (db (p_status params)))
               /\ firstn (Z.to_nat N)
                    (firstn (pages * pageSize) (db (p_status params)))
                  = firstn (Z.to_nat N) (db (p_status params))).
  { intros params. rewrite limit_or_default_id by lia.
    destruct (fetchConversationPages_paged pageSize db params N HP HN)
      as (pages & Heq & Hfirst & _).
    exists pages. split; assumption. }
  assert (Hlimit : limit_or_default input = N)
    by (apply limit_or_default_id; lia).
  assert (Hmulti : (in_status input = None \/ in_statuses input <> None) ->
            exists r,
              searchConversationsList config (paged_upstream pageSize db) input
                verbose = Fulfilled r
              /\ (NoDup (map conv_id (available db (statuses_or_default input))) ->
                  len (li_results r)
                  = Z.min N (len (available db (statuses_or_default input)))
                  /\ NoDup (map out_id (li_results r)))
              /\ (forall id, In id (map out_id (li_results r)) ->
                     In id (map conv_id
                              (available db (statuses_or_default input))))).
  { intros Hm.
    rewrite (searchConversationsList_multi config _ input verbose q' Hm Hq).
    cbv zeta. unfold list_fetches. rewrite Hlimit.
    assert (Hbranch : forall s, exists pages : nat,
               list_fetch config (paged_upstream pageSize db) input q' s
               = Fulfilled
                   (firstn (pages * pageSize) (db (Some (status_name s))),
                    len (db (Some (status_name s))))
               /\ firstn (Z.to_nat N)
                    (firstn (pages * pageSize) (db (Some (status_name s))))
                  = firstn (Z.to_nat N) (db (Some (status_name s)))).
    { intros s. unfold list_fetch. apply Hfetch. }
    destruct (settled_paged pageSize db N _ (statuses_or_default input)
                ltac:(lia) Hbranch) as (Hff & Hfail & _).
    destruct (merged_paged pageSize db N _ (statuses_or_default input)
                ltac:(lia) Hbranch) as (Hnd & Hin & Hcount).
    rewrite Hff, Hfail, list_createdBefore_none by exact Hb.
    eexists. split; [reflexivity|]. cbn [li_results]. split.
    - intros Hall. rewrite len_render, render_ids. split; [auto|exact Hnd].
    - intros id Hid. apply render_members in Hid.
      apply List.in_map_iff in Hid. destruct Hid as (c & <- & Hc).
      apply List.in_map. apply Hin. exact Hc. }
  destruct (in_status input) as [status|] eqn:Hs;
    [destruct (in_statuses input) as [statuses|] eqn:Hss|].
  - destruct Hmulti as (r & Heq & H1 & H2); [right; discriminate|].
    exists r. unfold all, list_statuses. rewrite Hs, Hss.
    split; [exact Heq|]. split; [exact H1|]. split; [exact H2|].
    intros status' _ Hx. discriminate.
  - unfold all, list_statuses. rewrite Hs, Hss. unfold available.
    cbn [flat_map]. rewrite app_nil_r.
    unfold searchConversationsList. rewrite Hs, Hss.
    fold (list_query input). rewrite Hq. cbn [and_then].
    match goal with
    | |- context [fetchConversationPages _ ?q _ _] =>
        destruct (Hfetch q) as (pages & Heq & Hfirst)
    end.
    cbn [with_status p_status] in Heq, Hfirst.
    rewrite Heq. cbn [and_then]. rewrite Hlimit. unfold slice0. rewrite Hfirst.
    rewrite list_createdBefore_none by exact Hb.
    eexists. split; [reflexivity|]. cbn [li_results].
    split; [|split].
    + intros Hall. rewrite len_render, render_ids. split.
      * unfold len. rewrite length_firstn. lia.
      * apply NoDup_map_firstn. exact Hall.
    + intros id Hid. apply render_members in Hid.
      apply List.in_map_iff in Hid. destruct Hid as (c & <- & Hc).
      apply List.in_map. eapply In_firstn. exact Hc.
    + reflexivity.
  - destruct Hmulti as (r & Heq & H1 & H2); [left; reflexivity|].
    exists r. unfold all, list_statuses. rewrite Hs.
    split; [exact Heq|]. split; [exact H1|]. split; [exact H2|].
    intros status' Hx. discriminate.
Qed.

(** Structured mode against a paging upstream. *)
Lemma structured_paged `{JsDate} (pageSize : nat) db config input verbose :
  (23 <= pageSize)%nat -> 1 <= in_limit input <= 200 ->
  in_createdBefore input = None ->
  (forall d, in_createdAfter input = Some d ->
             rx_test isoDatePattern d = true) ->
  let N := in_limit input in
  let all := structured_available db input in
  exists r,
    searchConversationsStructured config (paged_upstream pageSize db) input
      verbose = Fulfilled r
    /\ (NoDup (map conv_id all) ->
        len (st_results r) = Z.min N (len all)
        /\ NoDup (map out_id (st_results r)))
    /\ (forall id, In id (map out_id (st_results r)) ->
                   In id (map conv_id all)).
Proof.
  intros HP HN Hb Ha N all.
  assert (Hlimit : limit_or_default input = N)
    by (apply limit_or_default_id; lia).
  assert (Hfetch : forall params : ConvParams,
             exists pages : nat,
               fetchConversationPages (paged_upstream pageSize db) params
                 N None
               = Fulfilled (firstn (pages * pageSize) (db (p_status params)),
                            len (db (p_status params)))
               /\ firstn (Z.to_nat N)
                    (firstn (pages * pageSize) (db (p_status params)))
                  = firstn (Z.to_nat N) (db (p_status params))).
  { intros params.
    destruct (fetchConversationPages_paged pageSize db params N HP HN)
      as (pages & Heq & Hfirst & _).
    exists pages. split; assumption. }
  unfold searchConversationsStructured. cbv zeta.
  match goal with
  | |- context [appendCreatedAtFilter ?q _ None] =>
      destruct (appendCreatedAtFilter_after_valid q (in_createdAfter input) Ha)
        as (q' & ->)
  end.
  cbn [and_then]. rewrite Hlimit, Hb. cbn [truthy].
  unfold all, structured_available.
  destruct (nonempty (in_statuses input)) eqn:Hne.
  - destruct (in_statuses input) as [statuses|] eqn:Hss; [|discriminate].
    change (default [] (Some statuses)) with statuses.
    cbn [and_then]. rewrite slice_or_keep, merge_fulfilled_spec.
    fold (dedup_by_id
            (fulfilled_records
               (allSettled
                  (fun status =>
                     fetchConversationPages (paged_upstream pageSize db)
                       (with_status
                          (structured_queryParams N
                             match queryParts input with
                             | [] => None
                             | _ :: _ => Some (join " AND " (queryParts input))
                             end q'
                             (str_or (in_inboxId input) (defaultInboxId config)))
                          (status_name status)) N None) statuses))).
    match goal with
    | |- context [allSettled ?f statuses] => set (fetch := f)
    end.
    fold (merged_newest_first N (allSettled fetch statuses)).
    assert (Hbranch : forall s, exists pages : nat,
               fetch s
               = Fulfilled
                   (firstn (pages * pageSize) (db (Some (status_name s))),
                    len (db (Some (status_name s))))
               /\ firstn (Z.to_nat N)
                    (firstn (pages * pageSize) (db (Some (status_name s))))
                  = firstn (Z.to_nat N) (db (Some (status_name s)))).
    { intros s. unfold fetch. apply Hfetch. }
    destruct (merged_paged pageSize db N fetch statuses ltac:(lia) Hbranch)
      as (Hnd & Hin & Hcount).
    eexists. split; [reflexivity|]. cbn [st_results]. split.
    + intros Hall. rewrite len_render, render_ids. split; [auto|exact Hnd].
    + intros id Hid. apply render_members in Hid.
      apply List.in_map_iff in Hid. destruct Hid as (c & <- & Hc).
      apply List.in_map. apply Hin. exact Hc.
  - cbv iota.
    match goal with
    | |- context [fetchConversationPages _ ?q _ _] =>
        destruct (Hfetch q) as (pages & Heq & Hfirst)
    end.
    cbn [with_status p_status] in Heq, Hfirst.
    rewrite Heq. cbn [and_then]. rewrite slice_or_keep, Hfirst.
    eexists. split; [reflexivity|]. cbn [st_results]. split.
    + intros Hall. rewrite len_render, render_ids. split.
      * unfold len. rewrite length_firstn. lia.
      * apply NoDup_map_firstn. exact Hall.
    + intros id Hid. apply render_members in Hid.
      apply List.in_map_iff in Hid. destruct Hid as (c & <- & Hc).
      apply List.in_map. eapply In_firstn. exact Hc.
Qed.

(** Keyword mode against a paging upstream: one group for each status,
    each with its own [N] records. *)
Lemma keyword_paged `{JsDate} `{Clock} (pageSize : nat) db config input
    verbose :
  (23 <= pageSize)%nat -> 1 <= in_limit input <= 200 ->
  in_createdBefore input = None ->
  (forall d, in_createdAfter input = Some d ->
             rx_test isoDatePattern d = true) ->
  let N := in_limit input in
  exists r,
    searchConversationsKeyword config (paged_upstream pageSize db) input
      verbose = Fulfilled r
    /\ kw_resultsByStatus r
       = map (fun s =>
                group_of
                  {| sr_status := s;
                     sr_totalCount := len (db (Some (status_name s)));
                     sr_conversations :=
                       render verbose
                         (firstn (Z.to_nat N) (db (Some (status_name s)))) |})
             (statuses_or_default input)
    /\ kw_totalConversationsFound r
       = sumZ (map (fun s => Z.min N (len (db (Some (status_name s)))))
                 (statuses_or_default input)).
Proof.
  intros HP HN Hb Ha N.
  assert (Hlimit : limit_or_default input = N)
    by (apply limit_or_default_id; lia).
  assert (Hbranch : forall s,
             keyword_branch config (paged_upstream pageSize db) input verbose s
             = Fulfilled
                 {| sr_status := s;
                    sr_totalCount := len (db (Some (status_name s)));
                    sr_conversations :=
                      render verbose
                        (firstn (Z.to_nat N) (db (Some (status_name s)))) |}).
  { intros s. unfold keyword_branch. rewrite Hb, Hlimit.
    apply keyword_single_status_paged; [exact HP|exact HN|].
    destruct (in_createdAfter input) as [d|] eqn:Hd.
    - destruct (truthy (Some d)).
      + apply Ha. reflexivity.
      + apply calculateTimeRange_spec.
    - apply calculateTimeRange_spec. }
  rewrite searchConversationsKeyword_spec. cbv zeta.
  unfold keyword_branches.
  destruct (allSettled_all_fulfilled
              (keyword_branch config (paged_upstream pageSize db) input verbose)
              (statuses_or_default input)) as (_ & ->);
    [intros s _; eexists; apply Hbranch|].
  assert (Hentries :
            map keyword_entry
              (allSettled
                 (keyword_branch config (paged_upstream pageSize db) input
                    verbose) (statuses_or_default input))
            = map (fun s =>
                     {| sr_status := s;
                        sr_totalCount := len (db (Some (status_name s)));
                        sr_conversations :=
                          render verbose
                            (firstn (Z.to_nat N)
                               (db (Some (status_name s)))) |})
                (statuses_or_default input)).
  { unfold allSettled. rewrite List.map_map. apply List.map_ext.
    intros s. cbn [keyword_entry]. rewrite Hbranch. reflexivity. }
  rewrite Hentries. eexists. split; [reflexivity|].
  cbn [kw_resultsByStatus kw_totalConversationsFound].
  split; [apply List.map_map|].
  rewrite List.map_map. f_equal. apply List.map_ext. intros s.
  cbn [sr_conversations]. rewrite len_render. unfold len.
  rewrite length_firstn. lia.
Qed.

(** C7, as amended.  Against an upstream that serves fixed-size pages
    (of at least 23 records, which covers the 25 of the real API for
    every limit the schema admits) and links to a next page while
    records remain, for a search with limit [N], without
    [createdBefore], whose [createdAfter] is absent or well formed:

    - every page loop asks for the pages [1 .. k] in sequence and for no
      other, where [k] is the first page after which [N] records are
      gathered or no next link is present, and gathers the records of
      those pages;
    - listing mode and structured mode deliver exactly
      [min N (total available)] records, without duplicates, all of them
      records of the upstream (when the upstream holds no record twice
      under the statuses searched), and a listing of a single status
      delivers the first [N] records of that status;
    - keyword mode delivers one group for each status searched, which
      holds the first [min N (available under that status)] records of
      the status, so [N] bounds each group and not the whole result. *)
Theorem pagination_completeness `{JsDate} `{Clock} (pageSize : nat) db config
    input verbose :
  (23 <= pageSize)%nat ->
  1 <= in_limit input <= 200 ->
  in_createdBefore input = None ->
  (forall d, in_createdAfter input = Some d ->
             rx_test isoDatePattern d = true) ->
  let N := in_limit input in
  let api := paged_upstream pageSize db in
  (forall params,
     let all := db (p_status params) in
     exists k : nat,
       (1 <= k)%nat
       /\ (N <= Z.of_nat (k * pageSize) \/ (length all <= k * pageSize)%nat)
       /\ (forall j, (1 <= j < k)%nat ->
             Z.of_nat (j * pageSize) < N /\ (j * pageSize < length all)%nat)
       /\ (forall api' : ConvApi,
             (forall page, 1 <= page <= Z.of_nat k ->
                api' (with_page params page) = api (with_page params page)) ->
             fetchConversationPages api' params N None
             = Fulfilled (firstn (k * pageSize) all, len all))
       /\ (forall (api' : ConvApi) (j : nat) e,
             (1 <= j <= k)%nat ->
             (forall page, 1 <= page < Z.of_nat j ->
                api' (with_page params page) = api (with_page params page)) ->
             api' (with_page params (Z.of_nat j)) = Rejected e ->
             fetchConversationPages api' params N None = Rejected e))
  /\ (let all := available db (list_statuses input) in
      exists r,
        searchConversationsList config api input verbose = Fulfilled r
        /\ (NoDup (map conv_id all) ->
            len (li_results r) = Z.min N (len all)
            /\ NoDup (map out_id (li_results r)))
        /\ (forall id, In id (map out_id (li_results r)) ->
                       In id (map conv_id all))
        /\ (forall status,
              in_status input = Some status -> in_statuses input = None ->
              li_results r = render verbose (firstn (Z.to_nat N) all)))
  /\ (let all := structured_available db input in
      exists r,
        searchConversationsStructured config api input verbose = Fulfilled r
        /\ (NoDup (map conv_id all) ->
            len (st_results r) = Z.min N (len all)
            /\ NoDup (map out_id (st_results r)))
        /\ (forall id, In id (map out_id (st_results r)) ->
                       In id (map conv_id all)))
  /\ (exists r,
        searchConversationsKeyword config api input verbose = Fulfilled r
        /\ map group_status (kw_resultsByStatus r) = statuses_or_default input
        /\ (forall g, In g (kw_resultsByStatus r) ->
              let records := db (Some (status_name (group_status g))) in
              group_conversations g
              = render verbose (firstn (Z.to_nat N) records)
              /\ len (group_conversations g) = Z.min N (len records)
              /\ (NoDup (map conv_id records) ->
                  NoDup (map out_id (group_conversations g))))
        /\ kw_totalConversationsFound r
           = sumZ (map (fun s => Z.min N (len (db (Some (status_name s)))))
                     (statuses_or_default input))).
Proof.
  intros HP HN Hb Ha N api.
  split; [|split; [|split]].
  - intros params. apply paged_loop; assumption.
  - apply list_paged; assumption.
  - apply structured_paged; assumption.
  - destruct (keyword_paged pageSize db config input verbose HP HN Hb Ha)
      as (r & Heq & Hgroups & Hfound).
    exists r. split; [exact Heq|]. split; [|split; [|exact Hfound]].
    + rewrite Hgroups, List.map_map. cbn [group_of group_status sr_status].
      apply List.map_id.
    + intros g Hg. rewrite Hgroups in Hg. apply List.in_map_iff in Hg.
      destruct Hg as (s & <- & _).
      cbn [group_of group_status group_conversations sr_status
           sr_conversations].
      split; [reflexivity|]. split.
      * rewrite len_render. unfold len. rewrite length_firstn. lia.
      * intros Hnd. rewrite render_ids. apply NoDup_map_firstn. exact Hnd.
Qed.

Lemma pagination_completeness_witness :
  exists r,
    searchConversationsList (H := iso_getTime) (config_of_env (fun _ => None))
      (paged_upstream 25 sixty_active)
      (with_limit (with_status_filter example_input (Some active) None) 26)
      false = Fulfilled r
    /\ len (li_results r) = 26
    /\ NoDup (map out_id (li_results r)).
Proof.
  destruct (pagination_completeness (H := iso_getTime) (H0 := example_clock)
              25 sixty_active (config_of_env (fun _ => None))
              (with_limit (with_status_filter example_input (Some active) None)
                 26)
              false)
    as (_ & (r & Heq & Hcount & _) & _).
  - lia.
  - simpl. lia.
  - reflexivity.
  - intros d Hd. discriminate.
  - destruct Hcount as [Hlen Hnd].
    + refine (bool_decide_unpack _ _). vm_compute. exact I.
    + exists r. split; [exact Heq|]. split; [|exact Hnd].
      rewrite Hlen. reflexivity.
Defined.

(** C7 as stated fails in keyword mode, where the limit applies to each
    status and not to the result: a keyword search with limit 1, against
    an upstream that holds one conversation under each of [active],
    [pending] and [closed], delivers all three conversations, not
    [min 1 3 = 1]. *)
Lemma keyword_delivers_limit_per_status :
  exists r,
    searchConversationsKeyword (H := iso_getTime) (H0 := example_clock)
      default_config (paged_upstream 25 one_per_status)
      (with_limit (with_searchTerms example_input ["refund"]) 1) false
    = Fulfilled r
    /\ keyword_ids out_id r = [1; 2; 3]
    /\ kw_totalConversationsFound r = 3
    /\ len (available one_per_status [active; pending; closed]) = 3
    /\ Z.min 1 (len (available one_per_status [active; pending; closed])) = 1.
Proof.
  eexists. split; [vm_compute; reflexivity|].
  repeat split; reflexivity.
Qed.
